(** * Slide generator for stride-change figures: model and properties

    A shallow embedding of [powerpoint_auto_generator.py].

    Conventions of the model.
    - A Python [str] is a [string]; a character is a code point in 0..255,
      so the character classes below are Python's restricted to that range.
    - A Python [float] is a binary64 [float] (primitive floats), with the
      IEEE comparison and division that Python uses.
    - Lengths are python-pptx [Length] values: integers counting EMU.
    - [print] appends a diagnostic to a log carried with the result.
    - The file system, the CSV reader and the document library are
      collaborators: they appear as fields of an environment record.
    - A pandas table is its column names and the values of its rows. The
      dtype of a column is the one pandas infers from its values, and
      [iterrows] yields each row in the one dtype of the table's values. *)

From Stdlib Require Import String Ascii ZArith List Lia Bool.
From Stdlib Require Import Floats QArith Qround DecimalString.
From Stdlib Require Import Sorted Permutation.
From stdpp Require Import base option list gmap strings.

Set Warnings "-inexact-float".

(* ===================================================================== *)
(** * Python strings *)
(* ===================================================================== *)

Module PyStr.

Definition code (c : ascii) : N := N_of_ascii c.

(** [[A-Z]] of the regular expression. *)
Definition is_upper (c : ascii) : bool :=
  (65 <=? code c)%N && (code c <=? 90)%N.

(** [\d] of the regular expression: the decimal digits below 256. *)
Definition is_digit (c : ascii) : bool :=
  (48 <=? code c)%N && (code c <=? 57)%N.

(** [str.isspace] below 256: what a bare [strip()] removes. *)
Definition is_space (c : ascii) : bool :=
  ((9 <=? code c)%N && (code c <=? 13)%N)
  || ((28 <=? code c)%N && (code c <=? 32)%N)
  || (code c =? 133)%N || (code c =? 160)%N.

(** The double quote, code 34. *)
Definition is_quote (c : ascii) : bool := Ascii.eqb c "034"%char.

Fixpoint all (f : ascii -> bool) (s : string) : bool :=
  match s with
  | EmptyString => true
  | String c s' => f c && all f s'
  end.

Definition nonempty (s : string) : bool :=
  match s with EmptyString => false | String _ _ => true end.

(** [s.startswith(p)], returning what follows [p]. *)
Fixpoint strip_prefix (p s : string) : option string :=
  match p with
  | EmptyString => Some s
  | String a p' =>
      match s with
      | EmptyString => None
      | String b s' => if Ascii.eqb a b then strip_prefix p' s' else None
      end
  end.

Definition startswith (s p : string) : bool :=
  match strip_prefix p s with Some _ => true | None => false end.

(** The longest run of characters of class [f] at the head of [s], and
    the rest. *)
Fixpoint span (f : ascii -> bool) (s : string) : string * string :=
  match s with
  | EmptyString => (EmptyString, EmptyString)
  | String c s' =>
      if f c then let (a, b) := span f s' in (String c a, b)
      else (EmptyString, s)
  end.

(** [s.lstrip] and [s.rstrip] for a character class. *)
Fixpoint lstrip (f : ascii -> bool) (s : string) : string :=
  match s with
  | EmptyString => EmptyString
  | String c s' => if f c then lstrip f s' else s
  end.

Fixpoint rstrip (f : ascii -> bool) (s : string) : string :=
  match s with
  | EmptyString => EmptyString
  | String c s' =>
      match rstrip f s' with
      | EmptyString => if f c then EmptyString else String c EmptyString
      | r => String c r
      end
  end.

Definition strip (f : ascii -> bool) (s : string) : string :=
  rstrip f (lstrip f s).

(** [s.split(sep)] for a one-character separator: never empty. *)
Fixpoint split (sep : ascii) (s : string) : list string :=
  match s with
  | EmptyString => [EmptyString]
  | String c s' =>
      if Ascii.eqb c sep then EmptyString :: split sep s'
      else match split sep s' with
           | h :: t => String c h :: t
           | [] => [String c EmptyString]
           end
  end.

(** The same split, with the line being read carried along. *)
Fixpoint split_from (sep : ascii) (acc s : string) : list string :=
  match s with
  | EmptyString => [acc]
  | String c s' =>
      if Ascii.eqb c sep then acc :: split_from sep EmptyString s'
      else split_from sep (acc +:+ String c EmptyString) s'
  end.

(** [s.endswith(suf)]. *)
Fixpoint endswith (s suf : string) : bool :=
  String.eqb s suf ||
  match s with
  | EmptyString => false
  | String _ s' => endswith s' suf
  end.

(** [s.replace(a, b)] for one-character [a] and [b]. *)
Fixpoint replace (a b : ascii) (s : string) : string :=
  match s with
  | EmptyString => EmptyString
  | String c s' => String (if Ascii.eqb c a then b else c) (replace a b s')
  end.

(** [s1 < s2] on [str]: lexicographic on code points. *)
Definition lt (s1 s2 : string) : bool := String.ltb s1 s2.

End PyStr.

(* ===================================================================== *)
(** * Identifier Extractor *)
(* ===================================================================== *)

Module Extractor.
Import PyStr.

Definition prefix_lit : string := "stride_change_".
Definition suffix_lit : string := "_fixed_grid.png".

(** The pattern [stride_change_([A-Z]+\d+)_fixed_grid\.png] tried at the
    head of [s]. The two greedy runs never give characters back: a
    shorter run of letters is followed by a letter, not a digit, and a
    shorter run of digits by a digit, not the underscore. *)
Definition match_here (s : string) : option string :=
  match strip_prefix prefix_lit s with
  | None => None
  | Some r1 =>
      let (letters, r2) := span is_upper r1 in
      let (digits, r3) := span is_digit r2 in
      if nonempty letters && nonempty digits && startswith r3 suffix_lit
      then Some (letters +:+ digits)
      else None
  end.

(** [re.search]: the match at the leftmost position that has one. *)
Fixpoint re_search (s : string) : option string :=
  match match_here s with
  | Some tok => Some tok
  | None =>
      match s with
      | EmptyString => None
      | String _ s' => re_search s'
      end
  end.

Definition extract_subject_id_from_filename (filename : string)
  : option string :=
  re_search filename.

(** One-or-more uppercase letters followed by one-or-more digits. *)
Definition token_shape (tok : string) : Prop :=
  exists letters digits,
    tok = letters +:+ digits
    /\ nonempty letters = true /\ nonempty digits = true
    /\ all is_upper letters = true /\ all is_digit digits = true.

(** [filename] carries the convention with token [tok] after [pre]. *)
Definition convention_at (pre tok post filename : string) : Prop :=
  filename = pre +:+ prefix_lit +:+ tok +:+ suffix_lit +:+ post
  /\ token_shape tok.

End Extractor.

(* ===================================================================== *)
(** * Diagnostics and collaborators *)
(* ===================================================================== *)

(** One constructor per [print] of the program that the properties below
    speak about. *)
Inductive diag : Type :=
| WarnNoAgeColumn
| LoadedAgeData (n : nat)
| MetadataFileNotFound (metadata_path : string)
| ErrorLoadingMetadata
| FoundImagePaths (n : nat) (file_path : string)
| ImagePathsFileNotFound (file_path : string)
| ErrorReadingImagePaths
| CouldNotFindImage (filename : string)
| CouldNotExtractSubjectId (filename : string)
| FoundValidImages (n : nat)
| ImagesNotFoundOnDisk (n : nat) (first_few : list string)
| NoValidImagesFound
| ErrorAddingImage (filename : string)
| PresentationSaved (output_filename : string) (image_slides : nat)
| ErrorSavingPowerPoint.

(** What reading a file can do: give its contents, raise
    [FileNotFoundError], or raise some other exception. *)
Inductive read_result (A : Type) : Type :=
| ReadOk (content : A)
| ReadFileNotFound
| ReadOtherError.
Arguments ReadOk {A} content.
Arguments ReadFileNotFound {A}.
Arguments ReadOtherError {A}.

(* ===================================================================== *)
(** * Image path list *)
(* ===================================================================== *)

Module Paths.
Import PyStr.

Definition newline : ascii := "010"%char.

(** [line.strip()] then [.strip] of the double quote. *)
Definition clean_line (line : string) : string :=
  strip is_quote (strip is_space line).

(** [path and path.endswith('.png')] *)
Definition is_png_path (path : string) : bool :=
  nonempty path && endswith path ".png".

(** [parse_image_paths_from_file], given what [open(...).read()] does. *)
Definition parse_image_paths_from_file
    (file_path : string) (opened : read_result string)
  : list string * list diag :=
  match opened with
  | ReadOk content =>
      let paths :=
        fold_left
          (fun paths line =>
             let path := clean_line line in
             if is_png_path path then paths ++ [path] else paths)
          (split newline (strip is_space content)) [] in
      (paths, [FoundImagePaths (length paths) file_path])
  | ReadFileNotFound => ([], [ImagePathsFileNotFound file_path])
  | ReadOtherError => ([], [ErrorReadingImagePaths])
  end.

(** The description of the result line by line: the lines of the file,
    each cleaned, those kept that are non-empty and end in [.png]. *)
Definition file_lines (content : string) : list string :=
  split newline content.

Definition kept_lines (lines : list string) : list string :=
  List.filter is_png_path (map clean_line lines).

Definition png_lines_of (content : string) : list string :=
  kept_lines (file_lines content).

(** A small path file: a quoted path, a line that is no image, an empty
    line, and a path with trailing blanks. *)
Definition quoted (s : string) : string :=
  String "034"%char (s +:+ String "034"%char EmptyString).

Definition sample_content : string :=
  quoted "C:\plots\stride_change_MUH1396_fixed_grid.png"
  +:+ String newline
        ("  notes.txt"
         +:+ String newline
               (String newline
                  ("stride_change_MUH1069_fixed_grid.png  "
                   +:+ String newline EmptyString))).

End Paths.

(* ===================================================================== *)
(** * Metadata Resolver *)
(* ===================================================================== *)

Module Metadata.

(** A value in a cell of the table: text, an integer of an int64 column,
    or a float (a missing value is the float NaN). *)
Inductive cell : Type :=
| CStr (s : string)
| CInt (z : Z)
| CFloat (f : float).

(** A row: values by column name. *)
Definition row : Type := list (string * cell).

(** A table as [pd.read_csv] returns it: the column names and, row by
    row, the values read. A column that has no value in a row is missing
    there. *)
Record DataFrame : Type := {
  columns : list string;
  rows : list row;
}.

Fixpoint row_get (name : string) (r : row) : option cell :=
  match r with
  | [] => None
  | (k, v) :: r' => if String.eqb k name then Some v else row_get name r'
  end.

Definition has_column (name : string) (df : DataFrame) : bool :=
  existsb (String.eqb name) (columns df).

(** [float(z)]: the float nearest to the integer, ties to even (an
    integer of an int64 column is far below the largest float). *)
Definition float_of_Z (z : Z) : float :=
  SF2Prim (binary_normalize prec emax z 0 false).

(** ** Column types *)

(** The dtypes pandas gives to columns of such values. *)
Inductive dtype : Type :=
| Int64
| Float64
| Object.

Definition dtype_of (v : cell) : dtype :=
  match v with
  | CInt _ => Int64
  | CFloat _ => Float64
  | CStr _ => Object
  end.

(** The dtype that holds values of both: integers and floats together
    are floats, anything with text is [object]. *)
Definition find_common_type (a b : dtype) : dtype :=
  match a, b with
  | Object, _ | _, Object => Object
  | Float64, _ | _, Float64 => Float64
  | Int64, Int64 => Int64
  end.

Definition infer_dtype (values : list cell) : dtype :=
  fold_right (fun v d => find_common_type (dtype_of v) d) Int64 values.

(** A value as an array of dtype [d] holds it: an integer becomes a float
    in a float64 array; an [object] array keeps Python's own values. *)
Definition astype (d : dtype) (v : cell) : cell :=
  match d, v with
  | Float64, CInt z => CFloat (float_of_Z z)
  | _, _ => v
  end.

Definition nan_cell : cell := CFloat PrimFloat.nan.

(** The value of column [name] in a row (NaN where the row has none). *)
Definition cell_of (name : string) (r : row) : cell :=
  match row_get name r with Some v => v | None => nan_cell end.

Definition column_dtype (name : string) (df : DataFrame) : dtype :=
  infer_dtype (map (cell_of name) (rows df)).

(** [metadata_df[name]]: the values of the column, in its dtype. *)
Definition column (name : string) (df : DataFrame) : list cell :=
  map (fun r => astype (column_dtype name df) (cell_of name r)) (rows df).

(** A row with its value for column [name]. *)
Definition with_value (name : string) (entry : row * cell) : row :=
  (name, snd entry) :: fst entry.

(** [metadata_df[name] = values], for as many values as rows. *)
Definition set_column (name : string) (values : list cell)
    (df : DataFrame) : DataFrame :=
  {| columns :=
       if has_column name df then columns df else columns df ++ [name];
     rows := map (with_value name) (combine (rows df) values) |}.

(** The dtype of [metadata_df.values], the one array that holds every
    column. *)
Definition values_dtype (df : DataFrame) : dtype :=
  fold_right (fun name d => find_common_type (column_dtype name df) d)
             Int64 (columns df).

(** The value of column [name] in row [r] of that array. *)
Definition value_at (df : DataFrame) (name : string) (r : row) : cell :=
  astype (values_dtype df) (astype (column_dtype name df) (cell_of name r)).

(** The Series of row [r]: its values in [metadata_df.values], by column
    name. *)
Definition series (df : DataFrame) (r : row) : row :=
  map (fun name => (name, value_at df name r)) (columns df).

(** [metadata_df.iterrows()]: each row as its Series. So the integers of
    a table that also has a float column and no text arrive as floats. *)
Definition iterrows (df : DataFrame) : list row :=
  map (series df) (rows df).

(** Python built-ins that are left to the interpreter: [float(s)] of a
    string ([None] is [ValueError]), and [str(f)] of a float that has a
    fraction or is not below 2^53 in magnitude. *)
Record Builtins : Type := {
  float_of_str : string -> option float;
  str_of_float : float -> string;
}.

Section Resolver.
Variable py : Builtins.

(** [str(f)]: a whole number below 2^53 in magnitude is written with all
    its digits and [.0]. *)
Definition str_float (f : float) : string :=
  match Prim2SF f with
  | S754_nan => "nan"
  | S754_infinity s => if s then "-inf" else "inf"
  | S754_zero s => if s then "-0.0" else "0.0"
  | S754_finite s m e =>
      if ((e <=? 0) && (Z.pos m mod 2 ^ (- e) =? 0))%Z
      then (if s then "-" else "")
           +:+ NilZero.string_of_int (Z.to_int (Z.pos m / 2 ^ (- e)))
           +:+ ".0"
      else str_of_float py f
  end.

(** [str(v)] *)
Definition py_str (v : cell) : string :=
  match v with
  | CStr s => s
  | CInt z => NilZero.string_of_int (Z.to_int z)
  | CFloat f => str_float f
  end.

(** [pd.notna(v)] *)
Definition notna (v : cell) : bool :=
  match v with
  | CFloat f => negb (PrimFloat.is_nan f)
  | _ => true
  end.

(** [float(v)]; [None] is [ValueError]. *)
Definition py_float (v : cell) : option float :=
  match v with
  | CFloat f => Some f
  | CInt z => Some (float_of_Z z)
  | CStr s => float_of_str py s
  end.

(** One element of [column / 12]; [None] is the [TypeError] of
    dividing text. *)
Definition div12 (v : cell) : option cell :=
  match v with
  | CFloat f => Some (CFloat (f / 12))
  | CInt z => Some (CFloat (float_of_Z z / 12))
  | CStr _ => None
  end.

(** [column / 12], element by element; [None] is the [TypeError] that
    aborts the whole operation. *)
Fixpoint months_to_years (values : list cell) : option (list cell) :=
  match values with
  | [] => Some []
  | v :: values' =>
      match div12 v, months_to_years values' with
      | Some y, Some ys => Some (y :: ys)
      | _, _ => None
      end
  end.

(** The [age_years] column, or how the choice of column ended. *)
Inductive age_column : Type :=
| AgeYears (values : list cell)
| AgeRaised
| AgeNoColumn.

Definition age_years_column (df : DataFrame) : age_column :=
  if has_column "age_months" df then
    match months_to_years (column "age_months" df) with
    | Some vs => AgeYears vs
    | None => AgeRaised
    end
  else if has_column "age" df then
    AgeYears (column "age" df)
  else AgeNoColumn.

(** The body of the loop over [iterrows()]: [None] is an exception
    ([KeyError] of [row['ID']], [ValueError] of [float(age)]). A row
    without [age_years] would give [None] to [pd.notna], which is false
    of it. *)
Definition add_row (age_mapping : gmap string float)
    (r : row) : option (gmap string float) :=
  match row_get "ID" r with
  | None => None
  | Some id =>
      let subject_id := py_str id in
      match row_get "age_years" r with
      | Some age =>
          if notna age then
            match py_float age with
            | Some f => Some (<[subject_id := f]> age_mapping)
            | None => None
            end
          else Some age_mapping
      | None => Some age_mapping
      end
  end.

Fixpoint build_mapping (age_mapping : gmap string float)
    (yielded : list row) : option (gmap string float) :=
  match yielded with
  | [] => Some age_mapping
  | r :: rs =>
      match add_row age_mapping r with
      | Some m => build_mapping m rs
      | None => None
      end
  end.

(** [load_subject_metadata], given what [pd.read_csv] does. *)
Definition load_subject_metadata
    (metadata_path : string) (read_csv : read_result DataFrame)
  : gmap string float * list diag :=
  match read_csv with
  | ReadOk df =>
      match age_years_column df with
      | AgeNoColumn => (∅, [WarnNoAgeColumn])
      | AgeRaised => (∅, [ErrorLoadingMetadata])
      | AgeYears ages =>
          let metadata_df := set_column "age_years" ages df in
          match build_mapping ∅ (iterrows metadata_df) with
          | Some age_mapping =>
              (age_mapping, [LoadedAgeData (size age_mapping)])
          | None => (∅, [ErrorLoadingMetadata])
          end
      end
  | ReadFileNotFound => (∅, [MetadataFileNotFound metadata_path])
  | ReadOtherError => (∅, [ErrorLoadingMetadata])
  end.

(** The key under which the loop files row [r] of the table:
    [str(row['ID'])], read from the frame [metadata_df] that has the
    [age_years] column. *)
Definition subject_key (metadata_df : DataFrame) (r : row) : string :=
  py_str (value_at metadata_df "ID" r).

(** The choice of column as the specification words it: the years
    column when the table has one, else the months column over 12. *)
Definition age_years_column_years_first (df : DataFrame) : age_column :=
  if has_column "age" df then
    AgeYears (column "age" df)
  else if has_column "age_months" df then
    match months_to_years (column "age_months" df) with
    | Some vs => AgeYears vs
    | None => AgeRaised
    end
  else AgeNoColumn.

End Resolver.

(** The table of the specification's example: one row gives months only,
    the other years only, so each misses the other column's value. *)
Definition example_table : DataFrame :=
  {| columns := ["ID"; "age_months"; "age"];
     rows := [ [("ID", CInt 1); ("age_months", CInt 144)];
               [("ID", CInt 2); ("age", CFloat 15.5)] ] |}.

(** The mapping the specification expects for [example_table]. *)
Definition expected_example_mapping : gmap string float :=
  <["2" := 15.5%float]> (<["1" := 12%float]> ∅).

(** The first row of the example in a table that also has a column of
    text. *)
Definition example_with_text : DataFrame :=
  {| columns := ["ID"; "age_months"; "sex"];
     rows := [ [("ID", CInt 1); ("age_months", CInt 144);
                ("sex", CStr "F")] ] |}.

(** A table whose two age columns disagree. *)
Definition both_columns_table : DataFrame :=
  {| columns := ["ID"; "age"; "age_months"];
     rows := [ [("ID", CStr "MUH1396"); ("age", CFloat 15.5);
                ("age_months", CFloat 144)] ] |}.

(** A table with a years column only, one subject of age zero and one
    whose age is missing. *)
Definition years_only_table : DataFrame :=
  {| columns := ["ID"; "age"];
     rows := [ [("ID", CStr "MUH1"); ("age", CFloat 0)];
               [("ID", CStr "MUH2"); ("age", CFloat PrimFloat.nan)] ] |}.

(** Built-ins for tables in which no text is an age and no ID is a float
    with a fraction. *)
Definition no_text : Builtins :=
  {| float_of_str := fun _ => None; str_of_float := fun _ => "" |}.

End Metadata.

(* ===================================================================== *)
(** * Sample metadata tables *)
(* ===================================================================== *)

Module MetadataSamples.
Import Metadata.

(** Row [fst e] of the table, with [snd e] in its [age_years] column,
    binds key [k]: its ID reads [k] and its age is not NaN. *)
Definition binds (py : Builtins) (metadata_df : DataFrame) (k : string)
    (e : row * cell) : Prop :=
  subject_key py metadata_df (fst e) = k /\ notna (snd e) = true.

(** The same subject on two rows, a third row without a number. *)
Definition repeated_id_table : DataFrame :=
  {| columns := ["ID"; "age_months"];
     rows := [ [("ID", CStr "MUH7"); ("age_months", CFloat 120)];
               [("ID", CStr "MUH7"); ("age_months", CFloat 126)];
               [("ID", CStr "MUH7"); ("age_months", CFloat PrimFloat.nan)] ] |}.

(** A good row followed by a row whose months are text. *)
Definition text_months_table : DataFrame :=
  {| columns := ["ID"; "age_months"];
     rows := [ [("ID", CStr "MUH7"); ("age_months", CFloat 120)];
               [("ID", CStr "MUH8"); ("age_months", CStr "ten")] ] |}.

(** [both_columns_table] with another years value and one more column. *)
Definition other_years_table : DataFrame :=
  {| columns := ["ID"; "age"; "age_months"; "sex"];
     rows := [ [("ID", CStr "MUH1396"); ("age", CFloat 99);
                ("age_months", CFloat 144); ("sex", CStr "F")] ] |}.

(** A row with an age and no ID value. *)
Definition missing_id_table : DataFrame :=
  {| columns := ["ID"; "age"];
     rows := [ [("ID", CStr "MUH1"); ("age", CFloat 9)];
               [("age", CFloat 10)] ] |}.

(** The row of [example_with_text] without its column of text. *)
Definition numbers_only_table : DataFrame :=
  {| columns := ["ID"; "age_months"];
     rows := [ [("ID", CInt 1); ("age_months", CInt 144)] ] |}.

End MetadataSamples.

(* ===================================================================== *)
(** * The order of floats *)
(* ===================================================================== *)

Module FloatOrder.

(** The place of a float that is not NaN on the number line: its class
    (minus infinity, negative, zero, positive, plus infinity), then
    exponent and mantissa, read with the sign. *)
Definition rank (s : spec_float) : Z * Z * Z :=
  match s with
  | S754_zero _ => (0, 0, 0)%Z
  | S754_infinity true => (-2, 0, 0)%Z
  | S754_infinity false => (2, 0, 0)%Z
  | S754_nan => (3, 0, 0)%Z
  | S754_finite true m e => (-1, - e, Z.neg m)%Z
  | S754_finite false m e => (1, e, Z.pos m)%Z
  end.

Definition lex_lt (a b : Z * Z * Z) : Prop :=
  let '(a1, a2, a3) := a in
  let '(b1, b2, b3) := b in
  (a1 < b1 \/ (a1 = b1 /\ (a2 < b2 \/ (a2 = b2 /\ a3 < b3))))%Z.

Definition frank (x : float) : Z * Z * Z := rank (Prim2SF x).

End FloatOrder.

(* ===================================================================== *)
(** * Path Resolver and Image Catalog Builder *)
(* ===================================================================== *)

Module Catalog.
Import PyStr Extractor.

(** What the program asks of the [os] module. *)
Record Platform : Type := {
  os_name_nt : bool;                 (* [os.name == 'nt'] *)
  os_sep : ascii;                    (* [os.sep] *)
  basename : string -> string;       (* [os.path.basename] *)
  path_exists : string -> bool;      (* [os.path.exists] *)
}.

(** [posixpath.basename]: what follows the last slash. *)
Fixpoint posix_basename (p : string) : string :=
  match p with
  | EmptyString => EmptyString
  | String c p' =>
      if existsb (Ascii.eqb "/"%char) (list_ascii_of_string p')
      then posix_basename p'
      else if Ascii.eqb c "/"%char then p' else p
  end.

Definition posix (disk : string -> bool) : Platform :=
  {| os_name_nt := false; os_sep := "/"%char;
     basename := posix_basename; path_exists := disk |}.

Record SlideRecord : Type := {
  path : string;
  subject_id : string;
  age : option float;
  filename : string;
}.

Definition plots_dir : string :=
  "figures/individual_plots/stride_change_after_success_vs_failure/".

(** The candidate locations, in the order they are tried. *)
Definition possible_paths (filename : string) : list string :=
  [ filename;
    plots_dir +:+ filename;
    "analysis/" +:+ plots_dir +:+ filename;
    "motor_learning_output/" +:+ plots_dir +:+ filename ].

Inductive resolution : Type :=
| Resolved (img_path : string)
| NotFound (filename : string).

(** The accumulators of the loop over [image_paths], with the log. *)
Record state : Type := {
  image_data : list SlideRecord;
  missing_images : list SlideRecord;
  log : list diag;
}.

Definition initial : state :=
  {| image_data := []; missing_images := []; log := [] |}.

Section Builder.
Variable os : Platform.

(** [img_path.replace('\\', os.sep).replace('/', os.sep)] *)
Definition normalize (img_path : string) : string :=
  replace "/"%char (os_sep os) (replace "\"%char (os_sep os) img_path).

Definition resolve_path (raw : string) : resolution :=
  let img_path := normalize raw in
  if startswith img_path "C:" && negb (os_name_nt os) then
    let filename := basename os img_path in
    match find (path_exists os) (possible_paths filename) with
    | Some possible_path => Resolved possible_path
    | None => NotFound filename
    end
  else Resolved img_path.

(** One turn of the loop. *)
Definition step (age_mapping : gmap string float)
    (st : state) (raw : string) : state :=
  match resolve_path raw with
  | NotFound filename =>
      {| image_data := image_data st;
         missing_images := missing_images st;
         log := log st ++ [CouldNotFindImage filename] |}
  | Resolved img_path =>
      let filename := basename os img_path in
      match extract_subject_id_from_filename filename with
      | None =>
          {| image_data := image_data st;
             missing_images := missing_images st;
             log := log st ++ [CouldNotExtractSubjectId filename] |}
      | Some subject_id =>
          let record :=
            {| path := img_path; subject_id := subject_id;
               age := age_mapping !! subject_id;
               filename := filename |} in
          if path_exists os img_path then
            {| image_data := image_data st ++ [record];
               missing_images := missing_images st;
               log := log st |}
          else
            {| image_data := image_data st;
               missing_images := missing_images st ++ [record];
               log := log st |}
      end
  end.

Definition build_catalog (age_mapping : gmap string float)
    (image_paths : list string) : state :=
  fold_left (step age_mapping) image_paths initial.

(** What one turn of the loop does with its path, on its own. *)
Inductive outcome : Type :=
| Present (record : SlideRecord)
| Missing (record : SlideRecord)
| Skipped (why : diag).

Definition classify (age_mapping : gmap string float) (raw : string)
  : outcome :=
  match resolve_path raw with
  | NotFound filename => Skipped (CouldNotFindImage filename)
  | Resolved img_path =>
      let filename := basename os img_path in
      match extract_subject_id_from_filename filename with
      | None => Skipped (CouldNotExtractSubjectId filename)
      | Some subject_id =>
          let record :=
            {| path := img_path; subject_id := subject_id;
               age := age_mapping !! subject_id;
               filename := filename |} in
          if path_exists os img_path then Present record else Missing record
      end
  end.

Definition present_of (o : outcome) : option SlideRecord :=
  match o with Present r => Some r | _ => None end.

Definition missing_of (o : outcome) : option SlideRecord :=
  match o with Missing r => Some r | _ => None end.

Definition skipped_of (o : outcome) : option diag :=
  match o with Skipped d => Some d | _ => None end.

End Builder.

(** ** The sort *)

(** The key [(x['age'] is None, age or 999, x['subject_id'])]. *)
Definition sort_key (x : SlideRecord) : bool * float * string :=
  match age x with
  | None => (true, 999%float, subject_id x)
  | Some a => (false, a, subject_id x)
  end.

(** [k1 < k2] on such tuples: the first component that differs under
    [==] decides under [<]. *)
Definition key_lt (k1 k2 : bool * float * string) : bool :=
  let '(none1, age1, id1) := k1 in
  let '(none2, age2, id2) := k2 in
  if negb (Bool.eqb none1 none2) then negb none1 && none2
  else if negb (age1 =? age2)%float then (age1 <? age2)%float
  else PyStr.lt id1 id2.

(** [list.sort(key=...)]: a stable sort that compares keys with [<]
    only. When [<] orders the keys (no age is NaN) any such sort returns
    the same list; this one inserts each element before the first one
    that is not below it. With a NaN among the ages the result of
    [list.sort] depends on the comparisons it happens to make, and this
    model is not meant to follow it there. *)
Section Sort.
Context {A K : Type} (key : A -> K) (lt : K -> K -> bool).

Fixpoint insert (x : A) (l : list A) : list A :=
  match l with
  | [] => [x]
  | y :: l' => if lt (key y) (key x) then y :: insert x l' else x :: l
  end.

Fixpoint py_sort (l : list A) : list A :=
  match l with
  | [] => []
  | x :: l' => insert x (py_sort l')
  end.
End Sort.

Definition sort_catalog (image_data : list SlideRecord) : list SlideRecord :=
  py_sort sort_key key_lt image_data.

(** The age of a record, when it has one, is a number. *)
Definition age_known (x : SlideRecord) : Prop :=
  match age x with
  | Some a => PrimFloat.is_nan a = false
  | None => True
  end.

(** The order of the catalog in words: a record with an age comes before
    one without; two with ages go by age, then by subject id; two without
    go by subject id. *)
Definition catalog_le (x y : SlideRecord) : Prop :=
  match age x, age y with
  | Some a, Some b =>
      (a <? b)%float = true
      \/ ((a =? b)%float = true
          /\ String.leb (subject_id x) (subject_id y) = true)
  | Some _, None => True
  | None, Some _ => False
  | None, None => String.leb (subject_id x) (subject_id y) = true
  end.

(** The present catalog, sorted, as the assembler consumes it. *)
Definition present (os : Platform) (age_mapping : gmap string float)
    (image_paths : list string) : list SlideRecord :=
  sort_catalog (image_data (build_catalog os age_mapping image_paths)).

Definition missing (os : Platform) (age_mapping : gmap string float)
    (image_paths : list string) : list SlideRecord :=
  missing_images (build_catalog os age_mapping image_paths).

(** The resolved path of an input entry that enters the present catalog. *)
Definition accepted_path (os : Platform) (raw : string) : option string :=
  match resolve_path os raw with
  | Resolved img_path =>
      match extract_subject_id_from_filename (basename os img_path) with
      | Some _ => if path_exists os img_path then Some img_path else None
      | None => None
      end
  | NotFound _ => None
  end.

(** A disk that holds exactly the listed files. *)
Definition disk_of (files : list string) : string -> bool :=
  fun p => existsb (String.eqb p) files.

Definition windows_path : string :=
  "C:\data\stride_change_MUH1396_fixed_grid.png".

Definition local_name : string := "stride_change_MUH1396_fixed_grid.png".

(** The same file under another drive letter. *)
Definition other_drive_path : string :=
  "D:\data\stride_change_MUH1396_fixed_grid.png".

(** Three subjects, one of them without a row in the metadata. *)
Definition three_ages : gmap string float :=
  <["MUH2" := 10.2%float]> (<["MUH3" := 8.4%float]> ∅).

Definition three_paths : list string :=
  [ "stride_change_MUH1_fixed_grid.png";
    "stride_change_MUH2_fixed_grid.png";
    "stride_change_MUH3_fixed_grid.png" ].

End Catalog.

(* ===================================================================== *)
(** * Layout Engine *)
(* ===================================================================== *)

Module Layout.

(** [int(f)] for a finite float: truncation toward zero. *)
Definition int_of_float (f : float) : Z :=
  match Prim2SF f with
  | S754_finite s m e =>
      let magnitude :=
        if (0 <=? e)%Z then (Z.pos m * 2 ^ e)%Z
        else (Z.pos m / 2 ^ (- e))%Z in
      if s then (- magnitude)%Z else magnitude
  | _ => 0%Z
  end.

(** [pptx.util.Inches]: a length in EMU, [int(inches * 914400)]. *)
Definition Inches (inches : float) : Z :=
  int_of_float (inches * 914400).

(** [int(q)] for the value of a float. *)
Definition py_int (q : Q) : Z :=
  if Qle_bool 0 q then Qfloor q else Qceiling q.

Definition available_height (slide_height : Z) : Z :=
  (slide_height - Inches 1.2 - Inches 0.3)%Z.

Definition available_width (slide_width : Z) : Z :=
  (slide_width - Inches 1.0)%Z.

(** [Inches(0.5) + (available_width - actual_width) / 2]: a float in
    the program. Lengths stay far below 2^52 EMU, where the sum and the
    half of integers are exact, so the rational is that float. *)
Definition horizontal_center (available_width actual_width : Z) : Q :=
  (inject_Z (Inches 0.5)
   + inject_Z (available_width - actual_width) / inject_Z 2)%Q.

Record Picture : Type := {
  image : string;
  left : Z;
  top : Z;
  width : Z;
  height : Z;
}.

(** The document library's [add_picture(path, left, top, height=h)]:
    the width it gives the picture, or [None] when it raises. *)
Definition picture_library : Type := string -> Z -> Z -> Z -> option Z.

(** The body of the [try]: [None] is an exception. *)
Definition place_picture (add_picture : picture_library)
    (slide_width slide_height : Z) (img_path : string) : option Picture :=
  let available_height := available_height slide_height in
  let available_width := available_width slide_width in
  let left := Inches 0.5 in
  let top := Inches 1.2 in
  match add_picture img_path left top available_height with
  | None => None
  | Some actual_width =>
      let pic := {| image := img_path; left := left; top := top;
                    width := actual_width; height := available_height |} in
      if (actual_width <? available_width)%Z then
        Some {| image := img_path;
                left := py_int (horizontal_center available_width actual_width);
                top := top; width := actual_width;
                height := available_height |}
      else Some pic
  end.

(** A library that fits a picture of aspect ratio [num/den] (width over
    height) to the height it is given. *)
Definition aspect_library (num den : Z) : picture_library :=
  fun _ _ _ h => Some (h * num / den)%Z.

End Layout.

(* ===================================================================== *)
(** * Document Assembler *)
(* ===================================================================== *)

Module Assembler.
Import Catalog Layout.

(** The header line: subject, the age when there is one, position. *)
Record Header : Type := {
  header_subject : string;
  header_age : option float;
  slide_number : nat;
  slide_count : nat;
}.

Inductive Body : Type :=
| BodyPicture (pic : Picture)
| BodyErrorText (filename : string).

Record Slide : Type := {
  header : Header;
  body : Body;
}.

Record TitleSlide : Type := {
  title_text : string;
  participants : nat;
  age_range : option (float * float);
}.

Record Presentation : Type := {
  slide_width : Z;
  slide_height : Z;
  title_slide : TitleSlide;
  image_slides : list Slide;
}.

(** The document library: placing a picture, and [prs.save] ([false]
    when it raises). *)
Record Library : Type := {
  add_picture : picture_library;
  save : string -> bool;
}.

(** [min] and [max] of a non-empty list of floats. *)
Definition py_min (x : float) (l : list float) : float :=
  fold_left (fun m y => if (y <? m)%float then y else m) l x.
Definition py_max (x : float) (l : list float) : float :=
  fold_left (fun m y => if (m <? y)%float then y else m) l x.

Definition ages_with_data (image_data : list SlideRecord) : list float :=
  omap age image_data.

Definition make_title_slide (title : string)
    (age_mapping : gmap string float) (image_data : list SlideRecord)
  : TitleSlide :=
  {| title_text := title;
     participants := length image_data;
     age_range :=
       if decide (age_mapping = ∅) then None
       else match ages_with_data image_data with
            | [] => None
            | a :: l => Some (py_min a l, py_max a l)
            end |}.

Section Slides.
Variable lib : Library.
Variables prs_width prs_height : Z.

(** One turn of the loop over [enumerate(image_data, 1)]: the slide
    gets its header, then the picture or, when placing it raises, the
    error text. *)
Definition add_image_slide (n : nat)
    (acc : list Slide * list diag) (entry : nat * SlideRecord)
  : list Slide * list diag :=
  let (slides, log) := acc in
  let (i, img_info) := entry in
  let header :=
    {| header_subject := subject_id img_info;
       header_age := age img_info;
       slide_number := i; slide_count := n |} in
  match place_picture (add_picture lib) prs_width prs_height
                      (path img_info) with
  | Some pic =>
      (slides ++ [{| header := header; body := BodyPicture pic |}], log)
  | None =>
      (slides ++ [{| header := header;
                     body := BodyErrorText (filename img_info) |}],
       log ++ [ErrorAddingImage (filename img_info)])
  end.

(** The slide of one entry, and what its turn prints. *)
Definition slide_of (n : nat) (entry : nat * SlideRecord) : Slide :=
  {| header :=
       {| header_subject := subject_id (snd entry);
          header_age := age (snd entry);
          slide_number := fst entry; slide_count := n |};
     body :=
       match place_picture (add_picture lib) prs_width prs_height
                           (path (snd entry)) with
       | Some pic => BodyPicture pic
       | None => BodyErrorText (filename (snd entry))
       end |}.

Definition printed_of (entry : nat * SlideRecord) : option diag :=
  match place_picture (add_picture lib) prs_width prs_height
                      (path (snd entry)) with
  | Some _ => None
  | None => Some (ErrorAddingImage (filename (snd entry)))
  end.

Definition add_image_slides (image_data : list SlideRecord)
  : list Slide * list diag :=
  fold_left (add_image_slide (length image_data))
            (combine (seq 1 (length image_data)) image_data)
            ([], []).
End Slides.

(** What a run leaves behind: the returned string, the document when
    it was saved, and what was printed. *)
Record Run : Type := {
  returned : string;
  document : option Presentation;
  printed : list diag;
}.

(** The diagnostics that [load_subject_metadata] prints. *)
Definition about_metadata (d : diag) : bool :=
  match d with
  | WarnNoAgeColumn | LoadedAgeData _
  | MetadataFileNotFound _ | ErrorLoadingMetadata => true
  | _ => false
  end.

Section Pipeline.
Variable os : Platform.
Variable py : Metadata.Builtins.
Variable read_csv : string -> read_result Metadata.DataFrame.
Variable lib : Library.

(** [age_mapping] as [create_powerpoint_from_images] obtains it. *)
Definition load_ages (metadata_path : option string)
  : gmap string float * list diag :=
  match metadata_path with
  | Some p =>
      if PyStr.nonempty p && path_exists os p
      then Metadata.load_subject_metadata py p (read_csv p)
      else (∅, [])
  | None => (∅, [])
  end.

Definition create_powerpoint_from_images
    (image_paths : list string) (output_filename : string)
    (metadata_path : option string) (title : string) : Run :=
  let prs_width := Inches 13.333 in
  let prs_height := Inches 7.5 in
  let (age_mapping, log0) := load_ages metadata_path in
  let st := build_catalog os age_mapping image_paths in
  let log1 :=
    log0 ++ log st ++ [FoundValidImages (length (image_data st))]
    ++ match missing_images st with
       | [] => []
       | _ => [ImagesNotFoundOnDisk (length (missing_images st))
                 (map filename (firstn 5 (missing_images st)))]
       end in
  match image_data st with
  | [] => {| returned := ""; document := None;
             printed := log1 ++ [NoValidImagesFound] |}
  | _ =>
      let image_data := sort_catalog (image_data st) in
      let (slides, log2) :=
        add_image_slides lib prs_width prs_height image_data in
      let prs :=
        {| slide_width := prs_width; slide_height := prs_height;
           title_slide := make_title_slide title age_mapping image_data;
           image_slides := slides |} in
      if save lib output_filename then
        {| returned := output_filename; document := Some prs;
           printed := log1 ++ log2
             ++ [PresentationSaved output_filename (length image_data)] |}
      else
        {| returned := ""; document := None;
           printed := log1 ++ log2 ++ [ErrorSavingPowerPoint] |}
  end.
(** The metadata cannot be had: no path given, no file there, or the
    read raises. *)
Definition metadata_unavailable (metadata_path : option string) : Prop :=
  match metadata_path with
  | None => True
  | Some p =>
      PyStr.nonempty p && path_exists os p = false
      \/ read_csv p = ReadFileNotFound
      \/ read_csv p = ReadOtherError
  end.

End Pipeline.

(** A library on which one picture cannot be placed. *)
Definition failing_on (bad : string) : Library :=
  {| add_picture := fun img_path _ _ h =>
       if String.eqb img_path bad then None else Some h;
     save := fun _ => true |}.

Definition no_csv : string -> read_result Metadata.DataFrame :=
  fun _ => ReadFileNotFound.

End Assembler.

(* ===================================================================== *)
(** * Slashes *)
(* ===================================================================== *)

Module Slashes.

(** [s] holds a slash: the test [posix_basename] makes on what follows. *)
Definition has_slash (s : string) : bool :=
  existsb (Ascii.eqb "/"%char) (list_ascii_of_string s).

End Slashes.

(* ===================================================================== *)
(** * Directory scan and entry point *)
(* ===================================================================== *)

Module Main.
Import Catalog Assembler.

(** What [main] and [find_images_in_directory] print, besides what the
    functions they call print (the banner and the hints are left out). *)
Inductive event : Type :=
| Printed (d : diag)
| LoadingImagePathsFrom (file_path : string)
| SearchingCurrentDirectory
| DirectoryNotFound (directory : string)
| FoundImagesIn (n : nat) (directory : string)
| ErrorSearchingDirectory
| NoImagePathsFound
| Success (result : string)
| FailedToCreate.

(** The files the entry point reads: the text of a file, and
    [list(Path(directory).rglob(pattern))] with each path turned into a
    string ([None] when the walk raises). *)
Record Files : Type := {
  read_text : string -> read_result string;
  rglob : string -> string -> option (list string);
}.

Definition default_pattern : string := "*stride_change*fixed_grid.png".

Section EntryPoint.
Variable os : Platform.
Variable py : Metadata.Builtins.
Variable read_csv : string -> read_result Metadata.DataFrame.
Variable files : Files.
Variable lib : Library.

Definition find_images_in_directory (directory pattern : string)
  : list string * list event :=
  if path_exists os directory then
    match rglob files directory pattern with
    | Some image_paths_str =>
        (image_paths_str, [FoundImagesIn (length image_paths_str) directory])
    | None => ([], [ErrorSearchingDirectory])
    end
  else ([], [DirectoryNotFound directory]).

Definition image_paths_file : string := "paste.txt".
Definition metadata_file : string := "muh_metadata.csv".
Definition output_file : string := "stride_change_analysis_by_age.pptx".
Definition presentation_title : string :=
  "Motor Learning: Stride Change After Success vs Failure".

(** The image paths [main] works with, and what choosing them prints. *)
Definition main_image_paths : list string * list event :=
  if path_exists os image_paths_file then
    let (image_paths, log) :=
      Paths.parse_image_paths_from_file image_paths_file
        (read_text files image_paths_file) in
    (image_paths,
     LoadingImagePathsFrom image_paths_file :: map Printed log)
  else
    let (image_paths, log) :=
      find_images_in_directory "." default_pattern in
    (image_paths, SearchingCurrentDirectory :: log).

(** [main]: the run of [create_powerpoint_from_images] when there is
    one, and everything printed. *)
Definition main : option Run * list event :=
  let (image_paths, log) := main_image_paths in
  match image_paths with
  | [] => (None, log ++ [NoImagePathsFound])
  | _ =>
      let run :=
        create_powerpoint_from_images os py read_csv lib image_paths
          output_file (Some metadata_file) presentation_title in
      (Some run,
       log ++ map Printed (printed run)
       ++ [if PyStr.nonempty (returned run)
           then Success (returned run) else FailedToCreate])
  end.

End EntryPoint.

(** No path file, a scan that finds the three sample images. *)
Definition scan_three : Files :=
  {| read_text := fun _ => ReadFileNotFound;
     rglob := fun _ _ => Some three_paths |}.

(** A path file next to the images, and a scan that would raise. *)
Definition paste_three : Files :=
  {| read_text := fun _ =>
       ReadOk ("stride_change_MUH2_fixed_grid.png"
               +:+ String Paths.newline "stride_change_MUH3_fixed_grid.png");
     rglob := fun _ _ => None |}.

End Main.

(* ===================================================================== *)
(** * Properties of the string operations *)
(* ===================================================================== *)

Module PyStrFacts.
Import PyStr.

Lemma app_nil_l (s : string) : "" +:+ s = s.
Proof. reflexivity. Qed.

Lemma app_cons (c : ascii) (s t : string) :
  String c s +:+ t = String c (s +:+ t).
Proof. reflexivity. Qed.

Lemma app_nil_r (s : string) : s +:+ "" = s.
Proof.
  induction s as [|c s IH]; [reflexivity|]. now rewrite app_cons, IH.
Qed.

Lemma app_assoc (a b c : string) : (a +:+ b) +:+ c = a +:+ b +:+ c.
Proof.
  induction a as [|x a IH]; [reflexivity|]. now rewrite !app_cons, IH.
Qed.

Lemma length_app (a b : string) :
  String.length (a +:+ b) = String.length a + String.length b.
Proof.
  induction a as [|x a IH]; [reflexivity|].
  rewrite app_cons. simpl. now rewrite IH.
Qed.

Lemma strip_prefix_app (p s : string) : strip_prefix p (p +:+ s) = Some s.
Proof.
  induction p as [|a p IH]; [reflexivity|].
  rewrite app_cons. simpl. now rewrite Ascii.eqb_refl.
Qed.

Lemma strip_prefix_Some (p s r : string) :
  strip_prefix p s = Some r -> s = p +:+ r.
Proof.
  revert s; induction p as [|a p IH]; intros s H; simpl in H.
  - now inversion H.
  - destruct s as [|b s]; [discriminate|].
    destruct (Ascii.eqb a b) eqn:E; [|discriminate].
    apply Ascii.eqb_eq in E; subst b. now rewrite app_cons, (IH _ H).
Qed.

Lemma startswith_app (p s : string) : startswith (p +:+ s) p = true.
Proof. unfold startswith. now rewrite strip_prefix_app. Qed.

Lemma startswith_true (s p : string) :
  startswith s p = true -> exists r, s = p +:+ r.
Proof.
  unfold startswith. destruct (strip_prefix p s) as [r|] eqn:E; [|discriminate].
  intros _. exists r. now apply strip_prefix_Some.
Qed.

Lemma span_spec (f : ascii -> bool) (s a b : string) :
  span f s = (a, b) -> s = a +:+ b /\ all f a = true.
Proof.
  revert a b; induction s as [|c s IH]; intros a b H; simpl in H.
  - inversion H; subst. split; reflexivity.
  - destruct (f c) eqn:Fc.
    + destruct (span f s) as [a' b'] eqn:E. inversion H; subst.
      destruct (IH _ _ eq_refl) as [-> Ha].
      rewrite app_cons. simpl. rewrite Fc, Ha. split; reflexivity.
    + inversion H; subst. split; reflexivity.
Qed.

(** A run of [f]-characters followed by a character outside [f] is
    exactly what [span] takes. *)
Lemma span_app (f : ascii -> bool) (a : string) (c : ascii) (r : string) :
  all f a = true -> f c = false ->
  span f (a +:+ String c r) = (a, String c r).
Proof.
  intros Ha Hc. induction a as [|x a IH].
  - rewrite app_nil_l. simpl. now rewrite Hc.
  - simpl in Ha. apply andb_true_iff in Ha as [Hx Ha].
    rewrite app_cons. simpl. rewrite Hx, (IH Ha). reflexivity.
Qed.

Lemma all_app (f : ascii -> bool) (a b : string) :
  all f (a +:+ b) = all f a && all f b.
Proof.
  induction a as [|x a IH]; [reflexivity|].
  rewrite app_cons. simpl. now rewrite IH, andb_assoc.
Qed.

End PyStrFacts.

(* ===================================================================== *)
(** * Properties of the Identifier Extractor *)
(* ===================================================================== *)

Module ExtractorFacts.
Import PyStr PyStrFacts Extractor.

Lemma digit_not_upper (c : ascii) : is_digit c = true -> is_upper c = false.
Proof.
  unfold is_digit, is_upper. intros H.
  apply andb_true_iff in H as [_ H]. apply N.leb_le in H.
  apply andb_false_iff. left. apply N.leb_gt. lia.
Qed.

(** The pattern matches at the head of a string that starts with the
    prefix, a well-shaped token and the suffix, and captures the token. *)
Lemma match_here_complete (tok post : string) :
  token_shape tok ->
  match_here (prefix_lit +:+ tok +:+ suffix_lit +:+ post) = Some tok.
Proof.
  intros (letters & digits & -> & Hl & Hd & Ul & Dd).
  unfold match_here. rewrite strip_prefix_app.
  destruct digits as [|d digits]; [discriminate|].
  simpl in Dd. apply andb_true_iff in Dd as [Dd0 Dd].
  rewrite app_assoc, app_cons.
  rewrite (span_app is_upper letters d _ Ul (digit_not_upper d Dd0)).
  rewrite <- app_cons.
  change (suffix_lit +:+ post)
    with (String "_" ("fixed_grid.png" +:+ post)).
  rewrite (span_app is_digit (String d digits) "_"%char).
  - rewrite Hl. reflexivity.
  - simpl. now rewrite Dd0, Dd.
  - reflexivity.
Qed.

Lemma match_here_sound (s tok : string) :
  match_here s = Some tok ->
  exists post, s = prefix_lit +:+ tok +:+ suffix_lit +:+ post
               /\ token_shape tok.
Proof.
  unfold match_here.
  destruct (strip_prefix prefix_lit s) as [r1|] eqn:E1; [|discriminate].
  destruct (span is_upper r1) as [letters r2] eqn:E2.
  destruct (span is_digit r2) as [digits r3] eqn:E3.
  destruct (nonempty letters && nonempty digits && startswith r3 suffix_lit)
    eqn:E4; [|discriminate].
  intros H; inversion H; subst tok; clear H.
  apply andb_true_iff in E4 as [E4 Hs].
  apply andb_true_iff in E4 as [Hl Hd].
  apply strip_prefix_Some in E1.
  apply span_spec in E2 as [-> Ul]. apply span_spec in E3 as [-> Dd].
  apply startswith_true in Hs as [post ->].
  exists post. split.
  - rewrite E1, !app_assoc. reflexivity.
  - exists letters, digits. repeat split; assumption.
Qed.

Lemma re_search_unfold (s : string) :
  re_search s =
  match match_here s with
  | Some tok => Some tok
  | None => match s with
            | EmptyString => None
            | String _ s' => re_search s'
            end
  end.
Proof. destruct s; reflexivity. Qed.

Lemma re_search_Some (s tok : string) :
  re_search s = Some tok ->
  exists pre post, convention_at pre tok post s.
Proof.
  induction s as [|c s IH]; rewrite re_search_unfold.
  - destruct (match_here "") as [t|] eqn:E; [|discriminate].
    intros H; inversion H; subst t.
    apply match_here_sound in E as (post & E & Sh).
    exists "", post. split; assumption.
  - destruct (match_here (String c s)) as [t|] eqn:E.
    + intros H; inversion H; subst t.
      apply match_here_sound in E as (post & E & Sh).
      exists "", post. split; assumption.
    + intros H. destruct (IH H) as (pre & post & -> & Sh).
      exists (String c pre), post. split; [reflexivity | assumption].
Qed.

(** Where the convention occurs and nowhere before, the search returns
    the token of that occurrence. *)
Lemma re_search_leftmost (pre tok post s : string) :
  convention_at pre tok post s ->
  (forall pre' tok' post',
      convention_at pre' tok' post' s ->
      String.length pre <= String.length pre') ->
  re_search s = Some tok.
Proof.
  revert s; induction pre as [|c pre IH]; intros s [-> Sh] Hmin.
  - rewrite app_nil_l, re_search_unfold.
    now rewrite (match_here_complete tok post Sh).
  - rewrite app_cons, re_search_unfold.
    destruct (match_here (String c (pre +:+ prefix_lit +:+ tok +:+ suffix_lit +:+ post)))
      as [t|] eqn:E.
    + apply match_here_sound in E as (post' & E & Sh').
      specialize (Hmin "" t post' (conj E Sh')). simpl in Hmin. lia.
    + apply IH; [split; [reflexivity | assumption]|].
      intros pre' tok' post' [E' Sh'].
      specialize (Hmin (String c pre') tok' post').
      simpl in Hmin. apply le_S_n, Hmin. split; [|assumption].
      now rewrite app_cons, E'.
Qed.

(** C4. A filename carrying the convention (literal prefix, a token of
    uppercase letters then digits, literal suffix ending in [.png])
    yields the token of its first occurrence, unchanged; a filename that
    carries it nowhere yields no match. The two filenames of the
    documentation behave as documented. *)
Theorem extract_subject_id_spec :
  (forall filename pre tok post,
      convention_at pre tok post filename ->
      (forall pre' tok' post',
          convention_at pre' tok' post' filename ->
          String.length pre <= String.length pre') ->
      extract_subject_id_from_filename filename = Some tok)
  /\ (forall filename,
      (forall pre tok post, ~ convention_at pre tok post filename) ->
      extract_subject_id_from_filename filename = None)
  /\ extract_subject_id_from_filename "stride_change_MUH1396_fixed_grid.png"
     = Some "MUH1396"
  /\ extract_subject_id_from_filename "random.png" = None.
Proof.
  split; [|split; [|split]].
  - intros filename pre tok post H Hmin.
    exact (re_search_leftmost pre tok post filename H Hmin).
  - intros filename Hno. unfold extract_subject_id_from_filename.
    destruct (re_search filename) as [tok|] eqn:E; [|reflexivity].
    destruct (re_search_Some _ _ E) as (pre & post & H).
    destruct (Hno _ _ _ H).
  - reflexivity.
  - reflexivity.
Qed.

(** A witness of C4: the documented filename, whose only occurrence of
    the convention starts the string. *)
Lemma extract_subject_id_spec_witness :
  extract_subject_id_from_filename "stride_change_MUH1069_fixed_grid.png"
  = Some "MUH1069".
Proof.
  refine (proj1 extract_subject_id_spec
            "stride_change_MUH1069_fixed_grid.png" "" "MUH1069" "" _ _).
  - split; [reflexivity|].
    exists "MUH", "1069". repeat split; reflexivity.
  - intros pre' tok' post' _. simpl. lia.
Defined.

End ExtractorFacts.

(* ===================================================================== *)
(** * Properties of the image path list *)
(* ===================================================================== *)

Module PathsFacts.
Import PyStr PyStrFacts Paths.

Lemma split_not_nil (sep : ascii) (s : string) : split sep s <> [].
Proof.
  destruct s as [|c s]; simpl; [discriminate|].
  destruct (Ascii.eqb c sep); [discriminate|].
  destruct (split sep s); discriminate.
Qed.

Lemma split_from_split (sep : ascii) (s acc : string) :
  split_from sep acc s =
  match split sep s with
  | h :: t => (acc +:+ h) :: t
  | [] => [acc]
  end.
Proof.
  revert acc; induction s as [|c s IH]; intros acc; simpl.
  - now rewrite app_nil_r.
  - destruct (Ascii.eqb c sep).
    + rewrite app_nil_r, IH.
      pose proof (split_not_nil sep s) as Hne.
      destruct (split sep s) as [|h t]; [contradiction | reflexivity].
    + rewrite IH. destruct (split sep s) as [|h t].
      * reflexivity.
      * now rewrite app_assoc.
Qed.

Lemma split_from_nil (sep : ascii) (s : string) :
  split_from sep "" s = split sep s.
Proof.
  rewrite split_from_split.
  pose proof (split_not_nil sep s) as Hne.
  destruct (split sep s) as [|h t]; [contradiction | reflexivity].
Qed.

Lemma lstrip_app_all (f : ascii -> bool) (w x : string) :
  all f w = true -> lstrip f (w +:+ x) = lstrip f x.
Proof.
  induction w as [|c w IH]; intros H; [reflexivity|].
  simpl in H. apply andb_true_iff in H as [Hc Hw].
  rewrite app_cons. simpl. rewrite Hc. auto.
Qed.

Lemma lstrip_app_not_all (f : ascii -> bool) (x y : string) :
  all f x = false -> lstrip f (x +:+ y) = lstrip f x +:+ y.
Proof.
  induction x as [|c x IH]; intros H; [discriminate|].
  simpl in H. rewrite app_cons. simpl.
  destruct (f c); [apply IH; exact H | reflexivity].
Qed.

Lemma lstrip_all (f : ascii -> bool) (w : string) :
  all f w = true -> lstrip f w = "".
Proof.
  intros H. rewrite <- (app_nil_r w). now rewrite lstrip_app_all.
Qed.

Lemma rstrip_snoc (f : ascii -> bool) (y : string) (c : ascii) :
  f c = true -> rstrip f (y +:+ String c "") = rstrip f y.
Proof.
  intros Hc. induction y as [|d y IH].
  - rewrite app_nil_l. simpl. now rewrite Hc.
  - rewrite app_cons. simpl. now rewrite IH.
Qed.

Lemma rstrip_empty_all (f : ascii -> bool) (s : string) :
  rstrip f s = "" -> all f s = true.
Proof.
  induction s as [|c s IH]; [reflexivity|]. simpl.
  destruct (rstrip f s) eqn:E; [|discriminate].
  destruct (f c); [intros _; now apply IH | discriminate].
Qed.

Lemma strip_snoc (f : ascii -> bool) (x : string) (c : ascii) :
  f c = true -> strip f (x +:+ String c "") = strip f x.
Proof.
  intros Hc. unfold strip. destruct (all f x) eqn:Hx.
  - rewrite lstrip_app_all by exact Hx. rewrite (lstrip_all f x Hx).
    simpl. now rewrite Hc.
  - rewrite lstrip_app_not_all by exact Hx. now apply rstrip_snoc.
Qed.

Lemma strip_app_all (f : ascii -> bool) (w x : string) :
  all f w = true -> strip f (w +:+ x) = strip f x.
Proof. intros H. unfold strip. now rewrite lstrip_app_all. Qed.

Lemma kept_cons (line : string) (lines : list string) :
  kept_lines (line :: lines) =
  (if is_png_path (clean_line line) then [clean_line line] else [])
  ++ kept_lines lines.
Proof.
  unfold kept_lines. simpl.
  destruct (is_png_path (clean_line line)); reflexivity.
Qed.

Lemma kept_blank (w : string) (lines : list string) :
  all is_space w = true -> kept_lines (w :: lines) = kept_lines lines.
Proof.
  intros H. rewrite kept_cons. unfold clean_line, strip at 2.
  rewrite (lstrip_all is_space w H). reflexivity.
Qed.

Lemma clean_snoc (x : string) (c : ascii) :
  is_space c = true -> clean_line (x +:+ String c "") = clean_line x.
Proof. intros H. unfold clean_line. now rewrite strip_snoc. Qed.

Lemma clean_app_all (w x : string) :
  all is_space w = true -> clean_line (w +:+ x) = clean_line x.
Proof. intros H. unfold clean_line. now rewrite strip_app_all. Qed.

(** Trailing white space, new lines included, adds no kept line. *)
Lemma kept_trailing_space (w acc : string) :
  all is_space w = true ->
  kept_lines (split_from newline acc w) = kept_lines [acc].
Proof.
  revert acc; induction w as [|c w IH]; intros acc H; [reflexivity|].
  simpl in H. apply andb_true_iff in H as [Hc Hw]. simpl.
  destruct (Ascii.eqb c newline).
  - rewrite kept_cons, (IH "" Hw), (kept_cons acc []).
    rewrite (kept_blank "" []) by reflexivity. reflexivity.
  - rewrite (IH _ Hw), !(kept_cons _ []), clean_snoc by exact Hc.
    reflexivity.
Qed.

(** Leading white space on the line being read changes nothing. *)
Lemma kept_leading_space (w : string) (s x : string) :
  all is_space w = true ->
  kept_lines (split_from newline (w +:+ x) s)
  = kept_lines (split_from newline x s).
Proof.
  intros Hw. revert x; induction s as [|c s IH]; intros x; simpl.
  - rewrite !(kept_cons _ []), clean_app_all by exact Hw. reflexivity.
  - destruct (Ascii.eqb c newline).
    + rewrite !kept_cons, clean_app_all by exact Hw. reflexivity.
    + rewrite app_assoc. apply IH.
Qed.

Lemma kept_rstrip (s acc : string) :
  kept_lines (split_from newline acc (rstrip is_space s))
  = kept_lines (split_from newline acc s).
Proof.
  revert acc; induction s as [|c s IH]; intros acc; [reflexivity|].
  simpl rstrip. destruct (rstrip is_space s) as [|d r] eqn:E.
  - pose proof (rstrip_empty_all _ _ E) as Hs.
    destruct (is_space c) eqn:Hc.
    + symmetry. apply (kept_trailing_space (String c s)).
      simpl. now rewrite Hc, Hs.
    + assert (Hn : Ascii.eqb c newline = false).
      { destruct (Ascii.eqb c newline) eqn:En; [|reflexivity].
        apply Ascii.eqb_eq in En; subst c. discriminate. }
      simpl. rewrite Hn. simpl.
      symmetry. now apply kept_trailing_space.
  - rewrite <- E in IH |- *. simpl. destruct (Ascii.eqb c newline).
    + now rewrite !kept_cons, IH.
    + apply IH.
Qed.

Lemma kept_lstrip (s acc : string) :
  all is_space acc = true ->
  kept_lines (split_from newline acc (lstrip is_space s))
  = kept_lines (split_from newline acc s).
Proof.
  intros Hacc. induction s as [|c s IH]; [reflexivity|].
  simpl lstrip. destruct (is_space c) eqn:Hc; [|reflexivity].
  rewrite IH.
  assert (Hdrop : kept_lines (split_from newline acc s)
                  = kept_lines (split_from newline "" s)).
  { rewrite <- (app_nil_r acc). now apply kept_leading_space. }
  simpl. destruct (Ascii.eqb c newline).
  - now rewrite kept_blank by exact Hacc.
  - rewrite Hdrop. symmetry.
    rewrite <- (app_nil_r (acc +:+ String c "")).
    apply kept_leading_space.
    rewrite all_app, Hacc. simpl. now rewrite Hc.
Qed.

(** Stripping the whole content first does not change which lines are
    kept. *)
Lemma kept_strip (content : string) :
  kept_lines (split newline (strip is_space content))
  = kept_lines (split newline content).
Proof.
  rewrite <- !split_from_nil. unfold strip.
  rewrite kept_rstrip. now apply kept_lstrip.
Qed.

Lemma loop_is_kept (lines init : list string) :
  fold_left
    (fun paths line =>
       let path := clean_line line in
       if is_png_path path then paths ++ [path] else paths)
    lines init
  = init ++ kept_lines lines.
Proof.
  revert init; induction lines as [|line lines IH]; intros init.
  - simpl. unfold kept_lines. simpl. now rewrite List.app_nil_r.
  - simpl fold_left. rewrite IH, kept_cons.
    destruct (is_png_path (clean_line line)).
    + now rewrite <- List.app_assoc.
    + reflexivity.
Qed.

(** C10. The paths returned are, in the order of the file, the lines
    that are non-empty and end in [.png] once white space and then double
    quotes are stripped from both ends (each returned in that stripped
    form); all other lines are dropped; a file that is missing or cannot
    be read gives the empty list. *)
Theorem parse_image_paths_from_file_spec (file_path : string) :
  (forall content,
      fst (parse_image_paths_from_file file_path (ReadOk content))
      = png_lines_of content)
  /\ fst (parse_image_paths_from_file file_path ReadFileNotFound) = []
  /\ fst (parse_image_paths_from_file file_path ReadOtherError) = [].
Proof.
  split; [|split; reflexivity].
  intros content. unfold parse_image_paths_from_file. simpl fst.
  rewrite loop_is_kept. simpl. unfold png_lines_of, file_lines.
  apply kept_strip.
Qed.

(** A witness of C10: the sample file keeps its two image paths. *)
Lemma parse_image_paths_from_file_spec_witness :
  fst (parse_image_paths_from_file "paste.txt" (ReadOk sample_content))
  = [ "C:\plots\stride_change_MUH1396_fixed_grid.png";
      "stride_change_MUH1069_fixed_grid.png" ].
Proof.
  rewrite (proj1 (parse_image_paths_from_file_spec "paste.txt")
             sample_content).
  vm_compute. reflexivity.
Defined.

End PathsFacts.

(* ===================================================================== *)
(** * Properties of the conversion of integers to floats *)
(* ===================================================================== *)

Module FloatConversionFacts.
Import Metadata.

Lemma shr_1_nonneg (mrs : shr_record) :
  (0 <= shr_m mrs)%Z -> (0 <= shr_m (shr_1 mrs))%Z.
Proof.
  destruct mrs as [m r s]. simpl.
  destruct m as [|[p|p|]|[p|p|]]; simpl; lia.
Qed.

Lemma iter_shr_1_nonneg (n : positive) (mrs : shr_record) :
  (0 <= shr_m mrs)%Z -> (0 <= shr_m (SpecFloat.iter_pos shr_1 n mrs))%Z.
Proof.
  revert mrs; induction n as [n IH|n IH|]; intros mrs H; simpl.
  - apply IH, IH. now apply shr_1_nonneg.
  - now apply IH, IH.
  - now apply shr_1_nonneg.
Qed.

Lemma shr_fexp_nonneg (m e : Z) (l : location) :
  (0 <= m)%Z -> (0 <= shr_m (fst (shr_fexp prec emax m e l)))%Z.
Proof.
  intros H. unfold shr_fexp, shr.
  assert (H0 : (0 <= shr_m (shr_record_of_loc m l))%Z)
    by (destruct l as [|[| |]]; exact H).
  destruct (fexp prec emax (Zdigits2 m + e) - e)%Z; simpl; try exact H0.
  now apply iter_shr_1_nonneg.
Qed.

Lemma round_nearest_even_nonneg (m : Z) (l : location) :
  (0 <= m)%Z -> (0 <= round_nearest_even m l)%Z.
Proof.
  intros H. destruct l as [|[| |]]; simpl; try lia.
  destruct (Z.even m); lia.
Qed.

(** Rounding a mantissa that is not negative never gives NaN. *)
Lemma binary_round_aux_not_nan (sx : bool) (mx ex : Z) (lx : location) :
  (0 <= mx)%Z -> binary_round_aux prec emax sx mx ex lx <> S754_nan.
Proof.
  intros H. unfold binary_round_aux.
  pose proof (shr_fexp_nonneg mx ex lx H) as H1.
  destruct (shr_fexp prec emax mx ex lx) as [mrs' e']. simpl in H1.
  pose proof (shr_fexp_nonneg _ e' loc_Exact
                (round_nearest_even_nonneg _ (loc_of_shr_record mrs') H1))
    as H2.
  destruct (shr_fexp prec emax
              (round_nearest_even (shr_m mrs') (loc_of_shr_record mrs'))
              e' loc_Exact) as [mrs'' e'']. simpl in H2.
  destruct (shr_m mrs'') as [|m|m]; [discriminate | | lia].
  destruct (e'' <=? emax - prec)%Z; discriminate.
Qed.

Lemma binary_round_not_nan (sx : bool) (mx : positive) (ex : Z) :
  binary_round prec emax sx mx ex <> S754_nan.
Proof.
  unfold binary_round.
  destruct (shl_align mx ex (fexp prec emax (Z.pos (digits2_pos mx) + ex)))
    as [mz ez].
  apply binary_round_aux_not_nan. lia.
Qed.

Lemma binary_normalize_not_nan (m e : Z) (szero : bool) :
  binary_normalize prec emax m e szero <> S754_nan.
Proof.
  destruct m; simpl; [discriminate | |]; apply binary_round_not_nan.
Qed.

Lemma SFeqb_same (x : spec_float) : x <> S754_nan -> SFeqb x x = true.
Proof.
  unfold SFeqb. destruct x as [s|[|]| |[|] m e]; simpl; try congruence;
    intros _; rewrite Z.compare_refl, Pos.compare_cont_refl; reflexivity.
Qed.

Lemma is_nan_Prim2SF (f : float) :
  Prim2SF f <> S754_nan -> PrimFloat.is_nan f = false.
Proof.
  intros H. unfold PrimFloat.is_nan. rewrite FloatAxioms.eqb_spec.
  now rewrite SFeqb_same.
Qed.

Lemma ldexp_of_uint63_not_nan (n : Uint63.int) (e : Z) :
  Prim2SF (Z.ldexp (of_uint63 n) e) <> S754_nan.
Proof.
  rewrite Z_ldexp_spec, of_uint63_spec.
  pose proof (binary_normalize_not_nan (Uint63.to_Z n) 0 false) as Hn.
  destruct (binary_normalize prec emax (Uint63.to_Z n) 0 false)
    as [s0|s0| |s0 m0 e0]; simpl; try discriminate; [congruence|].
  apply binary_round_not_nan.
Qed.

Lemma SF2Prim_not_nan (x : spec_float) :
  x <> S754_nan -> PrimFloat.is_nan (SF2Prim x) = false.
Proof.
  destruct x as [[|]|[|]| |s m e]; try reflexivity; [congruence|].
  intros _. unfold SF2Prim.
  pose proof (ldexp_of_uint63_not_nan (Uint63.of_Z (Z.pos m)) e) as H.
  destruct s; apply is_nan_Prim2SF; [|exact H].
  rewrite opp_spec. intros E. apply H.
  destruct (Prim2SF (Z.ldexp (of_uint63 (Uint63.of_Z (Z.pos m))) e));
    simpl in E; try discriminate; reflexivity.
Qed.

(** [float(z)] is a number. *)
Lemma float_of_Z_not_nan (z : Z) : PrimFloat.is_nan (float_of_Z z) = false.
Proof. apply SF2Prim_not_nan, binary_normalize_not_nan. Qed.

(** Values of [float(z)]: exact below 2^53, the nearest float with ties
    to even above, the whole int64 range included. *)
Lemma float_of_Z_samples :
  float_of_Z 144 = 144%float
  /\ float_of_Z (-7) = (-7)%float
  /\ float_of_Z (2 ^ 53 + 1) = 9007199254740992%float
  /\ float_of_Z (2 ^ 53 + 3) = 9007199254740996%float
  /\ float_of_Z (2 ^ 63 - 1) = 9223372036854775808%float
  /\ float_of_Z (- 2 ^ 63) = (-9223372036854775808)%float.
Proof. repeat split; vm_compute; reflexivity. Qed.

End FloatConversionFacts.

(* ===================================================================== *)
(** * Properties of the Metadata Resolver *)
(* ===================================================================== *)

Module MetadataFacts.
Import Metadata MetadataSamples FloatConversionFacts.

Section Lookups.
Variable py : Builtins.

Lemma astype_float (d : dtype) (v : cell) :
  py_float py (astype d v) = py_float py v.
Proof. destruct d, v; reflexivity. Qed.

Lemma astype_notna (d : dtype) (v : cell) : notna (astype d v) = notna v.
Proof.
  destruct d, v; try reflexivity. simpl. now rewrite float_of_Z_not_nan.
Qed.

Lemma astype_div12 (d : dtype) (v : cell) : div12 (astype d v) = div12 v.
Proof. destruct d, v; reflexivity. Qed.

Lemma div12_float (v w : cell) :
  div12 v = Some w -> exists x, w = CFloat x.
Proof. destruct v; simpl; intros H; inversion H; eauto. Qed.

Lemma div12_not_text (v : cell) :
  (forall s, v <> CStr s) -> exists x, div12 v = Some (CFloat x).
Proof. destruct v; simpl; intros H; eauto. now destruct (H s). Qed.

(** Reading a Series by name. *)
Lemma row_get_named (name : string) (g : string -> cell)
    (cols : list string) :
  row_get name (map (fun n => (n, g n)) cols)
  = if existsb (String.eqb name) cols then Some (g name) else None.
Proof.
  induction cols as [|c cols IH]; simpl; [reflexivity|].
  rewrite String.eqb_sym.
  destruct (String.eqb name c) eqn:E; simpl; [|exact IH].
  apply String.eqb_eq in E. now subst.
Qed.

Lemma has_column_set (name : string) (values : list cell) (df : DataFrame) :
  has_column name (set_column name values df) = true.
Proof.
  unfold set_column, has_column. simpl.
  destruct (existsb (String.eqb name) (columns df)) eqn:E; [exact E|].
  rewrite existsb_app, E. simpl. now rewrite String.eqb_refl.
Qed.

Lemma has_column_set_other (name other : string) (values : list cell)
    (df : DataFrame) :
  String.eqb other name = false ->
  has_column other (set_column name values df) = has_column other df.
Proof.
  intros Hne. unfold set_column, has_column. simpl.
  destruct (existsb (String.eqb name) (columns df)); [reflexivity|].
  rewrite existsb_app. simpl. rewrite Hne. now rewrite !orb_false_r.
Qed.

Lemma value_at_other (metadata_df : DataFrame) (name other : string)
    (e : row * cell) :
  String.eqb name other = false ->
  value_at metadata_df other (with_value name e)
  = value_at metadata_df other (fst e).
Proof.
  intros Hne. unfold value_at, cell_of, with_value. simpl.
  now rewrite Hne.
Qed.

(** One turn of the loop, in terms of the table's row and its age. *)
Lemma add_row_yielded (metadata_df : DataFrame) (m : gmap string float)
    (e : row * cell) :
  has_column "age_years" metadata_df = true ->
  add_row py m (series metadata_df (with_value "age_years" e))
  = if has_column "ID" metadata_df then
      if notna (snd e) then
        match py_float py (snd e) with
        | Some f => Some (<[subject_key py metadata_df (fst e) := f]> m)
        | None => None
        end
      else Some m
    else None.
Proof.
  intros Hage. unfold add_row, series.
  rewrite (row_get_named "ID"
             (fun name => value_at metadata_df name
                            (with_value "age_years" e))).
  fold (has_column "ID" metadata_df).
  destruct (has_column "ID" metadata_df); [|reflexivity].
  rewrite (row_get_named "age_years"
             (fun name => value_at metadata_df name
                            (with_value "age_years" e))).
  fold (has_column "age_years" metadata_df). rewrite Hage.
  rewrite (value_at_other metadata_df "age_years" "ID" e eq_refl).
  fold (subject_key py metadata_df (fst e)).
  unfold value_at, cell_of, with_value. simpl row_get.
  now rewrite !astype_notna, !astype_float.
Qed.

(** The mapping after the loop, key by key: the last row that binds the
    key decides; a key that no row binds keeps what it had. *)
Lemma build_mapping_lookup (metadata_df : DataFrame)
    (entries : list (row * cell)) (m m' : gmap string float)
    (k : string) (f : float) :
  has_column "age_years" metadata_df = true ->
  build_mapping py m (map (series metadata_df) (map (with_value "age_years") entries))
  = Some m' ->
  (m' !! k = Some f
   <-> (exists earlier e later,
          entries = earlier ++ e :: later
          /\ subject_key py metadata_df (fst e) = k
          /\ notna (snd e) = true /\ py_float py (snd e) = Some f
          /\ forall e', In e' later -> ~ binds py metadata_df k e')
       \/ (m !! k = Some f
           /\ forall e', In e' entries -> ~ binds py metadata_df k e')).
Proof.
  intros Hage. revert m.
  induction entries as [|e es IH]; intros m; simpl.
  - intros H; inversion H; subst m'. split.
    + intros Hk. right. split; [exact Hk | intros e' []].
    + intros [(earlier & e & later & Heq & _)|[Hk _]]; [|exact Hk].
      now destruct earlier.
  - rewrite add_row_yielded by exact Hage.
    destruct (has_column "ID" metadata_df); [|discriminate].
    destruct (decide (subject_key py metadata_df (fst e) = k)) as [Hkey|Hkey].
    + destruct (notna (snd e)) eqn:Ena.
      * destruct (py_float py (snd e)) as [x|] eqn:Ef; [|discriminate].
        intros Hb. rewrite (IH _ Hb). rewrite Hkey, lookup_insert_eq. split.
        { intros [(earlier & e0 & later & -> & H)|[Hx Hno]].
          - left. exists (e :: earlier), e0, later. auto.
          - left. exists [], e, es. inversion Hx; subst x. auto. }
        { intros [(earlier & e0 & later & Heq & Hk0 & Hna & Hf & Hno)
                 |[_ Hno]].
          - destruct earlier as [|e1 earlier]; simpl in Heq;
              inversion Heq; subst.
            + right. rewrite Ef in Hf. split; [exact Hf | exact Hno].
            + left. exists earlier, e0, later. auto.
          - exfalso. apply (Hno e (or_introl eq_refl)). now split. }
      * intros Hb. rewrite (IH _ Hb). split.
        { intros [(earlier & e0 & later & -> & H)|[Hx Hno]].
          - left. exists (e :: earlier), e0, later. auto.
          - right. split; [exact Hx|]. intros e' [<-|Hin]; [|now apply Hno].
            intros [_ Hna]. rewrite Ena in Hna. discriminate. }
        { intros [(earlier & e0 & later & Heq & Hk0 & Hna & Hf & Hno)
                 |[Hx Hno]].
          - destruct earlier as [|e1 earlier]; simpl in Heq;
              inversion Heq; subst.
            + rewrite Ena in Hna. discriminate.
            + left. exists earlier, e0, later. auto.
          - right. split; [exact Hx|]. intros e' Hin. apply Hno. now right. }
    + assert (Hstep : forall m1,
                 (if notna (snd e)
                  then match py_float py (snd e) with
                       | Some f0 =>
                           Some (<[subject_key py metadata_df (fst e) := f0]> m)
                       | None => None
                       end
                  else Some m) = Some m1 -> m1 !! k = m !! k).
      { intros m1. destruct (notna (snd e)).
        - destruct (py_float py (snd e)); [|discriminate].
          intros H; inversion H; subst m1. now apply lookup_insert_ne.
        - intros H; now inversion H. }
      destruct (if notna (snd e)
                then match py_float py (snd e) with
                     | Some f0 =>
                         Some (<[subject_key py metadata_df (fst e) := f0]> m)
                     | None => None
                     end
                else Some m) as [m1|] eqn:E1; [|discriminate].
      intros Hb. rewrite (IH _ Hb), (Hstep m1 eq_refl). split.
      * intros [(earlier & e0 & later & -> & H)|[Hx Hno]].
        { left. exists (e :: earlier), e0, later. auto. }
        { right. split; [exact Hx|]. intros e' [<-|Hin]; [|now apply Hno].
          intros [Hk0 _]. contradiction. }
      * intros [(earlier & e0 & later & Heq & Hk0 & Hna & Hf & Hno)
               |[Hx Hno]].
        { destruct earlier as [|e1 earlier]; simpl in Heq;
            inversion Heq; subst.
          - contradiction.
          - left. exists earlier, e0, later. auto. }
        { right. split; [exact Hx|]. intros e' Hin. apply Hno. now right. }
Qed.

(** The loop ends without an exception when the frame has an ID column
    and [float] accepts every age that is not NaN. *)
Lemma build_mapping_returns (metadata_df : DataFrame)
    (entries : list (row * cell)) (m : gmap string float) :
  has_column "age_years" metadata_df = true ->
  has_column "ID" metadata_df = true ->
  (forall e, In e entries -> notna (snd e) = true ->
             py_float py (snd e) <> None) ->
  exists m',
    build_mapping py m (map (series metadata_df) (map (with_value "age_years") entries))
    = Some m'.
Proof.
  intros Hage Hid. revert m.
  induction entries as [|e es IH]; intros m Hok; simpl; [eauto|].
  rewrite add_row_yielded by exact Hage. rewrite Hid.
  destruct (notna (snd e)) eqn:Ena.
  - destruct (py_float py (snd e)) as [x|] eqn:Ef.
    + apply IH. intros e' He'. apply Hok. now right.
    + now destruct (Hok e (or_introl eq_refl) Ena).
  - apply IH. intros e' He'. apply Hok. now right.
Qed.

(** The loop raises when the frame has rows and no ID column, or when
    [float] rejects an age that is not NaN. *)
Lemma build_mapping_raises (metadata_df : DataFrame)
    (entries : list (row * cell)) (m : gmap string float) (e : row * cell) :
  has_column "age_years" metadata_df = true ->
  In e entries ->
  has_column "ID" metadata_df = false
  \/ (notna (snd e) = true /\ py_float py (snd e) = None) ->
  build_mapping py m (map (series metadata_df) (map (with_value "age_years") entries)) = None.
Proof.
  intros Hage. revert m.
  induction entries as [|e0 es IH]; intros m Hin Hbad; [destruct Hin|].
  simpl. rewrite add_row_yielded by exact Hage.
  destruct (has_column "ID" metadata_df) eqn:Hid; [|reflexivity].
  destruct Hbad as [Hbad|[Hna Hf]]; [discriminate|].
  destruct Hin as [->|Hin].
  - now rewrite Hna, Hf.
  - destruct (notna (snd e0)); [destruct (py_float py (snd e0))|];
      try reflexivity; apply IH; auto.
Qed.

(** A key that some row binds is bound after the loop. *)
Lemma build_mapping_bound (metadata_df : DataFrame)
    (entries : list (row * cell)) (m m' : gmap string float) (k : string) :
  has_column "age_years" metadata_df = true ->
  build_mapping py m
    (map (series metadata_df) (map (with_value "age_years") entries))
  = Some m' ->
  (is_Some (m !! k)
   \/ exists e, In e entries /\ binds py metadata_df k e) ->
  is_Some (m' !! k).
Proof.
  intros Hage. revert m.
  induction entries as [|e es IH]; intros m; simpl.
  - intros H; inversion H; subst m'. intros [H0|(e & [] & _)]. exact H0.
  - rewrite add_row_yielded by exact Hage.
    destruct (has_column "ID" metadata_df); [|discriminate].
    destruct (notna (snd e)) eqn:Ena.
    + destruct (py_float py (snd e)) as [x|]; [|discriminate].
      intros Hb Hk. apply (IH _ Hb).
      destruct Hk as [H0|(e' & [<-|Hin] & Hk & Hna)].
      * left. rewrite lookup_insert_is_Some.
        destruct (decide (subject_key py metadata_df (fst e) = k));
          [left | right]; auto.
      * left. rewrite Hk, lookup_insert_is_Some. now left.
      * right. exists e'. split; [exact Hin | now split].
    + intros Hb Hk. apply (IH _ Hb).
      destruct Hk as [H0|(e' & [<-|Hin] & Hk & Hna)].
      * now left.
      * rewrite Ena in Hna. discriminate.
      * right. exists e'. split; [exact Hin | now split].
Qed.

(** The result in terms of the loop over the rows and their ages. *)
Lemma load_unfold (metadata_path : string) (df : DataFrame)
    (ages : list cell) :
  age_years_column df = AgeYears ages ->
  load_subject_metadata py metadata_path (ReadOk df)
  = match build_mapping py ∅
            (map (series (set_column "age_years" ages df))
                 (map (with_value "age_years") (combine (rows df) ages)))
    with
    | Some age_mapping => (age_mapping, [LoadedAgeData (size age_mapping)])
    | None => (∅, [ErrorLoadingMetadata])
    end.
Proof. intros E. unfold load_subject_metadata. now rewrite E. Qed.

(** The mapping of a table that loads: a key is bound to the age of the
    last row that binds it. *)
Lemma load_lookup (metadata_path : string) (df : DataFrame)
    (ages : list cell) (n : nat) (k : string) (f : float) :
  age_years_column df = AgeYears ages ->
  snd (load_subject_metadata py metadata_path (ReadOk df))
  = [LoadedAgeData n] ->
  (fst (load_subject_metadata py metadata_path (ReadOk df)) !! k = Some f
   <-> exists earlier e later,
         combine (rows df) ages = earlier ++ e :: later
         /\ subject_key py (set_column "age_years" ages df) (fst e) = k
         /\ notna (snd e) = true /\ py_float py (snd e) = Some f
         /\ forall e', In e' later ->
              ~ binds py (set_column "age_years" ages df) k e').
Proof.
  intros Ecol. rewrite (load_unfold _ _ _ Ecol).
  destruct (build_mapping py ∅ _) as [m|] eqn:Eb; [|discriminate].
  intros _. simpl.
  rewrite (build_mapping_lookup _ _ _ _ k f (has_column_set _ _ _) Eb).
  split; [|now left].
  intros [H|[H _]]; [exact H|]. rewrite lookup_empty in H. discriminate.
Qed.

(** A mapping that binds a key comes from a table that loaded. *)
Lemma load_loaded (metadata_path : string) (df : DataFrame)
    (k : string) (f : float) :
  fst (load_subject_metadata py metadata_path (ReadOk df)) !! k = Some f ->
  exists ages n,
    age_years_column df = AgeYears ages
    /\ snd (load_subject_metadata py metadata_path (ReadOk df))
       = [LoadedAgeData n].
Proof.
  unfold load_subject_metadata.
  destruct (age_years_column df) as [ages| |]; simpl;
    try (rewrite lookup_empty; discriminate).
  destruct (build_mapping py ∅ _) as [m|]; simpl;
    [eauto | rewrite lookup_empty; discriminate].
Qed.

Lemma load_returns (metadata_path : string) (df : DataFrame)
    (ages : list cell) :
  age_years_column df = AgeYears ages ->
  has_column "ID" df = true ->
  (forall e, In e (combine (rows df) ages) -> notna (snd e) = true ->
             py_float py (snd e) <> None) ->
  snd (load_subject_metadata py metadata_path (ReadOk df))
  = [LoadedAgeData
       (size (fst (load_subject_metadata py metadata_path (ReadOk df))))].
Proof.
  intros Ecol Hid Hok. rewrite (load_unfold _ _ _ Ecol).
  destruct (build_mapping_returns (set_column "age_years" ages df)
              (combine (rows df) ages) ∅ (has_column_set _ _ _))
    as [m ->]; [|exact Hok|reflexivity].
  now rewrite has_column_set_other.
Qed.

Lemma load_raises (metadata_path : string) (df : DataFrame)
    (ages : list cell) (e : row * cell) :
  age_years_column df = AgeYears ages ->
  In e (combine (rows df) ages) ->
  has_column "ID" df = false
  \/ (notna (snd e) = true /\ py_float py (snd e) = None) ->
  load_subject_metadata py metadata_path (ReadOk df)
  = (∅, [ErrorLoadingMetadata]).
Proof.
  intros Ecol Hin Hbad. rewrite (load_unfold _ _ _ Ecol).
  rewrite (build_mapping_raises (set_column "age_years" ages df) _ ∅ e
             (has_column_set _ _ _) Hin); [reflexivity|].
  destruct Hbad as [Hid|Hbad]; [left | now right].
  now rewrite has_column_set_other.
Qed.

End Lookups.

(** ** Rows and their ages *)

Lemma months_to_years_ages (values ages : list cell) :
  months_to_years values = Some ages ->
  Forall2 (fun v a => div12 v = Some a) values ages.
Proof.
  revert ages; induction values as [|v vs IH]; intros ages; simpl.
  - intros H; inversion H. constructor.
  - destruct (div12 v) as [y|] eqn:E; [|discriminate].
    destruct (months_to_years vs) as [ys|]; [|discriminate].
    intros H; inversion H; subst ages. constructor; auto.
Qed.

Lemma months_to_years_numbers (values : list cell) :
  Forall (fun v => forall s, v <> CStr s) values ->
  exists ages, months_to_years values = Some ages.
Proof.
  induction 1 as [|v vs Hv _ [ys IH]]; simpl; [eauto|].
  destruct (div12_not_text v Hv) as [x ->]. rewrite IH. eauto.
Qed.

Lemma months_to_years_text (values : list cell) (s : string) :
  In (CStr s) values -> months_to_years values = None.
Proof.
  induction values as [|v vs IH]; intros Hin; [destruct Hin|].
  destruct Hin as [->|Hin]; simpl; [reflexivity|].
  rewrite (IH Hin). now destruct (div12 v).
Qed.

Lemma astype_text (d : dtype) (s : string) : astype d (CStr s) = CStr s.
Proof. now destruct d. Qed.

Lemma astype_not_text (d : dtype) (v : cell) :
  (forall s, v <> CStr s) -> forall s, astype d v <> CStr s.
Proof. destruct d, v; simpl; intros H s0; try discriminate; apply H. Qed.

(** With a months column the ages are the months over 12, row by row. *)
Lemma months_column_ages (df : DataFrame) (ages : list cell) :
  has_column "age_months" df = true ->
  age_years_column df = AgeYears ages ->
  Forall2 (fun r a => div12 (cell_of "age_months" r) = Some a)
          (rows df) ages.
Proof.
  intros Hm. unfold age_years_column. rewrite Hm.
  destruct (months_to_years (column "age_months" df)) as [vs|] eqn:E;
    [|discriminate].
  intros H; inversion H; subst vs; clear H.
  apply months_to_years_ages in E. unfold column in E.
  apply Forall2_fmap_l in E. eapply List.Forall2_impl; [|exact E].
  intros r a. simpl. now rewrite astype_div12.
Qed.

Lemma months_column_numbers (df : DataFrame) :
  has_column "age_months" df = true ->
  (forall r, In r (rows df) -> forall s, cell_of "age_months" r <> CStr s) ->
  exists ages, age_years_column df = AgeYears ages.
Proof.
  intros Hm Hnum. unfold age_years_column. rewrite Hm.
  destruct (months_to_years_numbers (column "age_months" df)) as [ages ->];
    [|eauto].
  unfold column. apply List.Forall_forall. intros v Hv.
  apply in_map_iff in Hv as (r & <- & Hr).
  apply astype_not_text. now apply Hnum.
Qed.

(** Without one they are the values of the years column. *)
Lemma years_column_ages (df : DataFrame) :
  Forall2 (fun r a => a = astype (column_dtype "age" df) (cell_of "age" r))
          (rows df) (column "age" df).
Proof.
  unfold column. induction (rows df) as [|r rs IH]; constructor; auto.
Qed.

Section Entries.
Context {A B : Type} (R : A -> B -> Prop).

Lemma combine_related (l1 : list A) (l2 : list B) :
  Forall2 R l1 l2 ->
  forall e, In e (combine l1 l2) -> R (fst e) (snd e).
Proof.
  induction 1 as [|x y l1 l2 Hxy _ IH]; simpl; [intros e []|].
  intros e [<-|Hin]; [exact Hxy | now apply IH].
Qed.

Lemma combine_has (l1 : list A) (l2 : list B) (x : A) :
  Forall2 R l1 l2 -> In x l1 ->
  exists y, In (x, y) (combine l1 l2) /\ R x y.
Proof.
  induction 1 as [|x0 y0 l1 l2 Hxy _ IH]; simpl; [intros []|].
  intros [->|Hin]; [exists y0; auto|].
  destruct (IH Hin) as (y & Hy & Hr). exists y. auto.
Qed.

Lemma related_to (l1 : list A) (l2 : list B) (y : B) :
  Forall2 R l1 l2 -> In y l2 -> exists x, In x l1 /\ R x y.
Proof.
  induction 1 as [|x0 y0 l1 l2 Hxy _ IH]; simpl; [intros []|].
  intros [->|Hin]; [exists x0; auto|].
  destruct (IH Hin) as (x & Hx & Hr). exists x. auto.
Qed.

Lemma combine_rows (l1 : list A) (l2 : list B) :
  Forall2 R l1 l2 -> map fst (combine l1 l2) = l1.
Proof. induction 1; simpl; congruence. Qed.

(** A place in the rows is a place in the rows taken with their ages. *)
Lemma split_rows (l1 : list A) (l2 : list B) (earlier later : list A)
    (x : A) :
  Forall2 R l1 l2 -> l1 = earlier ++ x :: later ->
  exists ys y zs,
    combine l1 l2 = combine earlier ys ++ (x, y) :: combine later zs
    /\ R x y /\ Forall2 R later zs.
Proof.
  intros H. revert earlier.
  induction H as [|x0 y0 l1 l2 Hxy H IH]; intros earlier Heq.
  - now destruct earlier.
  - destruct earlier as [|x1 earlier]; simpl in Heq; inversion Heq; subst.
    + exists [], y0, l2. auto.
    + destruct (IH earlier eq_refl) as (ys & y & zs & Hc & Hr & Hl).
      exists (y0 :: ys), y, zs. simpl. rewrite Hc. auto.
Qed.

Lemma split_entries (l1 : list A) (l2 : list B)
    (earlier later : list (A * B)) (e : A * B) :
  Forall2 R l1 l2 -> combine l1 l2 = earlier ++ e :: later ->
  l1 = map fst earlier ++ fst e :: map fst later
  /\ R (fst e) (snd e)
  /\ forall e', In e' later -> R (fst e') (snd e').
Proof.
  intros H Heq. pose proof (combine_related _ _ H) as Hall.
  rewrite Heq in Hall. split; [|split].
  - rewrite <- (combine_rows _ _ H), Heq, map_app. reflexivity.
  - apply Hall, in_elt.
  - intros e' He'. apply Hall. apply in_or_app. right. now right.
Qed.

End Entries.

(** With a months column no age of the mapping is NaN: the value tested
    by [pd.notna] is the one stored. *)
Lemma months_mapping_no_nan (py : Builtins) (metadata_path : string)
    (df : DataFrame) (k : string) (f : float) :
  has_column "age_months" df = true ->
  fst (load_subject_metadata py metadata_path (ReadOk df)) !! k = Some f ->
  PrimFloat.is_nan f = false.
Proof.
  intros Hm Hk.
  destruct (load_loaded py _ _ _ _ Hk) as (ages & n & Ecol & Elog).
  destruct (proj1 (load_lookup py _ _ _ _ k f Ecol Elog) Hk)
    as (earlier & e & later & Heq & _ & Hna & Hf & _).
  destruct (split_entries _ _ _ _ _ _ (months_column_ages _ _ Hm Ecol) Heq)
    as (_ & Hd & _).
  destruct (div12_float _ _ Hd) as [x Hx]. rewrite Hx in Hna, Hf.
  simpl in Hna, Hf. inversion Hf; subst. now apply negb_true_iff in Hna.
Qed.

Lemma float_neq_12 : 12%float <> 15.5%float.
Proof.
  intros H. apply (f_equal (fun x => PrimFloat.eqb x 12)) in H.
  vm_compute in H. discriminate.
Qed.

(** C3, as stated, fails: with both columns present the years column is
    not the one used. The subject's years value is 15.5, the mapping
    holds 144/12. *)
Lemma years_column_not_preferred :
  has_column "age" both_columns_table = true
  /\ has_column "age_months" both_columns_table = true
  /\ age_years_column both_columns_table
     <> age_years_column_years_first both_columns_table
  /\ fst (load_subject_metadata no_text "muh_metadata.csv"
            (ReadOk both_columns_table)) !! "MUH1396" <> Some 15.5%float.
Proof.
  split; [reflexivity|]. split; [reflexivity|]. split.
  - intros H. vm_compute in H.
    apply float_neq_12. congruence.
  - intros H. vm_compute in H.
    apply float_neq_12. congruence.
Qed.

(** C3, amended. The months column comes first. When the table has one,
    the [age_years] column is that column over 12, row by row, whatever a
    years column says; it exists as soon as no months value is text, and
    with an ID column the table then loads and binds a key to exactly the
    months over 12 of the last row that has this key and months that are
    a number. Only without a months column are the ages those of the years
    column: the table loads when it has an ID column and [float] accepts
    every text of the years column, and on a table that loads a key is
    bound to exactly the years value of the last row that has this key
    and a years value. With neither column the mapping is empty and the
    warning is printed. *)
Theorem age_column_resolution (py : Builtins) (metadata_path : string)
    (df : DataFrame) :
  (has_column "age_months" df = true ->
   ((forall r, In r (rows df) -> forall s, cell_of "age_months" r <> CStr s) ->
    exists ages, age_years_column df = AgeYears ages)
   /\ forall ages,
        age_years_column df = AgeYears ages ->
        has_column "ID" df = true ->
        Forall2 (fun r a => div12 (cell_of "age_months" r) = Some a)
                (rows df) ages
        /\ snd (load_subject_metadata py metadata_path (ReadOk df))
           = [LoadedAgeData
                (size (fst (load_subject_metadata py metadata_path
                              (ReadOk df))))]
        /\ forall k f,
             fst (load_subject_metadata py metadata_path (ReadOk df)) !! k
             = Some f
             <-> exists earlier r later,
                   rows df = earlier ++ r :: later
                   /\ subject_key py (set_column "age_years" ages df) r = k
                   /\ div12 (cell_of "age_months" r) = Some (CFloat f)
                   /\ PrimFloat.is_nan f = false
                   /\ forall r' x,
                        In r' later ->
                        subject_key py (set_column "age_years" ages df) r'
                        = k ->
                        div12 (cell_of "age_months" r') = Some (CFloat x) ->
                        PrimFloat.is_nan x = true)
  /\ (has_column "age_months" df = false -> has_column "age" df = true ->
      (has_column "ID" df = true ->
       (forall r s, In r (rows df) -> cell_of "age" r = CStr s ->
                    float_of_str py s <> None) ->
       snd (load_subject_metadata py metadata_path (ReadOk df))
       = [LoadedAgeData
            (size (fst (load_subject_metadata py metadata_path
                          (ReadOk df))))])
      /\ forall n,
        snd (load_subject_metadata py metadata_path (ReadOk df))
        = [LoadedAgeData n] ->
        forall k f,
          fst (load_subject_metadata py metadata_path (ReadOk df)) !! k
          = Some f
          <-> exists earlier r later,
                rows df = earlier ++ r :: later
                /\ subject_key py
                     (set_column "age_years" (column "age" df) df) r = k
                /\ notna (cell_of "age" r) = true
                /\ py_float py (cell_of "age" r) = Some f
                /\ forall r',
                     In r' later ->
                     subject_key py
                       (set_column "age_years" (column "age" df) df) r' = k ->
                     notna (cell_of "age" r') = false)
  /\ (has_column "age_months" df = false -> has_column "age" df = false ->
      load_subject_metadata py metadata_path (ReadOk df)
      = (∅, [WarnNoAgeColumn])).
Proof.
  split; [|split].
  - intros Hm. split; [now apply months_column_numbers|].
    intros ages Ecol Hid.
    pose proof (months_column_ages _ _ Hm Ecol) as Hages.
    assert (Hlog : snd (load_subject_metadata py metadata_path (ReadOk df))
                   = [LoadedAgeData
                        (size (fst (load_subject_metadata py metadata_path
                                      (ReadOk df))))]).
    { apply (load_returns py _ _ _ Ecol Hid). intros e He _.
      pose proof (combine_related _ _ _ Hages e He) as Hd.
      destruct (div12_float _ _ Hd) as [x ->]. discriminate. }
    split; [exact Hages|]. split; [exact Hlog|].
    intros k f. rewrite (load_lookup py _ _ _ _ k f Ecol Hlog). split.
    + intros (earlier & e & later & Heq & Hk & Hna & Hf & Hno).
      destruct (split_entries _ _ _ _ _ _ Hages Heq) as (Hrows & Hd & Hl).
      exists (map fst earlier), (fst e), (map fst later).
      destruct (div12_float _ _ Hd) as [x Hx]. rewrite Hx in Hna, Hf, Hd.
      simpl in Hna, Hf. inversion Hf; subst x.
      repeat split; try assumption; [now apply negb_true_iff in Hna|].
      intros r' x Hin Hk' Hd'.
      apply in_map_iff in Hin as (e' & <- & He').
      specialize (Hl e' He'). rewrite Hd' in Hl. inversion Hl as [Ha].
      destruct (PrimFloat.is_nan x) eqn:En; [reflexivity|].
      exfalso. apply (Hno e' He'). split; [exact Hk'|].
      rewrite <- Ha. simpl. now rewrite En.
    + intros (earlier & r & later & Hrows & Hk & Hd & Hn & Hno).
      destruct (split_rows _ _ _ _ _ _ Hages Hrows)
        as (ys & y & zs & Hc & Hr & Hl).
      exists (combine earlier ys), (r, y), (combine later zs).
      rewrite Hd in Hr. inversion Hr; subst y. simpl.
      repeat split; try assumption; [now rewrite Hn|].
      intros e' He' [Hk' Hna'].
      pose proof (combine_related _ _ _ Hl e' He') as Hd'.
      destruct (div12_float _ _ Hd') as [x Hx]. rewrite Hx in Hd', Hna'.
      simpl in Hna'.
      assert (Hin : In (fst e') later).
      { rewrite <- (combine_rows _ _ _ Hl). now apply in_map. }
      rewrite (Hno _ x Hin Hk' Hd') in Hna'. discriminate.
  - intros Hm Hy.
    assert (Ecol : age_years_column df = AgeYears (column "age" df))
      by (unfold age_years_column; now rewrite Hm, Hy).
    pose proof (years_column_ages df) as Hages.
    split.
    { intros Hid Hnum. apply (load_returns py _ _ _ Ecol Hid).
      intros e He _. rewrite (combine_related _ _ _ Hages e He).
      rewrite astype_float.
      destruct (cell_of "age" (fst e)) as [s|z|x] eqn:Ec;
        try discriminate.
      apply (Hnum (fst e) s); [|exact Ec].
      rewrite <- (combine_rows _ _ _ Hages). now apply in_map. }
    intros n Hlog k f.
    rewrite (load_lookup py _ _ _ _ k f Ecol Hlog). split.
    + intros (earlier & e & later & Heq & Hk & Hna & Hf & Hno).
      destruct (split_entries _ _ _ _ _ _ Hages Heq) as (Hrows & Hd & Hl).
      exists (map fst earlier), (fst e), (map fst later).
      rewrite Hd, astype_notna in Hna. rewrite Hd, astype_float in Hf.
      repeat split; try assumption.
      intros r' Hin Hk'. apply in_map_iff in Hin as (e' & <- & He').
      destruct (notna (cell_of "age" (fst e'))) eqn:En; [|reflexivity].
      exfalso. apply (Hno e' He'). split; [exact Hk'|].
      now rewrite (Hl e' He'), astype_notna.
    + intros (earlier & r & later & Hrows & Hk & Hna & Hf & Hno).
      destruct (split_rows _ _ _ _ _ _ Hages Hrows)
        as (ys & y & zs & Hc & Hr & Hl).
      exists (combine earlier ys), (r, y), (combine later zs).
      subst y. simpl. rewrite astype_notna, astype_float.
      repeat split; try assumption.
      intros e' He' [Hk' Hna'].
      pose proof (combine_related _ _ _ Hl e' He') as Hd'.
      rewrite Hd', astype_notna in Hna'.
      assert (Hin : In (fst e') later).
      { rewrite <- (combine_rows _ _ _ Hl). now apply in_map. }
      rewrite (Hno _ Hin Hk') in Hna'. discriminate.
  - intros Hm Hy. unfold load_subject_metadata, age_years_column.
    now rewrite Hm, Hy.
Qed.

(** A witness of C3: the table with both columns binds the subject to
    its months over 12. *)
Lemma age_column_resolution_witness :
  fst (load_subject_metadata no_text "muh_metadata.csv"
         (ReadOk both_columns_table)) !! "MUH1396" = Some 12%float.
Proof.
  refine (proj2 (proj2 (proj2 (proj2 (proj1 (age_column_resolution no_text
            "muh_metadata.csv" both_columns_table) _) [CFloat 12] _ _))
            "MUH1396" 12%float) _); try reflexivity.
  exists [], [("ID", CStr "MUH1396"); ("age", CFloat 15.5);
              ("age_months", CFloat 144)], [].
  repeat split; try reflexivity. intros r' x [].
Defined.

(** C7, as stated, fails on its own example: the table has a months
    column, so the second row's age is its missing months value and the
    row is left out; and the first row is not filed under ["1"], since the
    IDs of a table of numbers reach the loop as floats. *)
Lemma example_mapping_not_returned :
  fst (load_subject_metadata no_text "muh_metadata.csv"
         (ReadOk example_table)) !! "2" = None
  /\ expected_example_mapping !! "2" = Some 15.5%float
  /\ fst (load_subject_metadata no_text "muh_metadata.csv"
            (ReadOk example_table)) !! "1" = None
  /\ fst (load_subject_metadata no_text "muh_metadata.csv"
            (ReadOk example_table)) <> expected_example_mapping.
Proof.
  assert (H2 : fst (load_subject_metadata no_text "muh_metadata.csv"
                      (ReadOk example_table)) !! "2" = None)
    by (vm_compute; reflexivity).
  assert (H3 : expected_example_mapping !! "2" = Some 15.5%float)
    by (vm_compute; reflexivity).
  split; [exact H2|]. split; [exact H3|].
  split; [vm_compute; reflexivity|].
  intros Heq. rewrite Heq, H3 in H2. discriminate.
Qed.

(** C7, amended. On the example table the mapping binds ["1.0"] to 12.0
    and nothing else: the second row has no months, and the table holds
    numbers only, so [iterrows] yields its IDs as floats; next to a column
    of text the same ID is filed under ["1"]. In general, on a table that
    loads, a key is bound to the age of the last row that has this key and
    an age that is not NaN, the key being the stringified ID that
    [iterrows] yields: a row whose age is NaN binds nothing (with a months
    column no bound age is NaN), every row whose age is not NaN has its
    key bound, and a row of age zero is bound to zero. *)
Theorem load_subject_metadata_rows (py : Builtins) (metadata_path : string) :
  fst (load_subject_metadata py metadata_path (ReadOk example_table))
  = <["1.0" := 12%float]> ∅
  /\ fst (load_subject_metadata py metadata_path (ReadOk example_with_text))
     = <["1" := 12%float]> ∅
  /\ (forall df ages n k f,
        age_years_column df = AgeYears ages ->
        snd (load_subject_metadata py metadata_path (ReadOk df))
        = [LoadedAgeData n] ->
        (fst (load_subject_metadata py metadata_path (ReadOk df)) !! k
         = Some f
         <-> exists earlier r age later,
               combine (rows df) ages = earlier ++ (r, age) :: later
               /\ subject_key py (set_column "age_years" ages df) r = k
               /\ notna age = true /\ py_float py age = Some f
               /\ forall e, In e later ->
                    ~ binds py (set_column "age_years" ages df) k e))
  /\ (forall df k f,
        has_column "age_months" df = true ->
        fst (load_subject_metadata py metadata_path (ReadOk df)) !! k = Some f ->
        PrimFloat.is_nan f = false)
  /\ (forall df n ages r age,
        snd (load_subject_metadata py metadata_path (ReadOk df))
        = [LoadedAgeData n] ->
        age_years_column df = AgeYears ages ->
        In (r, age) (combine (rows df) ages) -> notna age = true ->
        is_Some (fst (load_subject_metadata py metadata_path (ReadOk df))
                 !! subject_key py (set_column "age_years" ages df) r))
  /\ fst (load_subject_metadata py metadata_path (ReadOk years_only_table))
     = <["MUH1" := 0%float]> ∅.
Proof.
  split; [vm_compute; reflexivity|]. split; [vm_compute; reflexivity|].
  split; [|split; [|split]].
  - intros df ages n k f Ecol Hlog.
    rewrite (load_lookup py _ _ _ _ k f Ecol Hlog). split.
    + intros (earlier & [r age] & later & H). exists earlier, r, age, later.
      exact H.
    + intros (earlier & r & age & later & H). exists earlier, (r, age), later.
      exact H.
  - intros df k f. apply months_mapping_no_nan.
  - intros df n ages r age Hlog Ecol Hin Hna.
    rewrite (load_unfold py _ _ _ Ecol) in Hlog |- *.
    destruct (build_mapping py ∅ _) as [m|] eqn:Eb; [|discriminate].
    simpl. apply (build_mapping_bound py _ _ _ _ _ (has_column_set _ _ _) Eb).
    right. exists (r, age). split; [exact Hin | now split].
  - vm_compute. reflexivity.
Qed.

End MetadataFacts.

(* ===================================================================== *)
(** * Properties of the order of floats *)
(* ===================================================================== *)

Module FloatOrderFacts.
Import FloatOrder.

Lemma compare_cont_Eq (m1 m2 : positive) :
  Pos.compare_cont Eq m1 m2 = Pos.compare m1 m2.
Proof. reflexivity. Qed.

Lemma SFltb_rank (x y : spec_float) :
  x <> S754_nan -> y <> S754_nan ->
  (SFltb x y = true <-> lex_lt (rank x) (rank y)).
Proof.
  intros Hx Hy. unfold SFltb.
  destruct x as [sx|[|]| |[|] mx ex], y as [sy|[|]| |[|] my ey];
    try congruence; simpl; try (split; [discriminate | lia]);
    try (split; [lia | reflexivity]); try (split; intros; [lia|reflexivity]).
  - rewrite compare_cont_Eq.
    destruct (Z.compare_spec ex ey), (Pos.compare_spec mx my); simpl;
      split; try discriminate; try lia; reflexivity.
  - rewrite compare_cont_Eq.
    destruct (Z.compare_spec ex ey), (Pos.compare_spec mx my); simpl;
      split; try discriminate; try lia; reflexivity.
Qed.

Lemma SFeqb_rank (x y : spec_float) :
  x <> S754_nan -> y <> S754_nan ->
  (SFeqb x y = true <-> rank x = rank y).
Proof.
  intros Hx Hy. unfold SFeqb.
  destruct x as [sx|[|]| |[|] mx ex], y as [sy|[|]| |[|] my ey];
    try congruence; simpl; try (split; [discriminate | congruence]);
    try (split; reflexivity).
  - rewrite compare_cont_Eq.
    destruct (Z.compare_spec ex ey), (Pos.compare_spec mx my); simpl;
      split; try discriminate; try reflexivity; intros Hr; inversion Hr;
      try lia; subst; try lia; try reflexivity.
  - rewrite compare_cont_Eq.
    destruct (Z.compare_spec ex ey), (Pos.compare_spec mx my); simpl;
      split; try discriminate; try reflexivity; intros Hr; inversion Hr;
      try lia; subst; try lia; try reflexivity.
Qed.

Lemma is_nan_false (x : float) :
  PrimFloat.is_nan x = false -> Prim2SF x <> S754_nan.
Proof.
  unfold PrimFloat.is_nan. rewrite FloatAxioms.eqb_spec. intros H E. rewrite E in H.
  discriminate.
Qed.

Lemma ltb_rank (x y : float) :
  PrimFloat.is_nan x = false -> PrimFloat.is_nan y = false ->
  ((x <? y)%float = true <-> lex_lt (frank x) (frank y)).
Proof.
  intros Hx Hy. rewrite FloatAxioms.ltb_spec.
  apply SFltb_rank; now apply is_nan_false.
Qed.

Lemma eqb_rank (x y : float) :
  PrimFloat.is_nan x = false -> PrimFloat.is_nan y = false ->
  ((x =? y)%float = true <-> frank x = frank y).
Proof.
  intros Hx Hy. rewrite FloatAxioms.eqb_spec.
  apply SFeqb_rank; now apply is_nan_false.
Qed.

Lemma not_nan_is_nan (x : float) :
  Prim2SF x <> S754_nan -> PrimFloat.is_nan x = false.
Proof.
  intros H. unfold PrimFloat.is_nan. rewrite FloatAxioms.eqb_spec.
  apply negb_false_iff. now apply SFeqb_rank.
Qed.

Lemma SFcompare_not_nan (x y : spec_float) (c : comparison) :
  SFcompare x y = Some c -> x <> S754_nan /\ y <> S754_nan.
Proof.
  destruct x as [sx|[|]| |[|] mx ex], y as [sy|[|]| |[|] my ey];
    simpl; intros H; try discriminate; split; discriminate.
Qed.

(** A comparison that holds has no NaN on either side. *)
Lemma ltb_true_not_nan (x y : float) :
  (x <? y)%float = true ->
  PrimFloat.is_nan x = false /\ PrimFloat.is_nan y = false.
Proof.
  rewrite FloatAxioms.ltb_spec. unfold SFltb.
  destruct (SFcompare (Prim2SF x) (Prim2SF y)) as [c|] eqn:E; [|discriminate].
  intros _. destruct (SFcompare_not_nan _ _ _ E).
  split; now apply not_nan_is_nan.
Qed.

Lemma eqb_true_not_nan (x y : float) :
  (x =? y)%float = true ->
  PrimFloat.is_nan x = false /\ PrimFloat.is_nan y = false.
Proof.
  rewrite FloatAxioms.eqb_spec. unfold SFeqb.
  destruct (SFcompare (Prim2SF x) (Prim2SF y)) as [c|] eqn:E; [|discriminate].
  intros _. destruct (SFcompare_not_nan _ _ _ E).
  split; now apply not_nan_is_nan.
Qed.

End FloatOrderFacts.

(* ===================================================================== *)
(** * Properties of the sort *)
(* ===================================================================== *)

Module SortFacts.
Import Catalog.

Section Generic.
Context {A K : Type} (key : A -> K) (lt : K -> K -> bool).

Lemma insert_perm (x : A) (l : list A) :
  Permutation (x :: l) (insert key lt x l).
Proof.
  induction l as [|y l IH]; simpl; [reflexivity|].
  destruct (lt (key y) (key x)); [|reflexivity].
  rewrite perm_swap. now apply perm_skip.
Qed.

Lemma py_sort_perm (l : list A) : Permutation l (py_sort key lt l).
Proof.
  induction l as [|x l IH]; simpl; [reflexivity|].
  rewrite <- insert_perm. now apply perm_skip.
Qed.

Lemma insert_Forall (P : A -> Prop) (x : A) (l : list A) :
  P x -> Forall P l -> Forall P (insert key lt x l).
Proof.
  intros Hx Hl. eapply Permutation_Forall; [apply insert_perm|].
  now constructor.
Qed.

(** With an asymmetric comparison the result has no element below the
    one before it, and such a list is returned as it is. *)
Section Asymmetric.
Hypothesis lt_asym : forall k1 k2, lt k1 k2 = true -> lt k2 k1 = false.

Lemma insert_in_order (x : A) (l : list A) :
  Sorted (fun a b => lt (key b) (key a) = false) l ->
  Sorted (fun a b => lt (key b) (key a) = false) (insert key lt x l).
Proof.
  intros Hs. induction l as [|y l IH]; simpl.
  - constructor; constructor.
  - apply Sorted_inv in Hs as [Hs Hy].
    destruct (lt (key y) (key x)) eqn:E.
    + constructor; [now apply IH|].
      destruct l as [|z l]; simpl.
      * constructor. now apply lt_asym.
      * destruct (lt (key z) (key x)).
        -- constructor. now apply HdRel_inv in Hy.
        -- constructor. now apply lt_asym.
    + constructor; [now constructor|]. now constructor.
Qed.

Lemma py_sort_in_order (l : list A) :
  Sorted (fun a b => lt (key b) (key a) = false) (py_sort key lt l).
Proof.
  induction l as [|x l IH]; simpl; [constructor|]. now apply insert_in_order.
Qed.

Lemma py_sort_in_order_fixed (l : list A) :
  Sorted (fun a b => lt (key b) (key a) = false) l -> py_sort key lt l = l.
Proof.
  induction l as [|x l IH]; intros Hs; simpl; [reflexivity|].
  apply Sorted_inv in Hs as [Hs Hx]. rewrite (IH Hs).
  destruct l as [|y l]; simpl; [reflexivity|].
  apply HdRel_inv in Hx. now rewrite Hx.
Qed.

Lemma py_sort_idempotent (l : list A) :
  py_sort key lt (py_sort key lt l) = py_sort key lt l.
Proof. apply py_sort_in_order_fixed, py_sort_in_order. Qed.

End Asymmetric.

(** An order [le] that the comparison of keys decides on the elements
    that satisfy [ok]. *)
Variable le : A -> A -> Prop.
Variable ok : A -> Prop.
Hypothesis lt_le : forall x y, lt (key y) (key x) = true -> le y x.
Hypothesis not_lt_le :
  forall x y, ok x -> ok y -> lt (key y) (key x) = false -> le x y.
Hypothesis le_trans :
  forall x y z, ok x -> ok y -> ok z -> le x y -> le y z -> le x z.

Lemma insert_sorted (x : A) (l : list A) :
  ok x -> Forall ok l -> StronglySorted le l ->
  StronglySorted le (insert key lt x l).
Proof.
  intros Hx Hl Hs. induction l as [|y l IH]; simpl.
  - constructor; constructor.
  - apply Forall_cons_1 in Hl as [Hy Hl].
    apply StronglySorted_inv in Hs as [Hs Hy_le].
    destruct (lt (key y) (key x)) eqn:E.
    + constructor; [now apply IH|].
      apply insert_Forall; [now apply lt_le | exact Hy_le].
    + constructor; [now constructor|].
      assert (Hxy : le x y) by now apply not_lt_le.
      constructor; [exact Hxy|].
      rewrite Forall_forall in Hy_le, Hl |- *. intros z Hz.
      apply (le_trans x y z); auto.
Qed.

Lemma py_sort_sorted (l : list A) :
  Forall ok l -> StronglySorted le (py_sort key lt l).
Proof.
  induction l as [|x l IH]; intros Hl; simpl; [constructor|].
  apply Forall_cons_1 in Hl as [Hx Hl].
  apply insert_sorted; auto.
  eapply Permutation_Forall; [apply py_sort_perm | exact Hl].
Qed.

End Generic.

(** ** Strings *)

Lemma str_ltb_leb (s t : string) :
  String.ltb s t = true -> String.leb s t = true.
Proof.
  unfold String.ltb, String.leb.
  destruct (String.compare s t); [discriminate | reflexivity | discriminate].
Qed.

Lemma str_not_ltb_leb (s t : string) :
  String.ltb t s = false -> String.leb s t = true.
Proof.
  unfold String.ltb, String.leb. rewrite (String.compare_antisym s t).
  destruct (String.compare t s); simpl; [reflexivity | discriminate | reflexivity].
Qed.

Lemma str_leb_not_ltb (s t : string) :
  String.leb s t = true -> String.ltb t s = false.
Proof.
  unfold String.ltb, String.leb. rewrite (String.compare_antisym s t).
  destruct (String.compare t s); simpl; [reflexivity | discriminate | reflexivity].
Qed.

Lemma str_leb_trans (s t u : string) :
  String.leb s t = true -> String.leb t u = true -> String.leb s u = true.
Proof.
  intros H1 H2. apply Is_true_true.
  change (String.le s u). transitivity t; apply Is_true_true; assumption.
Qed.

(** ** Floats that are not NaN *)

Import FloatOrder FloatOrderFacts.

Lemma lex_lt_trans (a b c : Z * Z * Z) :
  lex_lt a b -> lex_lt b c -> lex_lt a c.
Proof.
  destruct a as [[a1 a2] a3], b as [[b1 b2] b3], c as [[c1 c2] c3].
  unfold lex_lt. lia.
Qed.

Lemma lex_lt_irrefl (a : Z * Z * Z) : ~ lex_lt a a.
Proof. destruct a as [[a1 a2] a3]. unfold lex_lt. lia. Qed.

Lemma lex_lt_total (a b : Z * Z * Z) : lex_lt a b \/ a = b \/ lex_lt b a.
Proof.
  destruct a as [[a1 a2] a3], b as [[b1 b2] b3]. unfold lex_lt.
  destruct (Z.lt_total a1 b1) as [?|[?|?]];
    destruct (Z.lt_total a2 b2) as [?|[?|?]];
    destruct (Z.lt_total a3 b3) as [?|[?|?]]; subst; auto; try lia.
Qed.

Lemma ltb_false_rank (x y : float) :
  PrimFloat.is_nan x = false -> PrimFloat.is_nan y = false ->
  (x <? y)%float = false -> ~ lex_lt (frank x) (frank y).
Proof.
  intros Hx Hy H L. apply (ltb_rank x y Hx Hy) in L. congruence.
Qed.

Lemma eqb_false_rank (x y : float) :
  PrimFloat.is_nan x = false -> PrimFloat.is_nan y = false ->
  (x =? y)%float = false -> frank x <> frank y.
Proof.
  intros Hx Hy H E. apply (eqb_rank x y Hx Hy) in E. congruence.
Qed.

(** ** The order of the catalog *)

Lemma key_lt_le (x y : SlideRecord) :
  key_lt (sort_key y) (sort_key x) = true -> catalog_le y x.
Proof.
  unfold key_lt, sort_key, catalog_le.
  destruct (age y) as [b|], (age x) as [a|]; simpl;
    try discriminate; try (intros _; exact I).
  - destruct (b =? a)%float eqn:E; simpl.
    + intros H. right. split; [reflexivity | now apply str_ltb_leb].
    + intros H. now left.
  - change (999 =? 999)%float with true. simpl. apply str_ltb_leb.
Qed.

Lemma key_not_lt_le (x y : SlideRecord) :
  age_known x -> age_known y ->
  key_lt (sort_key y) (sort_key x) = false -> catalog_le x y.
Proof.
  unfold key_lt, sort_key, catalog_le, age_known.
  destruct (age y) as [b|], (age x) as [a|]; simpl;
    try discriminate; try (intros _ _ _; exact I).
  - intros Ha Hb. destruct (b =? a)%float eqn:E; simpl.
    + intros H. right. split; [|now apply str_not_ltb_leb].
      apply (eqb_rank a b Ha Hb). symmetry. now apply (eqb_rank b a Hb Ha).
    + intros H. left. apply (ltb_rank a b Ha Hb).
      pose proof (eqb_false_rank b a Hb Ha E) as Hne.
      pose proof (ltb_false_rank b a Hb Ha H) as Hnl.
      destruct (lex_lt_total (frank a) (frank b)) as [?|[?|?]];
        [assumption | congruence | contradiction].
  - intros _ _. change (999 =? 999)%float with true. simpl.
    apply str_not_ltb_leb.
Qed.

Lemma catalog_le_trans (x y z : SlideRecord) :
  age_known x -> age_known y -> age_known z ->
  catalog_le x y -> catalog_le y z -> catalog_le x z.
Proof.
  unfold catalog_le, age_known.
  destruct (age x) as [a|], (age y) as [b|], (age z) as [c|];
    try tauto; intros Ha Hb Hc.
  - rewrite (ltb_rank a b Ha Hb), (eqb_rank a b Ha Hb),
      (ltb_rank b c Hb Hc), (eqb_rank b c Hb Hc),
      (ltb_rank a c Ha Hc), (eqb_rank a c Ha Hc).
    intros [L1|[E1 S1]] [L2|[E2 S2]].
    + left. eapply lex_lt_trans; eassumption.
    + left. now rewrite <- E2.
    + left. now rewrite E1.
    + right. split; [congruence | eapply str_leb_trans; eassumption].
  - apply str_leb_trans.
Qed.

(** The comparison of keys is asymmetric, NaN or not. *)
Lemma key_lt_asym (k1 k2 : bool * float * string) :
  key_lt k1 k2 = true -> key_lt k2 k1 = false.
Proof.
  destruct k1 as [[n1 a1] s1], k2 as [[n2 a2] s2]. unfold key_lt.
  destruct n1, n2; simpl; try discriminate; try reflexivity.
  - destruct (a1 =? a2)%float eqn:E; simpl.
    + destruct (eqb_true_not_nan _ _ E) as [H1 H2].
      apply (eqb_rank a1 a2 H1 H2) in E. symmetry in E.
      apply (eqb_rank a2 a1 H2 H1) in E. rewrite E. simpl.
      intros H. now apply str_leb_not_ltb, str_ltb_leb.
    + intros L. destruct (ltb_true_not_nan _ _ L) as [H1 H2].
      apply (ltb_rank a1 a2 H1 H2) in L.
      destruct (a2 =? a1)%float eqn:E'; simpl.
      * apply (eqb_rank a2 a1 H2 H1) in E'. rewrite E' in L.
        destruct (lex_lt_irrefl _ L).
      * destruct (a2 <? a1)%float eqn:L'; [|reflexivity].
        apply (ltb_rank a2 a1 H2 H1) in L'.
        destruct (lex_lt_irrefl _ (lex_lt_trans _ _ _ L L')).
  - destruct (a1 =? a2)%float eqn:E; simpl.
    + destruct (eqb_true_not_nan _ _ E) as [H1 H2].
      apply (eqb_rank a1 a2 H1 H2) in E. symmetry in E.
      apply (eqb_rank a2 a1 H2 H1) in E. rewrite E. simpl.
      intros H. now apply str_leb_not_ltb, str_ltb_leb.
    + intros L. destruct (ltb_true_not_nan _ _ L) as [H1 H2].
      apply (ltb_rank a1 a2 H1 H2) in L.
      destruct (a2 =? a1)%float eqn:E'; simpl.
      * apply (eqb_rank a2 a1 H2 H1) in E'. rewrite E' in L.
        destruct (lex_lt_irrefl _ L).
      * destruct (a2 <? a1)%float eqn:L'; [|reflexivity].
        apply (ltb_rank a2 a1 H2 H1) in L'.
        destruct (lex_lt_irrefl _ (lex_lt_trans _ _ _ L L')).
Qed.

(** Sorting a catalog twice is sorting it once, whatever the ages. *)
Lemma sort_catalog_idempotent (l : list SlideRecord) :
  sort_catalog (sort_catalog l) = sort_catalog l.
Proof. apply (py_sort_idempotent sort_key key_lt key_lt_asym). Qed.

(** A list of records with known ages is put in the order of the
    catalog. *)
Lemma sort_catalog_sorted (l : list SlideRecord) :
  Forall age_known l ->
  Permutation l (sort_catalog l)
  /\ StronglySorted catalog_le (sort_catalog l).
Proof.
  intros Hl. unfold sort_catalog. split; [apply py_sort_perm|].
  exact (py_sort_sorted sort_key key_lt catalog_le age_known
           key_lt_le key_not_lt_le catalog_le_trans l Hl).
Qed.

End SortFacts.

(* ===================================================================== *)
(** * Properties of the Path Resolver and the Image Catalog Builder *)
(* ===================================================================== *)

Module CatalogFacts.
Import PyStr Extractor Catalog SortFacts.

Section Builder.
Variable os : Platform.
Variable age_mapping : gmap string float.

Lemma step_classify (st : state) (raw : string) :
  step os age_mapping st raw =
  match classify os age_mapping raw with
  | Present r =>
      {| image_data := image_data st ++ [r];
         missing_images := missing_images st; log := log st |}
  | Missing r =>
      {| image_data := image_data st;
         missing_images := missing_images st ++ [r]; log := log st |}
  | Skipped d =>
      {| image_data := image_data st;
         missing_images := missing_images st; log := log st ++ [d] |}
  end.
Proof.
  unfold step, classify. destruct (resolve_path os raw) as [p|fn]; [|reflexivity].
  destruct (extract_subject_id_from_filename (basename os p)); [|reflexivity].
  destruct (path_exists os p); reflexivity.
Qed.

(** The loop treats each path on its own: each accumulator is the list
    of what the paths add to it, in order. *)
Lemma fold_step (image_paths : list string) (st : state) :
  let st' := fold_left (step os age_mapping) image_paths st in
  image_data st'
  = image_data st
    ++ omap (fun raw => present_of (classify os age_mapping raw)) image_paths
  /\ missing_images st'
     = missing_images st
       ++ omap (fun raw => missing_of (classify os age_mapping raw))
               image_paths
  /\ log st'
     = log st
       ++ omap (fun raw => skipped_of (classify os age_mapping raw))
               image_paths.
Proof.
  revert st; induction image_paths as [|raw l IH]; intros st; simpl.
  - now rewrite !List.app_nil_r.
  - destruct (IH (step os age_mapping st raw)) as (H1 & H2 & H3).
    rewrite H1, H2, H3, step_classify.
    destruct (classify os age_mapping raw); simpl;
      rewrite <- ?List.app_assoc; simpl; auto.
Qed.

Lemma image_data_build (image_paths : list string) :
  image_data (build_catalog os age_mapping image_paths)
  = omap (fun raw => present_of (classify os age_mapping raw)) image_paths.
Proof. exact (proj1 (fold_step image_paths initial)). Qed.

Lemma missing_images_build (image_paths : list string) :
  missing_images (build_catalog os age_mapping image_paths)
  = omap (fun raw => missing_of (classify os age_mapping raw)) image_paths.
Proof. exact (proj1 (proj2 (fold_step image_paths initial))). Qed.

Lemma log_build (image_paths : list string) :
  log (build_catalog os age_mapping image_paths)
  = omap (fun raw => skipped_of (classify os age_mapping raw)) image_paths.
Proof. exact (proj2 (proj2 (fold_step image_paths initial))). Qed.

Lemma present_perm (image_paths : list string) :
  Permutation
    (omap (fun raw => present_of (classify os age_mapping raw)) image_paths)
    (present os age_mapping image_paths).
Proof.
  unfold present, sort_catalog. rewrite image_data_build. apply py_sort_perm.
Qed.

(** The age of a record is the mapping's, so it is a number when all
    ages of the mapping are. *)
Lemma classify_age_known (raw : string) (r : SlideRecord) :
  map_Forall (fun _ a => PrimFloat.is_nan a = false) age_mapping ->
  present_of (classify os age_mapping raw) = Some r -> age_known r.
Proof.
  intros Hm. unfold classify.
  destruct (resolve_path os raw) as [p|fn]; [|discriminate].
  destruct (extract_subject_id_from_filename (basename os p)) as [sid|];
    [|discriminate].
  destruct (path_exists os p); [|discriminate].
  simpl. intros H; inversion H; subst r; clear H.
  unfold age_known. simpl.
  destruct (age_mapping !! sid) as [a|] eqn:E; [|exact I].
  exact (proj1 (map_Forall_lookup _ _) Hm sid a E).
Qed.

Lemma image_data_age_known (image_paths : list string) :
  map_Forall (fun _ a => PrimFloat.is_nan a = false) age_mapping ->
  Forall age_known (image_data (build_catalog os age_mapping image_paths)).
Proof.
  intros Hm. rewrite image_data_build.
  induction image_paths as [|raw l IH]; simpl; [constructor|].
  destruct (present_of (classify os age_mapping raw)) as [r|] eqn:E;
    [|exact IH].
  constructor; [|exact IH]. eapply classify_age_known; eassumption.
Qed.

End Builder.

Lemma sorted_after {A : Type} (R : A -> A -> Prop)
    (before after : list A) (x : A) :
  StronglySorted R (before ++ x :: after) -> Forall (R x) after.
Proof.
  induction before as [|b before IH]; simpl; intros Hs;
    apply StronglySorted_inv in Hs as [Hs Hx]; [exact Hx | now apply IH].
Qed.

Lemma no_age_after (l before after : list SlideRecord) (x : SlideRecord) :
  StronglySorted catalog_le l -> l = before ++ x :: after ->
  age x = None -> Forall (fun y => age y = None) after.
Proof.
  intros Hs -> Hx. apply sorted_after in Hs.
  eapply List.Forall_impl; [|exact Hs].
  intros y Hle. unfold catalog_le in Hle. rewrite Hx in Hle.
  destruct (age y); [destruct Hle | reflexivity].
Qed.

(** C1. Sorting the present catalog again returns the same sequence.
    With the ages of the metadata (none of them NaN), the present catalog
    is the accepted records rearranged so that every record comes before
    every later one in the order of the catalog: a record with an age
    before any without (after a record without an age come only records
    without), ages ascending, equal ages and missing ages by subject id. *)
Theorem present_catalog_sorted (os : Platform)
    (age_mapping : gmap string float) (image_paths : list string) :
  sort_catalog (present os age_mapping image_paths)
  = present os age_mapping image_paths
  /\ Permutation (image_data (build_catalog os age_mapping image_paths))
                 (present os age_mapping image_paths)
  /\ (map_Forall (fun _ a => PrimFloat.is_nan a = false) age_mapping ->
      StronglySorted catalog_le (present os age_mapping image_paths)
      /\ forall before x after,
           present os age_mapping image_paths = before ++ x :: after ->
           age x = None -> Forall (fun y => age y = None) after).
Proof.
  split; [apply sort_catalog_idempotent|].
  split; [apply py_sort_perm|].
  intros Hm.
  destruct (sort_catalog_sorted
              (image_data (build_catalog os age_mapping image_paths))
              (image_data_age_known os age_mapping image_paths Hm))
    as (_ & Hsorted).
  fold (present os age_mapping image_paths) in Hsorted.
  split; [exact Hsorted|].
  intros before x after. now apply no_age_after.
Qed.

(** A witness of C1: three files on disk, two subjects with an age. *)
Lemma present_catalog_sorted_witness :
  StronglySorted catalog_le
    (present (posix (disk_of three_paths)) three_ages three_paths)
  /\ map subject_id
       (present (posix (disk_of three_paths)) three_ages three_paths)
     = ["MUH3"; "MUH2"; "MUH1"].
Proof.
  split; [|vm_compute; reflexivity].
  refine (proj1 (proj2 (proj2 (present_catalog_sorted
            (posix (disk_of three_paths)) three_ages three_paths)) _)).
  unfold three_ages.
  apply map_Forall_insert_2; [vm_compute; reflexivity|].
  apply map_Forall_insert_2; [vm_compute; reflexivity|].
  apply map_Forall_empty.
Defined.

Section Resolution.
Variable os : Platform.
Variable age_mapping : gmap string float.

Lemma present_in (before after : list string) (raw : string)
    (r : SlideRecord) :
  classify os age_mapping raw = Present r ->
  In r (present os age_mapping (before ++ raw :: after)).
Proof.
  intros Hc. eapply Permutation_in; [apply present_perm|].
  rewrite omap_app. apply in_or_app. right. simpl. rewrite Hc. simpl.
  now left.
Qed.

Lemma skipped_drop (before after : list string) (raw : string) (d : diag) :
  classify os age_mapping raw = Skipped d ->
  present os age_mapping (before ++ raw :: after)
  = present os age_mapping (before ++ after)
  /\ missing os age_mapping (before ++ raw :: after)
     = missing os age_mapping (before ++ after)
  /\ In d (log (build_catalog os age_mapping (before ++ raw :: after))).
Proof.
  intros Hc. unfold present, missing.
  rewrite !image_data_build, !missing_images_build, log_build, !omap_app.
  simpl. rewrite Hc. simpl. repeat split.
  apply in_or_app. right. now left.
Qed.

Lemma find_none (f : string -> bool) (l : list string) :
  (forall q, In q l -> f q = false) -> find f l = None.
Proof.
  induction l as [|x l IH]; intros H; simpl; [reflexivity|].
  rewrite (H x (or_introl eq_refl)). apply IH. intros q Hq. apply H. now right.
Qed.

(** C2, amended. On a platform other than Windows, a path that starts
    with the drive prefix resolves to the first candidate location that
    exists (the bare filename when it is in the current directory), and
    its record enters the present catalog when the filename follows the
    convention; when no candidate exists the path is skipped with a
    diagnostic: it adds nothing to the present catalog nor to the missing
    list, and nothing is raised. *)
Theorem foreign_drive_resolution (raw : string) :
  os_name_nt os = false ->
  startswith (normalize os raw) "C:" = true ->
  let filename := basename os (normalize os raw) in
  (path_exists os filename = true ->
   resolve_path os raw = Resolved filename)
  /\ (forall q,
        find (path_exists os) (possible_paths filename) = Some q ->
        resolve_path os raw = Resolved q
        /\ In q (possible_paths filename) /\ path_exists os q = true
        /\ forall sid before after,
             extract_subject_id_from_filename (basename os q) = Some sid ->
             In {| path := q; subject_id := sid;
                   age := age_mapping !! sid; filename := basename os q |}
                (present os age_mapping (before ++ raw :: after)))
  /\ ((forall q, In q (possible_paths filename) -> path_exists os q = false) ->
      resolve_path os raw = NotFound filename
      /\ forall before after,
           present os age_mapping (before ++ raw :: after)
           = present os age_mapping (before ++ after)
           /\ missing os age_mapping (before ++ raw :: after)
              = missing os age_mapping (before ++ after)
           /\ In (CouldNotFindImage filename)
                 (log (build_catalog os age_mapping
                         (before ++ raw :: after)))).
Proof.
  intros Hnt Hc filename.
  assert (Hres : resolve_path os raw =
                 match find (path_exists os) (possible_paths filename) with
                 | Some q => Resolved q
                 | None => NotFound filename
                 end).
  { unfold resolve_path. now rewrite Hc, Hnt. }
  split; [|split].
  - intros Hex. rewrite Hres. simpl. now rewrite Hex.
  - intros q Hq. rewrite Hres, Hq.
    destruct (find_some _ _ Hq) as [Hin Hex].
    repeat split; try assumption.
    intros sid before after Hsid. apply present_in.
    unfold classify. now rewrite Hres, Hq, Hsid, Hex.
  - intros Hnone. rewrite Hres, (find_none _ _ Hnone). split; [reflexivity|].
    intros before after. apply skipped_drop.
    unfold classify. now rewrite Hres, (find_none _ _ Hnone).
Qed.

End Resolution.

(** C2, as stated, fails: with no candidate on disk the path is not in
    the missing list; and only the prefix [C:] is treated as a foreign
    drive, so under another letter the file in the current directory is
    not found. *)
Lemma unresolved_path_not_in_missing :
  os_name_nt (posix (disk_of [])) = false
  /\ startswith (normalize (posix (disk_of [])) windows_path) "C:" = true
  /\ resolve_path (posix (disk_of [])) windows_path = NotFound local_name
  /\ missing (posix (disk_of [])) ∅ [windows_path] = []
  /\ present (posix (disk_of [])) ∅ [windows_path] = []
  /\ resolve_path (posix (disk_of [local_name])) other_drive_path
     = Resolved "D:/data/stride_change_MUH1396_fixed_grid.png"
  /\ present (posix (disk_of [local_name])) ∅ [other_drive_path] = [].
Proof. repeat split; vm_compute; reflexivity. Qed.

(** A witness of C2: the file is in the current directory. *)
Lemma foreign_drive_resolution_witness :
  resolve_path (posix (disk_of [local_name])) windows_path
  = Resolved local_name.
Proof.
  refine (proj1 (foreign_drive_resolution (posix (disk_of [local_name])) ∅
                   windows_path _ _) _); vm_compute; reflexivity.
Defined.

(** C6, as stated, fails: a path given twice has two records. *)
Lemma repeated_path_kept_twice :
  map path (present (posix (disk_of [local_name])) ∅ [local_name; local_name])
  = [local_name; local_name]
  /\ ~ NoDup (map path (present (posix (disk_of [local_name])) ∅
                          [local_name; local_name])).
Proof.
  assert (H : map path (present (posix (disk_of [local_name])) ∅
                          [local_name; local_name])
              = [local_name; local_name]) by (vm_compute; reflexivity).
  split; [exact H|]. rewrite H. intros Hnd.
  apply NoDup_cons_1_1 in Hnd. apply Hnd. now left.
Qed.

Lemma accepted_path_classify (os : Platform)
    (age_mapping : gmap string float) (raw : string) :
  accepted_path os raw
  = option_map path (present_of (classify os age_mapping raw)).
Proof.
  unfold accepted_path, classify.
  destruct (resolve_path os raw) as [p|fn]; [|reflexivity].
  destruct (extract_subject_id_from_filename (basename os p)); [|reflexivity].
  destruct (path_exists os p); reflexivity.
Qed.

Lemma map_path_omap (os : Platform) (age_mapping : gmap string float)
    (image_paths : list string) :
  map path (omap (fun raw => present_of (classify os age_mapping raw))
                 image_paths)
  = omap (accepted_path os) image_paths.
Proof.
  induction image_paths as [|raw l IH]; simpl; [reflexivity|].
  rewrite (accepted_path_classify os age_mapping raw).
  destruct (present_of (classify os age_mapping raw)); simpl;
    [f_equal|]; exact IH.
Qed.

Lemma length_omap_le {A B : Type} (f : A -> option B) (l : list A) :
  length (omap f l) <= length l.
Proof.
  induction l as [|x l IH]; [simpl; lia|].
  change (omap f (x :: l))
    with (match f x with Some y => y :: omap f l | None => omap f l end).
  destruct (f x); simpl; lia.
Qed.

(** C6, amended. The present catalog holds one record for each input
    entry that is accepted (its resolved path exists and its filename
    follows the convention), a repeated path included each time: the paths
    of the catalog are the resolved paths of the accepted entries with
    their multiplicity, never more than the entries given, and distinct
    exactly when those are. *)
Theorem present_one_record_per_entry (os : Platform)
    (age_mapping : gmap string float) (image_paths : list string) :
  Permutation (map path (present os age_mapping image_paths))
              (omap (accepted_path os) image_paths)
  /\ length (present os age_mapping image_paths) <= length image_paths
  /\ (NoDup (map path (present os age_mapping image_paths))
      <-> NoDup (omap (accepted_path os) image_paths)).
Proof.
  assert (Hp : Permutation (map path (present os age_mapping image_paths))
                           (omap (accepted_path os) image_paths)).
  { rewrite <- (map_path_omap os age_mapping).
    apply Permutation_map. symmetry. apply present_perm. }
  split; [exact Hp|]. split.
  - rewrite <- (Permutation_length (present_perm os age_mapping image_paths)).
    apply length_omap_le.
  - now rewrite Hp.
Qed.

(** A witness of C6: three distinct files give three distinct records. *)
Lemma present_one_record_per_entry_witness :
  NoDup (map path (present (posix (disk_of three_paths)) three_ages
                           three_paths)).
Proof.
  refine (proj2 (proj2 (proj2 (present_one_record_per_entry
            (posix (disk_of three_paths)) three_ages three_paths))) _).
  apply (bool_decide_unpack _). vm_compute. exact I.
Defined.

End CatalogFacts.

(* ===================================================================== *)
(** * Properties of the Layout Engine *)
(* ===================================================================== *)

Module LayoutFacts.
Import Layout.

Lemma Inches_half : Inches 0.5 = 457200%Z.
Proof. vm_compute. reflexivity. Qed.

Lemma Inches_title_band : Inches 1.2 = 1097280%Z.
Proof. vm_compute. reflexivity. Qed.

Lemma Inches_bottom_margin : Inches 0.3 = 274320%Z.
Proof. vm_compute. reflexivity. Qed.

Lemma Inches_side_margins : Inches 1.0 = 914400%Z.
Proof. vm_compute. reflexivity. Qed.

(** Centering: the truncated value of the half-integer. *)
Lemma py_int_horizontal_center (available_width actual_width : Z) :
  (actual_width < available_width)%Z ->
  py_int (horizontal_center available_width actual_width)
  = (Inches 0.5 + (available_width - actual_width) / 2)%Z.
Proof.
  intros Hlt. unfold horizontal_center. rewrite Inches_half.
  set (d := (available_width - actual_width)%Z).
  assert (Hd : (0 < d)%Z) by (unfold d; lia).
  unfold py_int, Qle_bool, Qfloor, Qplus, Qdiv, Qmult, Qinv, inject_Z.
  simpl Qnum. simpl Qden.
  replace (0 * _ <=? _)%Z with true.
  - rewrite !Z.mul_1_r. change (Z.pos (1 * 2)) with 2%Z.
    change (Z.pos (1 * (1 * 2))) with 2%Z.
    rewrite Z.div_add_l by lia. reflexivity.
  - symmetry. apply Z.leb_le. lia.
Qed.

(** C5. A picture is placed with the height left under the title band
    and above the bottom margin, at the fixed top offset, and with the
    width the library derives for that height. When that width is below
    the available width the left offset is the side margin plus half of
    the difference (lengths are whole EMU, so an odd difference loses its
    half unit); otherwise it stays at the side margin. On a canvas with
    6.0 by 10.0 inches available, ratio 1.2 gives width 7.2 and left
    offset 0.5 + 1.4 inches, ratio 2.0 gives width 12.0 and left offset
    0.5 inches. *)
Theorem place_picture_layout (add_picture : picture_library)
    (slide_width slide_height : Z) (img_path : string) :
  match place_picture add_picture slide_width slide_height img_path with
  | Some pic =>
      add_picture img_path (Inches 0.5) (Inches 1.2)
                  (slide_height - Inches 1.2 - Inches 0.3)%Z
      = Some (width pic)
      /\ height pic = (slide_height - Inches 1.2 - Inches 0.3)%Z
      /\ top pic = Inches 1.2
      /\ ((width pic < available_width slide_width)%Z ->
          left pic
          = (Inches 0.5 + (available_width slide_width - width pic) / 2)%Z)
      /\ ((available_width slide_width <= width pic)%Z ->
          left pic = Inches 0.5)
  | None =>
      add_picture img_path (Inches 0.5) (Inches 1.2)
                  (slide_height - Inches 1.2 - Inches 0.3)%Z
      = None
  end
  /\ available_height (Inches 7.5) = Inches 6.0
  /\ available_width (Inches 11.0) = Inches 10.0
  /\ place_picture (aspect_library 6 5) (Inches 11.0) (Inches 7.5) img_path
     = Some {| image := img_path; left := Inches 1.9; top := Inches 1.2;
               width := Inches 7.2; height := Inches 6.0 |}
  /\ place_picture (aspect_library 2 1) (Inches 11.0) (Inches 7.5) img_path
     = Some {| image := img_path; left := Inches 0.5; top := Inches 1.2;
               width := Inches 12.0; height := Inches 6.0 |}.
Proof.
  split; [|repeat split; vm_compute; reflexivity].
  unfold place_picture. fold (available_height slide_height).
  destruct (add_picture img_path (Inches 0.5) (Inches 1.2)
              (available_height slide_height)) as [w|] eqn:E; [|reflexivity].
  destruct (w <? available_width slide_width)%Z eqn:Hw; simpl.
  - apply Z.ltb_lt in Hw. repeat split; try reflexivity.
    + intros _. now apply py_int_horizontal_center.
    + lia.
  - apply Z.ltb_ge in Hw. repeat split; try reflexivity. lia.
Qed.

End LayoutFacts.

(* ===================================================================== *)
(** * Properties of the Document Assembler *)
(* ===================================================================== *)

Module AssemblerFacts.
Import Catalog Layout Assembler SortFacts CatalogFacts.

Section Slides.
Variable lib : Library.
Variables prs_width prs_height : Z.

Lemma add_image_slide_spec (n : nat) (slides : list Slide)
    (log : list diag) (entry : nat * SlideRecord) :
  add_image_slide lib prs_width prs_height n (slides, log) entry
  = (slides ++ [slide_of lib prs_width prs_height n entry],
     log ++ match printed_of lib prs_width prs_height entry with
            | Some d => [d]
            | None => []
            end).
Proof.
  destruct entry as [i r]. unfold add_image_slide, slide_of, printed_of. simpl.
  destruct (place_picture (add_picture lib) prs_width prs_height (path r));
    [now rewrite List.app_nil_r | reflexivity].
Qed.

(** The loop adds one slide per entry, whatever happens to the picture. *)
Lemma fold_add_image_slide (n : nat) (entries : list (nat * SlideRecord))
    (slides : list Slide) (log : list diag) :
  fold_left (add_image_slide lib prs_width prs_height n) entries (slides, log)
  = (slides ++ map (slide_of lib prs_width prs_height n) entries,
     log ++ omap (printed_of lib prs_width prs_height) entries).
Proof.
  revert slides log; induction entries as [|e es IH]; intros slides log.
  - simpl. now rewrite !List.app_nil_r.
  - cbn [fold_left]. rewrite add_image_slide_spec, IH.
    rewrite <- !List.app_assoc. f_equal. f_equal.
    change (omap (printed_of lib prs_width prs_height) (e :: es))
      with (match printed_of lib prs_width prs_height e with
            | Some d => d :: omap (printed_of lib prs_width prs_height) es
            | None => omap (printed_of lib prs_width prs_height) es
            end).
    destruct (printed_of lib prs_width prs_height e); reflexivity.
Qed.

Lemma add_image_slides_map (image_data : list SlideRecord) :
  fst (add_image_slides lib prs_width prs_height image_data)
  = map (slide_of lib prs_width prs_height (length image_data))
        (combine (seq 1 (length image_data)) image_data).
Proof. unfold add_image_slides. now rewrite fold_add_image_slide. Qed.

Lemma length_numbered (image_data : list SlideRecord) (start : nat) :
  length (combine (seq start (length image_data)) image_data)
  = length image_data.
Proof. rewrite length_combine, length_seq. lia. Qed.

Lemma map_snd_numbered (image_data : list SlideRecord) (start : nat) :
  map snd (combine (seq start (length image_data)) image_data) = image_data.
Proof.
  revert start; induction image_data as [|r l IH]; intros start; simpl;
    [reflexivity|]. now rewrite IH.
Qed.

Lemma map_fst_numbered (image_data : list SlideRecord) (start : nat) :
  map fst (combine (seq start (length image_data)) image_data)
  = seq start (length image_data).
Proof.
  revert start; induction image_data as [|r l IH]; intros start; simpl;
    [reflexivity|]. now rewrite IH.
Qed.

End Slides.

(** C8. Whatever the library does with each picture, the loop gives
    every catalog entry its slide, in order and numbered from 1, with the
    entry's header; the slide carries the placed picture, or the error
    text naming the file when placing it raised, and then the error is
    printed. So the slides of two libraries differ only where the
    libraries do, and a run that saves returns the document with a slide
    for every entry. *)
Theorem render_failure_isolated (lib : Library)
    (prs_width prs_height : Z) (image_data : list SlideRecord) :
  let slides := fst (add_image_slides lib prs_width prs_height image_data) in
  let log := snd (add_image_slides lib prs_width prs_height image_data) in
  length slides = length image_data
  /\ map (fun s => header_subject (header s)) slides
     = map subject_id image_data
  /\ map (fun s => slide_number (header s)) slides
     = seq 1 (length image_data)
  /\ Forall2
       (fun img_info s =>
          header_age (header s) = age img_info
          /\ slide_count (header s) = length image_data
          /\ match add_picture lib (path img_info) (Inches 0.5) (Inches 1.2)
                               (available_height prs_height) with
             | Some _ => exists pic,
                 body s = BodyPicture pic /\ image pic = path img_info
             | None => body s = BodyErrorText (filename img_info)
             end)
       image_data slides
  /\ (forall img_info,
        In img_info image_data ->
        add_picture lib (path img_info) (Inches 0.5) (Inches 1.2)
                    (available_height prs_height) = None ->
        In (ErrorAddingImage (filename img_info)) log)
  /\ (forall os py read_csv image_paths output_filename metadata_path title,
        image_data
        = present os (fst (load_ages os py read_csv metadata_path))
                  image_paths ->
        prs_width = Inches 13.333 -> prs_height = Inches 7.5 ->
        image_data <> [] ->
        save lib output_filename = true ->
        let run := create_powerpoint_from_images os py read_csv lib
                     image_paths output_filename metadata_path title in
        returned run = output_filename
        /\ option_map image_slides (document run) = Some slides).
Proof.
  intros slides log. unfold slides, log. clear slides log.
  unfold add_image_slides. rewrite fold_add_image_slide. simpl fst. simpl snd.
  set (n := length image_data).
  set (entries := combine (seq 1 n) image_data).
  assert (Hsnd : map snd entries = image_data)
    by apply map_snd_numbered.
  assert (Hfst : map fst entries = seq 1 n) by apply map_fst_numbered.
  split; [|split; [|split; [|split; [|split]]]].
  - rewrite length_map. apply length_numbered.
  - rewrite map_map. simpl. now rewrite <- Hsnd, map_map.
  - rewrite map_map. simpl. exact Hfst.
  - rewrite <- Hsnd at 1. clear Hsnd Hfst.
    induction entries as [|e es IH]; simpl; constructor; [|exact IH].
    simpl. repeat split.
    unfold place_picture. fold (available_height prs_height).
    destruct (add_picture lib (path e.2) (Inches 0.5) (Inches 1.2)
                (available_height prs_height)) as [w|]; [|reflexivity].
    destruct (w <? available_width prs_width)%Z; eexists; split; reflexivity.
  - intros img_info Hin Hnone. rewrite <- Hsnd in Hin.
    apply in_map_iff in Hin as (e & <- & Hin).
    clear Hsnd Hfst. induction entries as [|e0 es IH]; [destruct Hin|].
    change (omap (printed_of lib prs_width prs_height) (e0 :: es))
      with (match printed_of lib prs_width prs_height e0 with
            | Some d => d :: omap (printed_of lib prs_width prs_height) es
            | None => omap (printed_of lib prs_width prs_height) es
            end).
    destruct Hin as [->|Hin].
    + unfold printed_of at 1, place_picture.
      fold (available_height prs_height). rewrite Hnone. now left.
    + destruct (printed_of lib prs_width prs_height e0);
        [right|]; now apply IH.
  - intros os py read_csv image_paths output_filename metadata_path title
      Hdata Hw Hh Hne Hsave.
    unfold entries, n. clear Hsnd Hfst entries n. subst prs_width prs_height.
    unfold create_powerpoint_from_images.
    destruct (load_ages os py read_csv metadata_path) as [m log0].
    simpl in Hdata. unfold present in Hdata.
    destruct (Catalog.image_data (build_catalog os m image_paths))
      as [|r l] eqn:Ed.
    { simpl in Hdata. contradiction. }
    rewrite <- Hdata.
    destruct (add_image_slides lib (Inches 13.333) (Inches 7.5) image_data)
      as [sl lg] eqn:Es.
    rewrite Hsave. simpl. split; [reflexivity|].
    f_equal. change sl with (fst (sl, lg)). rewrite <- Es.
    unfold add_image_slides. now rewrite fold_add_image_slide.
Qed.

(** A witness of C8: the second of three pictures cannot be placed. *)
Lemma render_failure_isolated_witness :
  map body
      (fst (add_image_slides
              (failing_on "stride_change_MUH2_fixed_grid.png")
              (Inches 13.333) (Inches 7.5)
              (present (posix (disk_of three_paths)) three_ages three_paths)))
  = [ BodyPicture {| image := "stride_change_MUH3_fixed_grid.png";
                     left := 3352647; top := 1097280;
                     width := 5486400; height := 5486400 |};
      BodyErrorText "stride_change_MUH2_fixed_grid.png";
      BodyPicture {| image := "stride_change_MUH1_fixed_grid.png";
                     left := 3352647; top := 1097280;
                     width := 5486400; height := 5486400 |} ]
  /\ length
       (fst (add_image_slides
               (failing_on "stride_change_MUH2_fixed_grid.png")
               (Inches 13.333) (Inches 7.5)
               (present (posix (disk_of three_paths)) three_ages three_paths)))
     = length (present (posix (disk_of three_paths)) three_ages three_paths).
Proof.
  split; [vm_compute; reflexivity|].
  exact (proj1 (render_failure_isolated
                  (failing_on "stride_change_MUH2_fixed_grid.png")
                  (Inches 13.333) (Inches 7.5)
                  (present (posix (disk_of three_paths)) three_ages
                           three_paths))).
Defined.

Section MissingMetadata.
Variable os : Platform.
Variable py : Metadata.Builtins.
Variable read_csv : string -> read_result Metadata.DataFrame.

Lemma load_ages_unavailable (metadata_path : option string) :
  metadata_unavailable os read_csv metadata_path ->
  fst (load_ages os py read_csv metadata_path) = ∅.
Proof.
  unfold metadata_unavailable, load_ages.
  destruct metadata_path as [p|]; [|reflexivity].
  destruct (PyStr.nonempty p && path_exists os p); [|reflexivity].
  intros [H|[H|H]]; [discriminate | rewrite H | rewrite H]; reflexivity.
Qed.

Lemma classify_no_age (raw : string) (r : SlideRecord) :
  present_of (classify os ∅ raw) = Some r -> age r = None.
Proof.
  unfold classify.
  destruct (resolve_path os raw) as [p|fn]; [|discriminate].
  destruct (Extractor.extract_subject_id_from_filename (basename os p))
    as [sid|]; [|discriminate].
  destruct (path_exists os p); [|discriminate].
  simpl. intros H; inversion H; subst r. simpl. apply lookup_empty.
Qed.

Lemma present_no_age (image_paths : list string) :
  Forall (fun r => age r = None) (present os ∅ image_paths).
Proof.
  eapply Permutation_Forall; [apply present_perm|].
  induction image_paths as [|raw l IH]; [constructor|].
  change (omap (fun raw => present_of (classify os ∅ raw)) (raw :: l))
    with (match present_of (classify os ∅ raw) with
          | Some r => r :: omap (fun raw => present_of (classify os ∅ raw)) l
          | None => omap (fun raw => present_of (classify os ∅ raw)) l
          end).
  destruct (present_of (classify os ∅ raw)) as [r|] eqn:E; [|exact IH].
  constructor; [now apply (classify_no_age raw) | exact IH].
Qed.

End MissingMetadata.

Lemma no_age_sorted_by_id (l : list SlideRecord) :
  Forall (fun r => age r = None) l ->
  StronglySorted catalog_le l ->
  StronglySorted (fun a b => String.leb a b = true) (map subject_id l).
Proof.
  intros Hn Hs. induction Hs as [|x l Hs IH Hx]; simpl; constructor.
  - apply IH. now apply Forall_cons_1 in Hn as [_ Hn].
  - apply Forall_cons_1 in Hn as [Hxn Hn].
    rewrite List.Forall_forall in Hx, Hn. apply List.Forall_forall.
    intros id Hid. apply in_map_iff in Hid as (y & <- & Hy).
    specialize (Hx y Hy). unfold catalog_le in Hx.
    now rewrite Hxn, (Hn y Hy) in Hx.
Qed.

Lemma no_age_known (l : list SlideRecord) :
  Forall (fun r => age r = None) l -> Forall age_known l.
Proof.
  intros Hl. eapply List.Forall_impl; [|exact Hl].
  intros r H. unfold age_known. now rewrite H.
Qed.

(** What the run prints after the loading of the ages says nothing of
    the metadata. *)
Lemma catalog_log_silent (os : Platform) (age_mapping : gmap string float)
    (image_paths : list string) :
  existsb about_metadata (log (build_catalog os age_mapping image_paths))
  = false.
Proof.
  rewrite log_build.
  induction image_paths as [|raw l IH]; [reflexivity|].
  change (omap (fun raw => skipped_of (classify os age_mapping raw))
               (raw :: l))
    with (match skipped_of (classify os age_mapping raw) with
          | Some d =>
              d :: omap (fun raw => skipped_of (classify os age_mapping raw)) l
          | None => omap (fun raw => skipped_of (classify os age_mapping raw)) l
          end).
  unfold classify at 1.
  destruct (resolve_path os raw) as [q|fn]; [|exact IH].
  cbv zeta.
  destruct (Extractor.extract_subject_id_from_filename (basename os q));
    [destruct (path_exists os q)|]; exact IH.
Qed.

Lemma slides_log_silent (lib : Library) (prs_width prs_height : Z)
    (image_data : list SlideRecord) :
  existsb about_metadata
    (snd (add_image_slides lib prs_width prs_height image_data))
  = false.
Proof.
  unfold add_image_slides. rewrite fold_add_image_slide. simpl.
  induction (combine (seq 1 (length image_data)) image_data)
    as [|e es IH]; [reflexivity|].
  change (omap (printed_of lib prs_width prs_height) (e :: es))
    with (match printed_of lib prs_width prs_height e with
          | Some d => d :: omap (printed_of lib prs_width prs_height) es
          | None => omap (printed_of lib prs_width prs_height) es
          end).
  unfold printed_of at 1.
  destruct (place_picture (add_picture lib) prs_width prs_height
              (path (snd e))); exact IH.
Qed.

Lemma printed_after_metadata (os : Platform) (py : Metadata.Builtins)
    (read_csv : string -> read_result Metadata.DataFrame) (lib : Library)
    (image_paths : list string) (output_filename : string)
    (metadata_path : option string) (title : string) :
  exists rest,
    printed (create_powerpoint_from_images os py read_csv lib image_paths
               output_filename metadata_path title)
    = snd (load_ages os py read_csv metadata_path) ++ rest
    /\ existsb about_metadata rest = false.
Proof.
  unfold create_powerpoint_from_images.
  destruct (load_ages os py read_csv metadata_path) as [m log0]. simpl snd.
  pose proof (catalog_log_silent os m image_paths) as Hlog.
  set (st := build_catalog os m image_paths) in *.
  set (tail :=
         match missing_images st with
         | [] => []
         | _ :: _ => [ImagesNotFoundOnDisk (length (missing_images st))
                        (map filename (firstn 5 (missing_images st)))]
         end).
  assert (Htail : existsb about_metadata tail = false)
    by (unfold tail; now destruct (missing_images st)).
  destruct (image_data st) as [|r l].
  - exists (log st ++ [FoundValidImages 0] ++ tail ++ [NoValidImagesFound]).
    simpl. split; [now rewrite <- !List.app_assoc|].
    rewrite existsb_app, Hlog. simpl. rewrite existsb_app, Htail.
    reflexivity.
  - pose proof (slides_log_silent lib (Inches 13.333) (Inches 7.5)
                  (sort_catalog (r :: l))) as Hslides.
    destruct (add_image_slides lib (Inches 13.333) (Inches 7.5)
                (sort_catalog (r :: l))) as [slides log2].
    simpl in Hslides.
    destruct (save lib output_filename); simpl.
    + exists (log st ++ [FoundValidImages (length (r :: l))] ++ tail ++ log2
              ++ [PresentationSaved output_filename
                    (length (sort_catalog (r :: l)))]).
      split; [now rewrite <- !List.app_assoc|].
      rewrite existsb_app, Hlog. simpl. rewrite existsb_app, Htail.
      rewrite existsb_app, Hslides. reflexivity.
    + exists (log st ++ [FoundValidImages (length (r :: l))] ++ tail ++ log2
              ++ [ErrorSavingPowerPoint]).
      split; [now rewrite <- !List.app_assoc|].
      rewrite existsb_app, Hlog. simpl. rewrite existsb_app, Htail.
      rewrite existsb_app, Hslides. reflexivity.
Qed.

(** C9, as stated, fails: when the metadata file does not exist the run
    gives its document and prints nothing about the metadata, since it
    asks [os.path.exists] first and never calls the resolver, which alone
    prints that the file was not found. *)
Lemma missing_file_not_reported :
  path_exists (posix (disk_of three_paths)) "muh_metadata.csv" = false
  /\ snd (Metadata.load_subject_metadata Metadata.no_text "muh_metadata.csv"
            (no_csv "muh_metadata.csv"))
     = [MetadataFileNotFound "muh_metadata.csv"]
  /\ returned (create_powerpoint_from_images
                 (posix (disk_of three_paths)) Metadata.no_text no_csv
                 (failing_on "") three_paths
                 "stride_change_analysis_by_age.pptx"
                 (Some "muh_metadata.csv") "Motor Learning")
     = "stride_change_analysis_by_age.pptx"
  /\ printed (create_powerpoint_from_images
                (posix (disk_of three_paths)) Metadata.no_text no_csv
                (failing_on "") three_paths
                "stride_change_analysis_by_age.pptx"
                (Some "muh_metadata.csv") "Motor Learning")
     = [FoundValidImages 3;
        PresentationSaved "stride_change_analysis_by_age.pptx" 3]
  /\ ~ In (MetadataFileNotFound "muh_metadata.csv")
          (printed (create_powerpoint_from_images
                      (posix (disk_of three_paths)) Metadata.no_text no_csv
                      (failing_on "") three_paths
                      "stride_change_analysis_by_age.pptx"
                      (Some "muh_metadata.csv") "Motor Learning")).
Proof.
  assert (Hp : printed (create_powerpoint_from_images
                          (posix (disk_of three_paths)) Metadata.no_text
                          no_csv (failing_on "") three_paths
                          "stride_change_analysis_by_age.pptx"
                          (Some "muh_metadata.csv") "Motor Learning")
               = [FoundValidImages 3;
                  PresentationSaved "stride_change_analysis_by_age.pptx" 3])
    by (vm_compute; reflexivity).
  split; [vm_compute; reflexivity|]. split; [reflexivity|].
  split; [vm_compute; reflexivity|]. split; [exact Hp|].
  rewrite Hp. intros [H|[H|[]]]; discriminate H.
Qed.

(** C9, amended. The resolver called on a file that is missing returns
    the empty mapping and prints that the file was not found, and on any
    other read error it returns the empty mapping and prints the error.
    The run calls it only for a path that exists. So when no path is
    given or no file is there, the run has an empty mapping and prints
    nothing about the metadata; when the file is there and reading it
    raises, the run has an empty mapping and starts what it prints with
    the resolver's message, the only one about the metadata. In each case,
    as soon as one image is valid and the document can be saved, the run
    returns the saved document: one slide per record, no header with an
    age, the slides in the order of the subject ids, no age range on the
    title slide. *)
Theorem missing_metadata_run (os : Platform) (py : Metadata.Builtins)
    (read_csv : string -> read_result Metadata.DataFrame) (lib : Library)
    (image_paths : list string) (output_filename : string)
    (metadata_path : option string) (title : string) :
  metadata_unavailable os read_csv metadata_path ->
  image_data (build_catalog os ∅ image_paths) <> [] ->
  save lib output_filename = true ->
  (forall p,
      Metadata.load_subject_metadata py p ReadFileNotFound
      = (∅, [MetadataFileNotFound p])
      /\ Metadata.load_subject_metadata py p ReadOtherError
         = (∅, [ErrorLoadingMetadata]))
  /\ fst (load_ages os py read_csv metadata_path) = ∅
  /\ (match metadata_path with
      | Some p => PyStr.nonempty p && path_exists os p = false
      | None => True
      end ->
      existsb about_metadata
        (printed (create_powerpoint_from_images os py read_csv lib
                    image_paths output_filename metadata_path title))
      = false)
  /\ (forall p,
        metadata_path = Some p ->
        PyStr.nonempty p && path_exists os p = true ->
        exists rest,
          printed (create_powerpoint_from_images os py read_csv lib
                     image_paths output_filename metadata_path title)
          = match read_csv p with
            | ReadFileNotFound => MetadataFileNotFound p
            | _ => ErrorLoadingMetadata
            end :: rest
          /\ existsb about_metadata rest = false)
  /\ returned (create_powerpoint_from_images os py read_csv lib
                 image_paths output_filename metadata_path title)
     = output_filename
  /\ exists prs,
       document (create_powerpoint_from_images os py read_csv lib
                   image_paths output_filename metadata_path title)
       = Some prs
       /\ length (image_slides prs) = length (present os ∅ image_paths)
       /\ Forall (fun s => header_age (header s) = None) (image_slides prs)
       /\ map (fun s => header_subject (header s)) (image_slides prs)
          = map subject_id (present os ∅ image_paths)
       /\ StronglySorted (fun a b => String.leb a b = true)
            (map (fun s => header_subject (header s)) (image_slides prs))
       /\ age_range (title_slide prs) = None.
Proof.
  intros Hun Hne Hsave.
  pose proof (load_ages_unavailable os py read_csv metadata_path Hun) as Hm.
  split; [intros p; split; reflexivity|]. split; [exact Hm|].
  split; [|split].
  { intros Hno.
    destruct (printed_after_metadata os py read_csv lib image_paths
                output_filename metadata_path title) as (rest & -> & Hrest).
    rewrite existsb_app, Hrest, orb_false_r. unfold load_ages.
    destruct metadata_path as [p|]; [|reflexivity].
    now rewrite Hno. }
  { intros p -> Hex.
    destruct (printed_after_metadata os py read_csv lib image_paths
                output_filename (Some p) title) as (rest & -> & Hrest).
    exists rest. split; [|exact Hrest].
    unfold load_ages. rewrite Hex.
    destruct Hun as [H|[H|H]]; [congruence | |]; now rewrite H. }
  unfold create_powerpoint_from_images.
  destruct (load_ages os py read_csv metadata_path) as [m log0].
  simpl in Hm. subst m.
  pose proof (present_no_age os image_paths) as Hnone.
  assert (Hraw : Forall (fun r => age r = None)
                   (image_data (build_catalog os ∅ image_paths))).
  { eapply Permutation_Forall; [|exact Hnone].
    symmetry. apply py_sort_perm. }
  destruct (sort_catalog_sorted _ (no_age_known _ Hraw))
    as (_ & Hsorted).
  clear Hraw. unfold present in Hnone.
  destruct (image_data (build_catalog os ∅ image_paths)) as [|r l] eqn:Ed;
    [contradiction|].
  unfold present. rewrite Ed.
  set (catalog := sort_catalog (r :: l)) in *.
  destruct (add_image_slides lib (Inches 13.333) (Inches 7.5) catalog)
    as [sl lg] eqn:Es.
  rewrite Hsave. simpl. split; [reflexivity|].
  eexists. split; [reflexivity|]. simpl.
  assert (Hsl : sl = map (slide_of lib (Inches 13.333) (Inches 7.5)
                            (length catalog))
                         (combine (seq 1 (length catalog)) catalog)).
  { change sl with (fst (sl, lg)). rewrite <- Es.
    apply add_image_slides_map. }
  assert (Hsub : map (fun s => header_subject (header s)) sl
                 = map subject_id catalog).
  { rewrite Hsl, map_map. simpl.
    transitivity
      (map subject_id (map snd (combine (seq 1 (length catalog)) catalog))).
    - now rewrite map_map.
    - now rewrite map_snd_numbered. }
  repeat split.
  - rewrite Hsl, length_map. apply length_numbered.
  - rewrite Hsl. apply Forall_map.
    assert (Hall : Forall (fun r => age r = None)
                     (map snd (combine (seq 1 (length catalog)) catalog)))
      by (rewrite map_snd_numbered; exact Hnone).
    apply Forall_map in Hall. exact Hall.
  - exact Hsub.
  - rewrite Hsub. now apply no_age_sorted_by_id.
Qed.

(** A witness of C9: three valid images, no metadata file on disk. *)
Lemma missing_metadata_run_witness :
  returned (create_powerpoint_from_images
              (posix (disk_of three_paths)) Metadata.no_text no_csv
              (failing_on "") three_paths
              "stride_change_analysis_by_age.pptx"
              (Some "muh_metadata.csv") "Motor Learning")
  = "stride_change_analysis_by_age.pptx".
Proof.
  refine (proj1 (proj2 (proj2 (proj2 (proj2 (missing_metadata_run
            (posix (disk_of three_paths)) Metadata.no_text no_csv
            (failing_on "") three_paths
            "stride_change_analysis_by_age.pptx"
            (Some "muh_metadata.csv") "Motor Learning" _ _ _)))))).
  - left. vm_compute. reflexivity.
  - vm_compute. discriminate.
  - reflexivity.
Defined.

End AssemblerFacts.

(* ===================================================================== *)
(** * Further properties: extractor and path list *)
(* ===================================================================== *)

Module TextExtras.
Import PyStr PyStrFacts Extractor ExtractorFacts Paths PathsFacts.

Lemma all_weaken (f g : ascii -> bool) (s : string) :
  (forall c, f c = true -> g c = true) -> all f s = true -> all g s = true.
Proof.
  intros Hfg. induction s as [|c s IH]; simpl; [reflexivity|].
  intros H. apply andb_true_iff in H as [Hc Hs].
  now rewrite (Hfg c Hc), (IH Hs).
Qed.

Lemma nonempty_length (s : string) :
  nonempty s = true -> 1 <= String.length s.
Proof. destruct s; simpl; [discriminate | lia]. Qed.

Lemma token_shape_chars (tok : string) :
  token_shape tok ->
  nonempty tok = true
  /\ all (fun c => is_upper c || is_digit c) tok = true
  /\ 2 <= String.length tok.
Proof.
  intros (letters & digits & -> & Hl & Hd & Ul & Dd).
  split; [destruct letters; [discriminate | reflexivity]|]. split.
  - rewrite all_app. apply andb_true_iff. split.
    + apply (all_weaken is_upper); [|exact Ul].
      intros c Hc. now rewrite Hc.
    + apply (all_weaken is_digit); [|exact Dd].
      intros c Hc. rewrite Hc. apply orb_true_r.
  - rewrite length_app.
    apply nonempty_length in Hl. apply nonempty_length in Hd. lia.
Qed.

(** X1. A token the extractor returns is never empty and holds only
    uppercase letters and digits; it stands in the filename between the
    two literals, so a filename with a token has at least 31
    characters. *)
Theorem extracted_token_sound (filename tok : string) :
  extract_subject_id_from_filename filename = Some tok ->
  nonempty tok = true
  /\ all (fun c => is_upper c || is_digit c) tok = true
  /\ (exists pre post,
        filename = pre +:+ prefix_lit +:+ tok +:+ suffix_lit +:+ post)
  /\ 31 <= String.length filename.
Proof.
  intros H. apply re_search_Some in H as (pre & post & -> & Sh).
  destruct (token_shape_chars tok Sh) as (Hne & Hall & Hlen).
  repeat split; try assumption.
  - exists pre, post. reflexivity.
  - rewrite !length_app.
    change (String.length prefix_lit) with 14.
    change (String.length suffix_lit) with 15. lia.
Qed.

Lemma extracted_token_sound_witness :
  31 <= String.length "plots/stride_change_MUH1396_fixed_grid.png.bak".
Proof.
  refine (proj2 (proj2 (proj2 (extracted_token_sound
            "plots/stride_change_MUH1396_fixed_grid.png.bak" "MUH1396" _)))).
  vm_compute. reflexivity.
Defined.

(** ** Stripping *)

Lemma rstrip_idem (f : ascii -> bool) (s : string) :
  rstrip f (rstrip f s) = rstrip f s.
Proof.
  induction s as [|c s IH]; [reflexivity|]. simpl.
  destruct (rstrip f s) as [|d r] eqn:E.
  - destruct (f c) eqn:Hc; simpl; [reflexivity | now rewrite Hc].
  - simpl in IH |- *. now rewrite IH.
Qed.

Lemma lstrip_head (f : ascii -> bool) (s : string) (c : ascii) (r : string) :
  lstrip f s = String c r -> f c = false.
Proof.
  induction s as [|d s IH]; simpl; [discriminate|].
  destruct (f d) eqn:Hd; [exact IH|].
  intros H; inversion H; subst. exact Hd.
Qed.

Lemma rstrip_head (f : ascii -> bool) (s : string) (c : ascii) (r : string) :
  rstrip f s = String c r -> exists r', s = String c r'.
Proof.
  destruct s as [|d s]; simpl; [discriminate|].
  destruct (rstrip f s); [destruct (f d); [discriminate|]|];
    intros H; inversion H; subst; eauto.
Qed.

(** Stripping twice is stripping once. *)
Lemma strip_idem (f : ascii -> bool) (s : string) :
  strip f (strip f s) = strip f s.
Proof.
  unfold strip.
  destruct (rstrip f (lstrip f s)) as [|c r] eqn:E; [reflexivity|].
  destruct (rstrip_head _ _ _ _ E) as [r' Hl].
  pose proof (lstrip_head _ _ _ _ Hl) as Hc.
  simpl lstrip. rewrite Hc, <- E. apply rstrip_idem.
Qed.

Lemma in_kept_lines (lines : list string) (p : string) :
  In p (kept_lines lines) ->
  is_png_path p = true /\ exists line, In line lines /\ p = clean_line line.
Proof.
  unfold kept_lines. intros H. apply filter_In in H as [H Hp].
  apply in_map_iff in H as (line & <- & Hin). eauto.
Qed.

(** X2. Every path read from the path file is the cleaned form of one
    of its lines, is not empty, ends in [.png], and carries no double
    quote at either end (stripping quotes again leaves it as it is); there
    are never more paths than lines. *)
Theorem parsed_paths_clean (file_path content : string) :
  (forall p,
      In p (fst (parse_image_paths_from_file file_path (ReadOk content))) ->
      nonempty p = true /\ endswith p ".png" = true
      /\ strip is_quote p = p
      /\ exists line, In line (split newline content) /\ p = clean_line line)
  /\ length (fst (parse_image_paths_from_file file_path (ReadOk content)))
     <= length (split newline content).
Proof.
  assert (E : fst (parse_image_paths_from_file file_path (ReadOk content))
              = kept_lines (split newline content)).
  { unfold parse_image_paths_from_file. simpl fst.
    rewrite loop_is_kept. simpl. apply kept_strip. }
  rewrite E. split.
  - intros p Hp. apply in_kept_lines in Hp as (Hpng & line & Hin & ->).
    unfold is_png_path in Hpng. apply andb_true_iff in Hpng as [Hne Hend].
    repeat split; try assumption.
    + unfold clean_line. apply strip_idem.
    + exists line. auto.
  - unfold kept_lines.
    etransitivity; [apply List.filter_length_le|]. now rewrite length_map.
Qed.

End TextExtras.

(* ===================================================================== *)
(** * Further properties: metadata *)
(* ===================================================================== *)

Module MetadataExtras.
Import Metadata MetadataSamples MetadataFacts.

(** The [age_years] column has a value for every row. *)
Lemma ages_length (df : DataFrame) (ages : list cell) :
  age_years_column df = AgeYears ages -> length ages = length (rows df).
Proof.
  destruct (has_column "age_months" df) eqn:Hm.
  - intros Ecol. symmetry.
    exact (Forall2_length _ _ _ (months_column_ages _ _ Hm Ecol)).
  - unfold age_years_column. rewrite Hm.
    destruct (has_column "age" df); [|discriminate].
    intros H; inversion H. unfold column. now rewrite length_map.
Qed.

(** X3. When a subject has several rows, the last row whose age is a
    number decides: on a table that loads, the mapping binds the row's
    key to the row's age whenever no later row with the same key has an
    age that is not NaN. *)
Theorem last_row_wins (py : Builtins) (metadata_path : string)
    (df : DataFrame) (n : nat) (ages : list cell)
    (earlier later : list (row * cell)) (r : row) (age : cell)
    (f : float) :
  snd (load_subject_metadata py metadata_path (ReadOk df))
  = [LoadedAgeData n] ->
  age_years_column df = AgeYears ages ->
  combine (rows df) ages = earlier ++ (r, age) :: later ->
  notna age = true -> py_float py age = Some f ->
  (forall e, In e later ->
     ~ binds py (set_column "age_years" ages df)
         (subject_key py (set_column "age_years" ages df) r) e) ->
  fst (load_subject_metadata py metadata_path (ReadOk df))
  !! subject_key py (set_column "age_years" ages df) r
  = Some f.
Proof.
  intros Hlog Ecol Hsplit Hna Hf Hlater.
  apply (load_lookup py _ _ _ _ _ f Ecol Hlog).
  exists earlier, (r, age), later. auto.
Qed.

Lemma last_row_wins_witness :
  fst (load_subject_metadata no_text "muh_metadata.csv"
         (ReadOk repeated_id_table)) !! "MUH7"
  = Some 10.5%float.
Proof.
  refine (last_row_wins no_text "muh_metadata.csv" repeated_id_table 1
            [CFloat 10; CFloat 10.5; CFloat PrimFloat.nan]
            [([("ID", CStr "MUH7"); ("age_months", CFloat 120)], CFloat 10)]
            [([("ID", CStr "MUH7"); ("age_months", CFloat PrimFloat.nan)],
              CFloat PrimFloat.nan)]
            [("ID", CStr "MUH7"); ("age_months", CFloat 126)]
            (CFloat 10.5) 10.5%float _ _ _ _ _ _);
    try (vm_compute; reflexivity).
  intros e [<-|[]] [_ Hna]. vm_compute in Hna. discriminate.
Defined.

Lemma missing_id_key (py : Builtins) (metadata_df : DataFrame) (r : row) :
  row_get "ID" r = None -> subject_key py metadata_df r = "nan".
Proof.
  intros Hid. unfold subject_key, value_at, cell_of. rewrite Hid.
  now destruct (column_dtype "ID" metadata_df), (values_dtype metadata_df).
Qed.

(** X4. One bad row discards the whole table: when the table has rows
    and no ID column, when an age is not NaN and [float] rejects it (a
    text of the years column that is no number), or when the months
    column holds text in some row, the result is the empty mapping with
    the error message, whatever the other rows hold. A row without an ID
    value is no such row: on a table that loads it is filed under
    ["nan"]. *)
Theorem bad_row_discards_table (py : Builtins) (metadata_path : string)
    (df : DataFrame) :
  (forall ages,
      age_years_column df = AgeYears ages ->
      rows df <> [] -> has_column "ID" df = false ->
      load_subject_metadata py metadata_path (ReadOk df)
      = (∅, [ErrorLoadingMetadata]))
  /\ (forall ages r age,
        age_years_column df = AgeYears ages ->
        In (r, age) (combine (rows df) ages) ->
        notna age = true -> py_float py age = None ->
        load_subject_metadata py metadata_path (ReadOk df)
        = (∅, [ErrorLoadingMetadata]))
  /\ (forall r s,
        has_column "age_months" df = false -> has_column "age" df = true ->
        In r (rows df) -> row_get "age" r = Some (CStr s) ->
        float_of_str py s = None ->
        load_subject_metadata py metadata_path (ReadOk df)
        = (∅, [ErrorLoadingMetadata]))
  /\ (forall r s,
        has_column "age_months" df = true ->
        In r (rows df) -> row_get "age_months" r = Some (CStr s) ->
        load_subject_metadata py metadata_path (ReadOk df)
        = (∅, [ErrorLoadingMetadata]))
  /\ (forall ages n r age,
        age_years_column df = AgeYears ages ->
        snd (load_subject_metadata py metadata_path (ReadOk df))
        = [LoadedAgeData n] ->
        In (r, age) (combine (rows df) ages) ->
        row_get "ID" r = None -> notna age = true ->
        is_Some (fst (load_subject_metadata py metadata_path (ReadOk df))
                 !! "nan")).
Proof.
  split; [|split; [|split; [|split]]].
  - intros ages Ecol Hrows Hid.
    pose proof (ages_length _ _ Ecol) as Hlen.
    destruct (rows df) as [|r rs] eqn:Er; [contradiction|].
    destruct ages as [|a ages']; [discriminate|].
    apply (load_raises py _ _ _ (r, a) Ecol); [|now left].
    rewrite Er. now left.
  - intros ages r age Ecol Hin Hna Hf.
    apply (load_raises py _ _ _ (r, age) Ecol Hin). now right.
  - intros r s Hm Hy Hin Hs Hf.
    assert (Ecol : age_years_column df = AgeYears (column "age" df))
      by (unfold age_years_column; now rewrite Hm, Hy).
    destruct (combine_has _ _ _ r (years_column_ages df) Hin)
      as (a & Ha & Hr).
    unfold cell_of in Hr. rewrite Hs, astype_text in Hr. subst a.
    apply (load_raises py _ _ _ (r, CStr s) Ecol Ha). now right.
  - intros r s Hm Hin Hs. unfold load_subject_metadata, age_years_column.
    rewrite Hm, (months_to_years_text _ s); [reflexivity|].
    unfold column. apply in_map_iff. exists r. split; [|exact Hin].
    unfold cell_of. now rewrite Hs, astype_text.
  - intros ages n r age Ecol Hlog Hin Hid Hna.
    rewrite <- (missing_id_key py (set_column "age_years" ages df) r Hid).
    rewrite (load_unfold py _ _ _ Ecol) in Hlog |- *.
    destruct (build_mapping py ∅ _) as [m|] eqn:Eb; [|discriminate].
    simpl. apply (build_mapping_bound py _ _ _ _ _ (has_column_set _ _ _) Eb).
    right. exists (r, age). split; [exact Hin | now split].
Qed.

Lemma bad_row_discards_table_witness :
  load_subject_metadata no_text "muh_metadata.csv" (ReadOk text_months_table)
  = (∅, [ErrorLoadingMetadata])
  /\ is_Some (fst (load_subject_metadata no_text "muh_metadata.csv"
                     (ReadOk missing_id_table)) !! "nan").
Proof.
  split.
  - refine (proj1 (proj2 (proj2 (proj2 (bad_row_discards_table no_text
              "muh_metadata.csv" text_months_table))))
              [("ID", CStr "MUH8"); ("age_months", CStr "ten")] "ten" _ _ _).
    + reflexivity.
    + right. now left.
    + reflexivity.
  - refine (proj2 (proj2 (proj2 (proj2 (bad_row_discards_table no_text
              "muh_metadata.csv" missing_id_table))))
              [CFloat 9; CFloat 10] 2%nat [("age", CFloat 10)] (CFloat 10)
              _ _ _ _ _); try reflexivity.
    right. now left.
Defined.

Lemma cells_agree (name : string) (rs rs' : list row) (ages : list cell) :
  Forall2 (fun r r' => cell_of name r = cell_of name r') rs rs' ->
  map (fun e : row * cell => cell_of name (fst e)) (combine rs ages)
  = map (fun e : row * cell => cell_of name (fst e)) (combine rs' ages).
Proof.
  intros H. revert ages.
  induction H as [|r r' rs rs' Hr _ IH]; intros ages; [reflexivity|].
  destruct ages as [|a ages]; [reflexivity|]. simpl. now rewrite Hr, IH.
Qed.

Lemma column_agree (name : string) (df df' : DataFrame) :
  Forall2 (fun r r' => cell_of name r = cell_of name r')
          (rows df) (rows df') ->
  column name df = column name df'.
Proof.
  intros H. unfold column, column_dtype.
  assert (Hc : map (cell_of name) (rows df) = map (cell_of name) (rows df')).
  { induction H as [|r r' rs rs' Hr _ IH]; simpl; congruence. }
  rewrite Hc. rewrite <- !(map_map (cell_of name)). now rewrite Hc.
Qed.

(** The keys of two frames agree when their ID values and the dtype of
    their values do. *)
Lemma subject_key_agree (py : Builtins) (df df' : DataFrame)
    (ages : list cell) (r r' : row) :
  Forall2 (fun r r' => cell_of "ID" r = cell_of "ID" r')
          (rows df) (rows df') ->
  values_dtype (set_column "age_years" ages df)
  = values_dtype (set_column "age_years" ages df') ->
  cell_of "ID" r = cell_of "ID" r' ->
  subject_key py (set_column "age_years" ages df) r
  = subject_key py (set_column "age_years" ages df') r'.
Proof.
  intros Hrows Hd Hr. unfold subject_key, value_at. rewrite Hd, Hr.
  do 3 f_equal. unfold column_dtype. simpl. rewrite !map_map. f_equal.
  exact (cells_agree "ID" _ _ ages Hrows).
Qed.

Lemma build_mapping_agree (py : Builtins) (metadata_df metadata_df' : DataFrame)
    (entries entries' : list (row * cell)) (m : gmap string float) :
  has_column "age_years" metadata_df = true ->
  has_column "age_years" metadata_df' = true ->
  has_column "ID" metadata_df = has_column "ID" metadata_df' ->
  Forall2 (fun e e' => subject_key py metadata_df (fst e)
                       = subject_key py metadata_df' (fst e')
                       /\ snd e = snd e') entries entries' ->
  build_mapping py m
    (map (series metadata_df) (map (with_value "age_years") entries))
  = build_mapping py m
      (map (series metadata_df') (map (with_value "age_years") entries')).
Proof.
  intros Hage Hage' Hid H. revert m.
  induction H as [|e e' es es' [Hk Ha] _ IH]; intros m; [reflexivity|].
  simpl. rewrite !add_row_yielded by assumption. rewrite Hid, Hk, Ha.
  destruct (has_column "ID" metadata_df'); [|reflexivity].
  destruct (notna (snd e')); [destruct (py_float py (snd e'))|];
    try reflexivity; apply IH.
Qed.

Lemma combine_agree (P : row -> row -> Prop) (rs rs' : list row)
    (ages : list cell) :
  Forall2 P rs rs' ->
  Forall2 (fun e e' : row * cell => P (fst e) (fst e') /\ snd e = snd e')
          (combine rs ages) (combine rs' ages).
Proof.
  intros H. revert ages.
  induction H as [|r r' rs rs' Hr _ IH]; intros ages; simpl; [constructor|].
  destruct ages as [|a ages]; constructor; [split; [exact Hr | reflexivity]|].
  apply IH.
Qed.

(** A frame with an ID column that holds text has the dtype [object]. *)
Lemma infer_dtype_text (values : list cell) (s : string) :
  In (CStr s) values -> infer_dtype values = Object.
Proof.
  induction values as [|v vs IH]; [intros []|].
  intros [->|Hin]; simpl; [reflexivity|].
  rewrite (IH Hin). now destruct (dtype_of v).
Qed.

Lemma values_dtype_text (df : DataFrame) (name : string) :
  has_column name df = true -> column_dtype name df = Object ->
  values_dtype df = Object.
Proof.
  unfold values_dtype, has_column. intros Hin Hd.
  induction (columns df) as [|c cs IH]; [discriminate|]. simpl in *.
  apply orb_true_iff in Hin as [Hc|Hin].
  - apply String.eqb_eq in Hc. subst c. now rewrite Hd.
  - rewrite (IH Hin). now destruct (column_dtype c df).
Qed.

Lemma values_dtype_no_rows (df : DataFrame) :
  rows df = [] -> values_dtype df = Int64.
Proof.
  intros Hr. unfold values_dtype, column_dtype. rewrite Hr. simpl.
  induction (columns df) as [|c cs IH]; simpl; [reflexivity|].
  now rewrite IH.
Qed.

Lemma text_ids_object (df : DataFrame) (ages : list cell) :
  has_column "ID" df = true ->
  length ages = length (rows df) -> rows df <> [] ->
  (forall r, In r (rows df) -> exists s, cell_of "ID" r = CStr s) ->
  values_dtype (set_column "age_years" ages df) = Object.
Proof.
  intros Hid Hlen Hrows Htext.
  apply (values_dtype_text _ "ID"); [now rewrite has_column_set_other|].
  unfold column_dtype. simpl. rewrite map_map.
  destruct (rows df) as [|r rs]; [contradiction|].
  destruct ages as [|a ages']; [discriminate|].
  destruct (Htext r (or_introl eq_refl)) as [s Hs].
  apply (infer_dtype_text _ s). simpl. left. exact Hs.
Qed.

(** X5. With a months column, the loader reads of the table only the ID
    and the months of each row, and the dtype of its values: two tables
    that have the column, agree on having an ID column, agree row by row
    on these two values and have values of the same dtype give the same
    mapping and the same message, whatever their years column and their
    other columns hold. When every ID is text the dtype needs no
    condition. The dtype does count for IDs that are numbers: next to a
    column of text the ID 1 is filed under ["1"], without it under
    ["1.0"]. *)
Theorem months_table_reads_two_columns (py : Builtins)
    (metadata_path : string) (df df' : DataFrame) :
  has_column "age_months" df = true ->
  has_column "age_months" df' = true ->
  has_column "ID" df = has_column "ID" df' ->
  Forall2 (fun r r' => cell_of "ID" r = cell_of "ID" r'
                       /\ cell_of "age_months" r = cell_of "age_months" r')
          (rows df) (rows df') ->
  ((forall ages,
       age_years_column df = AgeYears ages ->
       values_dtype (set_column "age_years" ages df)
       = values_dtype (set_column "age_years" ages df')) ->
   load_subject_metadata py metadata_path (ReadOk df)
   = load_subject_metadata py metadata_path (ReadOk df'))
  /\ (has_column "ID" df = true ->
      (forall r, In r (rows df) -> exists s, cell_of "ID" r = CStr s) ->
      load_subject_metadata py metadata_path (ReadOk df)
      = load_subject_metadata py metadata_path (ReadOk df'))
  /\ fst (load_subject_metadata py metadata_path (ReadOk numbers_only_table))
     = <["1.0" := 12%float]> ∅
  /\ fst (load_subject_metadata py metadata_path (ReadOk example_with_text))
     = <["1" := 12%float]> ∅.
Proof.
  intros Hm Hm' Hid Hrows.
  assert (H1 : Forall2 (fun r r' => cell_of "age_months" r
                                    = cell_of "age_months" r')
                       (rows df) (rows df'))
    by (eapply List.Forall2_impl; [|exact Hrows]; now intros ? ? []).
  assert (H2 : Forall2 (fun r r' => cell_of "ID" r = cell_of "ID" r')
                       (rows df) (rows df'))
    by (eapply List.Forall2_impl; [|exact Hrows]; now intros ? ? []).
  assert (Hcol : age_years_column df = age_years_column df').
  { unfold age_years_column.
    now rewrite Hm, Hm', (column_agree "age_months" df df' H1). }
  assert (Hmain :
    (forall ages,
        age_years_column df = AgeYears ages ->
        values_dtype (set_column "age_years" ages df)
        = values_dtype (set_column "age_years" ages df')) ->
    load_subject_metadata py metadata_path (ReadOk df)
    = load_subject_metadata py metadata_path (ReadOk df')).
  { intros Hd.
    destruct (age_years_column df) as [ages| |] eqn:Ecol;
      try (unfold load_subject_metadata; now rewrite <- Hcol, Ecol).
    rewrite (load_unfold py _ _ _ Ecol).
    rewrite (load_unfold py _ df' ages) by now rewrite <- Hcol.
    rewrite (build_mapping_agree py (set_column "age_years" ages df)
               (set_column "age_years" ages df')
               (combine (rows df) ages) (combine (rows df') ages) ∅
               (has_column_set _ _ _) (has_column_set _ _ _));
      [reflexivity | now rewrite !has_column_set_other |].
    eapply List.Forall2_impl;
      [|exact (combine_agree _ _ _ ages H2)].
    intros e e' [Hr Ha]. split; [|exact Ha].
    now apply subject_key_agree; [| apply Hd |]. }
  split; [exact Hmain|]. split; [|split; vm_compute; reflexivity].
  intros Hid1 Htext. apply Hmain. intros ages Ecol.
  pose proof (ages_length _ _ Ecol) as Hlen.
  destruct (rows df) as [|r rs] eqn:Er.
  { inversion H2 as [Hnil Hnil'|].
    rewrite !values_dtype_no_rows; [reflexivity | |]; simpl;
      [now rewrite <- Hnil' | now rewrite Er]. }
  assert (Hne : rows df <> []) by (rewrite Er; discriminate).
  assert (Htext0 : forall r0, In r0 (rows df) ->
                     exists s, cell_of "ID" r0 = CStr s)
    by (rewrite Er; exact Htext).
  assert (Hlen0 : length ages = length (rows df)) by now rewrite Er.
  rewrite <- Er in H2. clear Er Htext Hlen.
  rewrite (text_ids_object df ages Hid1 Hlen0 Hne Htext0).
  symmetry. apply text_ids_object.
  - now rewrite <- Hid.
  - rewrite Hlen0. exact (Forall2_length _ _ _ H2).
  - intros Hnil. rewrite Hnil in H2. inversion H2 as [E|]. now apply Hne.
  - intros r' Hr'.
    destruct (related_to _ _ _ r' H2 Hr') as (r0 & Hr0 & Heq).
    rewrite <- Heq. now apply Htext0.
Qed.

Lemma months_table_reads_two_columns_witness :
  load_subject_metadata no_text "muh_metadata.csv" (ReadOk both_columns_table)
  = load_subject_metadata no_text "muh_metadata.csv"
      (ReadOk other_years_table).
Proof.
  refine (proj1 (months_table_reads_two_columns no_text "muh_metadata.csv"
                   both_columns_table other_years_table _ _ _ _) _);
    try reflexivity.
  - repeat constructor.
  - intros ages H. vm_compute in H. inversion H. reflexivity.
Defined.

End MetadataExtras.

(* ===================================================================== *)
(** * Further properties: paths and catalog *)
(* ===================================================================== *)

Module CatalogExtras.
Import PyStr PyStrFacts Extractor ExtractorFacts Catalog SortFacts CatalogFacts.
Import Slashes.

(** ** Separators *)

Ltac ascii_cases :=
  repeat match goal with
         | |- context [Ascii.eqb ?a ?b] =>
             lazymatch a with
             | context [Ascii.eqb] => fail
             | _ => destruct (Ascii.eqb_spec a b); subst
             end
         end;
  simpl; try reflexivity; try congruence.

Lemma normalize_cons (os : Platform) (c : ascii) (p : string) :
  normalize os (String c p)
  = String (if Ascii.eqb (if Ascii.eqb c "\"%char then os_sep os else c)
                         "/"%char
            then os_sep os
            else if Ascii.eqb c "\"%char then os_sep os else c)
           (normalize os p).
Proof. reflexivity. Qed.

(** X6. Normalizing the separators keeps the length of the path, leaves
    no slash or backslash other than the platform's separator, and
    changes nothing when done again. *)
Theorem normalize_separators (os : Platform) (p : string) :
  String.length (normalize os p) = String.length p
  /\ all (fun c => (negb (Ascii.eqb c "/"%char)
                    && negb (Ascii.eqb c "\"%char))
                   || Ascii.eqb c (os_sep os))
         (normalize os p) = true
  /\ normalize os (normalize os p) = normalize os p.
Proof.
  induction p as [|c p (IH1 & IH2 & IH3)]; [repeat split|].
  rewrite !normalize_cons. simpl String.length. simpl all.
  rewrite IH1, IH2, andb_true_r.
  split; [reflexivity|]. split.
  - ascii_cases.
  - rewrite IH3. f_equal. ascii_cases.
Qed.

(** ** Base names on a POSIX platform *)

Lemma posix_basename_cons (c : ascii) (p : string) :
  posix_basename (String c p)
  = if has_slash p then posix_basename p
    else if Ascii.eqb c "/"%char then p else String c p.
Proof. reflexivity. Qed.

Lemma has_slash_cons (c : ascii) (s : string) :
  has_slash (String c s) = Ascii.eqb "/"%char c || has_slash s.
Proof. reflexivity. Qed.

Lemma has_slash_app (a b : string) :
  has_slash (a +:+ b) = has_slash a || has_slash b.
Proof.
  induction a as [|c a IH]; [reflexivity|].
  rewrite app_cons, !has_slash_cons, IH. apply orb_assoc.
Qed.

Lemma posix_basename_no_slash (p : string) :
  has_slash (posix_basename p) = false.
Proof.
  induction p as [|c p IH]; [reflexivity|]. rewrite posix_basename_cons.
  destruct (has_slash p) eqn:E; [exact IH|].
  destruct (Ascii.eqb c "/"%char) eqn:Ec; [exact E|].
  rewrite has_slash_cons, E, Ascii.eqb_sym, Ec. reflexivity.
Qed.

Lemma posix_basename_plain (f : string) :
  has_slash f = false -> posix_basename f = f.
Proof.
  destruct f as [|c f]; [reflexivity|].
  rewrite has_slash_cons, posix_basename_cons. intros H.
  apply orb_false_iff in H as [Hc Hf].
  now rewrite Hf, Ascii.eqb_sym, Hc.
Qed.

Lemma posix_basename_dir (d f : string) :
  has_slash f = false -> posix_basename (d +:+ String "/" f) = f.
Proof.
  intros Hf. induction d as [|c d IH].
  - rewrite app_nil_l, posix_basename_cons, Hf. reflexivity.
  - rewrite app_cons, posix_basename_cons, has_slash_app, has_slash_cons.
    simpl. rewrite orb_true_r. exact IH.
Qed.

Lemma possible_paths_basename (f q : string) :
  has_slash f = false -> In q (possible_paths f) -> posix_basename q = f.
Proof.
  intros Hf [<-|[<-|[<-|[<-|[]]]]].
  - now apply posix_basename_plain.
  - apply (posix_basename_dir
      "figures/individual_plots/stride_change_after_success_vs_failure" f Hf).
  - apply (posix_basename_dir
      "analysis/figures/individual_plots/stride_change_after_success_vs_failure"
      f Hf).
  - apply (posix_basename_dir
      "motor_learning_output/figures/individual_plots/stride_change_after_success_vs_failure"
      f Hf).
Qed.

(** X7. On a POSIX platform the fallback search keeps the file name:
    whatever location a path resolves to, the name of the resolved path
    is the base name of the normalized input, so the record built from it
    has that name and the subject id found in it; and a path with the
    drive prefix never ends in the missing list. *)
Theorem posix_resolution_keeps_name (disk : string -> bool)
    (age_mapping : gmap string float) (raw : string) :
  (forall q,
      resolve_path (posix disk) raw = Resolved q ->
      posix_basename q = posix_basename (normalize (posix disk) raw))
  /\ (forall r,
        classify (posix disk) age_mapping raw = Present r
        \/ classify (posix disk) age_mapping raw = Missing r ->
        filename r = posix_basename (normalize (posix disk) raw)
        /\ extract_subject_id_from_filename
             (posix_basename (normalize (posix disk) raw))
           = Some (subject_id r))
  /\ (forall r,
        classify (posix disk) age_mapping raw = Missing r ->
        startswith (normalize (posix disk) raw) "C:" = false).
Proof.
  assert (Hres : forall q,
             resolve_path (posix disk) raw = Resolved q ->
             posix_basename q = posix_basename (normalize (posix disk) raw)
             /\ (startswith (normalize (posix disk) raw) "C:" = true ->
                 disk q = true)).
  { intros q. unfold resolve_path.
    change (os_name_nt (posix disk)) with false.
    change (path_exists (posix disk)) with disk.
    change (basename (posix disk)) with posix_basename.
    destruct (startswith (normalize (posix disk) raw) "C:"); cbn [andb negb].
    - destruct (find disk (possible_paths
                  (posix_basename (normalize (posix disk) raw))))
        as [q'|] eqn:E; [|intros H; discriminate H].
      intros H; inversion H; subst q'. apply find_some in E as [Hin Hex].
      split; [|now intros _].
      apply possible_paths_basename; [apply posix_basename_no_slash | exact Hin].
    - intros H; inversion H. split; [reflexivity|].
      intros Hf. discriminate Hf. }
  split; [intros q Hq; now apply Hres|].
  assert (Hcl : forall r,
             classify (posix disk) age_mapping raw = Present r
             \/ classify (posix disk) age_mapping raw = Missing r ->
             exists q, resolve_path (posix disk) raw = Resolved q
                       /\ path r = q /\ filename r = posix_basename q
                       /\ extract_subject_id_from_filename (posix_basename q)
                          = Some (subject_id r)
                       /\ (classify (posix disk) age_mapping raw = Missing r
                           -> disk q = false)).
  { intros r. unfold classify.
    change (path_exists (posix disk)) with disk.
    change (basename (posix disk)) with posix_basename.
    destruct (resolve_path (posix disk) raw) as [q|fn];
      [|intros [H|H]; discriminate H].
    cbv zeta.
    destruct (extract_subject_id_from_filename (posix_basename q))
      as [sid|] eqn:Ex; [|intros [H|H]; discriminate H].
    destruct (disk q) eqn:Ed; intros [H|H]; inversion H; subst r;
      exists q; cbn [path filename subject_id]; repeat split;
      try reflexivity; try assumption;
      intros Hx; first [discriminate Hx | exact Ed]. }
  split.
  - intros r Hr. destruct (Hcl r Hr) as (q & Hq & _ & Hf & Hx & _).
    destruct (Hres q Hq) as [Hb _]. rewrite Hf, <- Hb. auto.
  - intros r Hr. destruct (Hcl r (or_intror Hr)) as (q & Hq & _ & _ & _ & Hd).
    destruct (Hres q Hq) as [_ Hc].
    destruct (startswith (normalize (posix disk) raw) "C:"); [|reflexivity].
    rewrite (Hc eq_refl) in Hd. now apply Hd.
Qed.

Lemma posix_resolution_keeps_name_witness :
  posix_basename
    ("analysis/" +:+ plots_dir +:+ local_name)
  = posix_basename
      (normalize (posix (disk_of ["analysis/" +:+ plots_dir +:+ local_name]))
                 windows_path).
Proof.
  refine (proj1 (posix_resolution_keeps_name
                   (disk_of ["analysis/" +:+ plots_dir +:+ local_name])
                   ∅ windows_path) _ _).
  vm_compute. reflexivity.
Defined.

End CatalogExtras.

(* ===================================================================== *)
(** * Further properties: the two lists of the catalog *)
(* ===================================================================== *)

Module CatalogInvariants.
Import PyStr PyStrFacts Extractor ExtractorFacts Catalog SortFacts CatalogFacts.

(** The elements of [omap f l] are the values [f] gives on [l]. *)
Lemma omap_member {A B : Type} (f : A -> option B) (l : list A) (b : B) :
  In b (omap f l) <-> exists a, f a = Some b /\ In a l.
Proof.
  induction l as [|a0 l IH].
  - simpl. split; [intros [] | intros (a & _ & [])].
  - change (omap f (a0 :: l))
      with (match f a0 with Some v => v :: omap f l | None => omap f l end).
    destruct (f a0) as [v|] eqn:E; simpl; rewrite ?IH; split.
    + intros [<-|(a & Hf & Ha)]; [exists a0 | exists a]; auto.
    + intros (a & Hf & [<-|Ha]); [left; congruence | right; eauto].
    + intros (a & Hf & Ha). eauto.
    + intros (a & Hf & [<-|Ha]); [congruence | eauto].
Qed.

Section Lists.
Variable os : Platform.
Variable age_mapping : gmap string float.

Lemma in_present (image_paths : list string) (r : SlideRecord) :
  In r (present os age_mapping image_paths) <->
  exists raw, In raw image_paths /\ classify os age_mapping raw = Present r.
Proof.
  split.
  - intros H. eapply Permutation_in in H;
      [|symmetry; apply present_perm].
    apply omap_member in H as (raw & Hc & Hin). exists raw. split; [exact Hin|].
    destruct (classify os age_mapping raw); inversion Hc; reflexivity.
  - intros (raw & Hin & Hc). eapply Permutation_in; [apply present_perm|].
    apply omap_member. exists raw. now rewrite Hc.
Qed.

Lemma in_missing (image_paths : list string) (r : SlideRecord) :
  In r (missing os age_mapping image_paths) <->
  exists raw, In raw image_paths /\ classify os age_mapping raw = Missing r.
Proof.
  unfold missing. rewrite missing_images_build, omap_member. split.
  - intros (raw & Hc & Hin). exists raw. split; [exact Hin|].
    destruct (classify os age_mapping raw); inversion Hc; reflexivity.
  - intros (raw & Hin & Hc). exists raw. now rewrite Hc.
Qed.

(** What [classify] puts in a record, and when. *)
Lemma classify_record (raw : string) (r : SlideRecord) :
  classify os age_mapping raw = Present r
  \/ classify os age_mapping raw = Missing r ->
  filename r = basename os (path r)
  /\ extract_subject_id_from_filename (filename r) = Some (subject_id r)
  /\ age r = age_mapping !! subject_id r
  /\ (classify os age_mapping raw = Present r -> path_exists os (path r) = true)
  /\ (classify os age_mapping raw = Missing r -> path_exists os (path r) = false).
Proof.
  unfold classify.
  destruct (resolve_path os raw) as [q|fn]; [|intros [H|H]; discriminate H].
  cbv zeta.
  destruct (extract_subject_id_from_filename (basename os q))
    as [sid|] eqn:Ex; [|intros [H|H]; discriminate H].
  destruct (path_exists os q) eqn:Ed; intros [H|H]; inversion H; subst r;
    cbn [path filename subject_id age]; repeat split;
    try reflexivity; try assumption;
    intros Hx; first [discriminate Hx | exact Ed].
Qed.

End Lists.

(** X8. Every record of the catalog, present or missing, is well
    formed: its filename is the base name of its path, its subject id is
    the token the extractor finds in that filename (never empty, only
    uppercase letters and digits), and its age is what the mapping holds
    for that subject. *)
Theorem catalog_records_well_formed (os : Platform)
    (age_mapping : gmap string float) (image_paths : list string)
    (r : SlideRecord) :
  In r (present os age_mapping image_paths)
  \/ In r (missing os age_mapping image_paths) ->
  filename r = basename os (path r)
  /\ extract_subject_id_from_filename (filename r) = Some (subject_id r)
  /\ nonempty (subject_id r) = true
  /\ all (fun c => is_upper c || is_digit c) (subject_id r) = true
  /\ age r = age_mapping !! subject_id r.
Proof.
  intros H.
  assert (Hc : exists raw,
             classify os age_mapping raw = Present r
             \/ classify os age_mapping raw = Missing r).
  { destruct H as [H|H].
    - apply in_present in H as (raw & _ & Hc). eauto.
    - apply in_missing in H as (raw & _ & Hc). eauto. }
  destruct Hc as (raw & Hc).
  destruct (classify_record os age_mapping raw r Hc) as (Hf & Hx & Ha & _).
  destruct (re_search_Some _ _ Hx) as (pre & post & _ & Sh).
  destruct (TextExtras.token_shape_chars _ Sh) as (Hne & Hall & _).
  repeat split; assumption.
Qed.

Lemma catalog_records_well_formed_witness :
  age {| path := local_name; subject_id := "MUH1396"; age := None;
         filename := local_name |}
  = (∅ : gmap string float) !! "MUH1396".
Proof.
  refine (proj2 (proj2 (proj2 (proj2
            (catalog_records_well_formed (posix (disk_of [local_name])) ∅
               [local_name]
               {| path := local_name; subject_id := "MUH1396"; age := None;
                  filename := local_name |} _))))).
  left. vm_compute. now left.
Defined.

Lemma outcome_count (os : Platform) (age_mapping : gmap string float)
    (image_paths : list string) :
  length (omap (fun raw => present_of (classify os age_mapping raw))
               image_paths)
  + length (omap (fun raw => missing_of (classify os age_mapping raw))
                 image_paths)
  + length (omap (fun raw => skipped_of (classify os age_mapping raw))
                 image_paths)
  = length image_paths.
Proof.
  induction image_paths as [|raw l IH]; [reflexivity|].
  change (omap (fun raw => present_of (classify os age_mapping raw)) (raw :: l))
    with (match present_of (classify os age_mapping raw) with
          | Some y =>
              y :: omap (fun raw => present_of (classify os age_mapping raw)) l
          | None => omap (fun raw => present_of (classify os age_mapping raw)) l
          end).
  change (omap (fun raw => missing_of (classify os age_mapping raw)) (raw :: l))
    with (match missing_of (classify os age_mapping raw) with
          | Some y =>
              y :: omap (fun raw => missing_of (classify os age_mapping raw)) l
          | None => omap (fun raw => missing_of (classify os age_mapping raw)) l
          end).
  change (omap (fun raw => skipped_of (classify os age_mapping raw)) (raw :: l))
    with (match skipped_of (classify os age_mapping raw) with
          | Some y =>
              y :: omap (fun raw => skipped_of (classify os age_mapping raw)) l
          | None => omap (fun raw => skipped_of (classify os age_mapping raw)) l
          end).
  destruct (classify os age_mapping raw); simpl; lia.
Qed.

(** X9. The loop sorts every input path into exactly one place: the
    present catalog holds only records whose path exists, the missing
    list only records whose path does not, every other path leaves one
    diagnostic (image not found, or no subject id in the filename), and
    the three counts add up to the number of paths given. *)
Theorem catalog_partition (os : Platform)
    (age_mapping : gmap string float) (image_paths : list string) :
  (forall r, In r (present os age_mapping image_paths) ->
             path_exists os (path r) = true)
  /\ (forall r, In r (missing os age_mapping image_paths) ->
                path_exists os (path r) = false)
  /\ (forall d, In d (log (build_catalog os age_mapping image_paths)) ->
                exists filename,
                  d = CouldNotFindImage filename
                  \/ d = CouldNotExtractSubjectId filename)
  /\ length (present os age_mapping image_paths)
     + length (missing os age_mapping image_paths)
     + length (log (build_catalog os age_mapping image_paths))
     = length image_paths.
Proof.
  split; [|split; [|split]].
  - intros r Hr. apply in_present in Hr as (raw & _ & Hc).
    now apply (classify_record os age_mapping raw r (or_introl Hc)).
  - intros r Hr. apply in_missing in Hr as (raw & _ & Hc).
    now apply (classify_record os age_mapping raw r (or_intror Hc)).
  - intros d Hd. rewrite log_build in Hd.
    apply omap_member in Hd as (raw & Hc & _). unfold classify in Hc.
    destruct (resolve_path os raw) as [q|fn].
    + cbv zeta in Hc.
      destruct (extract_subject_id_from_filename (basename os q));
        [destruct (path_exists os q); discriminate Hc|].
      inversion Hc. eauto.
    + inversion Hc. eauto.
  - rewrite <- (Permutation_length (present_perm os age_mapping image_paths)).
    unfold missing. rewrite missing_images_build, log_build.
    apply outcome_count.
Qed.

(** Two sorted lists with the same elements are the same list when no
    two distinct elements are equivalent. *)
Lemma sorted_unique {A : Type} (R : A -> A -> Prop) (l1 l2 : list A) :
  StronglySorted R l1 -> StronglySorted R l2 -> Permutation l1 l2 ->
  (forall x y, In x l1 -> In y l1 -> R x y -> R y x -> x = y) ->
  l1 = l2.
Proof.
  intros H1; revert l2; induction H1 as [|x l1 Hs1 IH Hx];
    intros l2 H2 Hp Hanti.
  - apply Permutation_nil in Hp. now subst.
  - destruct l2 as [|y l2];
      [apply Permutation_sym, Permutation_nil in Hp; discriminate|].
    apply StronglySorted_inv in H2 as [Hs2 Hy].
    rewrite List.Forall_forall in Hx, Hy.
    assert (Hxy : x = y).
    { assert (Hin_x : In x (y :: l2))
        by (eapply Permutation_in; [exact Hp | now left]).
      assert (Hin_y : In y (x :: l1))
        by (eapply Permutation_in; [symmetry; exact Hp | now left]).
      destruct Hin_x as [->|Hx2]; [reflexivity|].
      destruct Hin_y as [->|Hy1]; [reflexivity|].
      apply Hanti; [now left | now right | now apply Hx | now apply Hy]. }
    subst y. f_equal. apply IH; [exact Hs2 | |].
    + now apply Permutation_cons_inv in Hp.
    + intros a b Ha Hb. apply Hanti; now right.
Qed.

Lemma same_subject_same_record (l : list SlideRecord) (x y : SlideRecord) :
  List.NoDup (map subject_id l) -> In x l -> In y l ->
  subject_id x = subject_id y -> x = y.
Proof.
  induction l as [|a l IH]; simpl; [intros _ []|].
  intros Hnd Hx Hy Heq. apply List.NoDup_cons_iff in Hnd as [Hna Hnd].
  destruct Hx as [->|Hx], Hy as [->|Hy]; auto.
  - destruct Hna. rewrite Heq. now apply in_map.
  - destruct Hna. rewrite <- Heq. now apply in_map.
Qed.

Lemma catalog_le_antisym (x y : SlideRecord) :
  age_known x -> age_known y ->
  catalog_le x y -> catalog_le y x -> subject_id x = subject_id y.
Proof.
  unfold catalog_le, age_known.
  destruct (age x) as [a|], (age y) as [b|]; try tauto.
  - intros Ha Hb.
    rewrite (FloatOrderFacts.ltb_rank a b Ha Hb),
      (FloatOrderFacts.eqb_rank a b Ha Hb),
      (FloatOrderFacts.ltb_rank b a Hb Ha),
      (FloatOrderFacts.eqb_rank b a Hb Ha).
    intros [L1|[E1 S1]] [L2|[E2 S2]].
    + destruct (lex_lt_irrefl _ (lex_lt_trans _ _ _ L1 L2)).
    + rewrite E2 in L1. destruct (lex_lt_irrefl _ L1).
    + rewrite E1 in L2. destruct (lex_lt_irrefl _ L2).
    + now apply String.leb_antisym.
  - intros _ _. apply String.leb_antisym.
Qed.

(** X10. The order in which the paths are given does not change which
    records the catalog and the missing list hold; and when no age is NaN
    and no two present records share a subject id, it does not change the
    sorted catalog at all: the slides come out in the same order. *)
Theorem present_order_independent (os : Platform)
    (age_mapping : gmap string float) (image_paths image_paths' : list string) :
  Permutation image_paths image_paths' ->
  Permutation (present os age_mapping image_paths)
              (present os age_mapping image_paths')
  /\ Permutation (missing os age_mapping image_paths)
                 (missing os age_mapping image_paths')
  /\ (map_Forall (fun _ a => PrimFloat.is_nan a = false) age_mapping ->
      List.NoDup (map subject_id (present os age_mapping image_paths)) ->
      present os age_mapping image_paths
      = present os age_mapping image_paths').
Proof.
  intros Hp.
  assert (Hpres : Permutation (present os age_mapping image_paths)
                              (present os age_mapping image_paths')).
  { rewrite <- !present_perm. now apply omap_Permutation. }
  split; [exact Hpres|]. split.
  - unfold missing. rewrite !missing_images_build. now apply omap_Permutation.
  - intros Hm Hnd.
    assert (Hk : forall paths,
               Forall age_known (present os age_mapping paths)).
    { intros paths. eapply Permutation_Forall;
        [apply py_sort_perm | now apply image_data_age_known]. }
    assert (Hs : forall paths,
               StronglySorted catalog_le (present os age_mapping paths)).
    { intros paths. apply sort_catalog_sorted.
      now apply image_data_age_known. }
    apply (sorted_unique catalog_le); auto.
    intros x y Hx Hy Hxy Hyx.
    pose proof (Hk image_paths) as Hall.
    rewrite List.Forall_forall in Hall.
    apply (same_subject_same_record _ x y Hnd Hx Hy).
    apply catalog_le_antisym; auto.
Qed.

Lemma present_order_independent_witness :
  present (posix (disk_of three_paths)) three_ages three_paths
  = present (posix (disk_of three_paths)) three_ages (rev three_paths).
Proof.
  refine (proj2 (proj2 (present_order_independent
            (posix (disk_of three_paths)) three_ages three_paths
            (rev three_paths) _)) _ _).
  - apply Permutation_rev.
  - unfold three_ages.
    apply map_Forall_insert_2; [vm_compute; reflexivity|].
    apply map_Forall_insert_2; [vm_compute; reflexivity|].
    apply map_Forall_empty.
  - vm_compute. repeat constructor; simpl; intuition discriminate.
Defined.

End CatalogInvariants.

(* ===================================================================== *)
(** * Further properties: layout, document and entry point *)
(* ===================================================================== *)

Module DocumentExtras.
Import Catalog Layout Assembler Main.
Import FloatOrder FloatOrderFacts SortFacts CatalogFacts LayoutFacts.
Import AssemblerFacts CatalogInvariants.

(** X11. A placed picture sits between the title band and the bottom
    margin. When it is narrower than the available width it also stays
    within the side margins and is centred: the free space on its right
    exceeds the free space on its left by at most one EMU. When it is not,
    it starts at the left margin and reaches or passes the right one. *)
Theorem placed_picture_box (add_picture : picture_library)
    (slide_width slide_height : Z) (img_path : string) (pic : Picture) :
  place_picture add_picture slide_width slide_height img_path = Some pic ->
  top pic = 1097280%Z
  /\ (top pic + height pic = slide_height - 274320)%Z
  /\ ((width pic < slide_width - 914400)%Z ->
      (457200 <= left pic)%Z
      /\ (left pic + width pic <= slide_width - 457200)%Z
      /\ (0 <= (slide_width - (left pic + width pic)) - left pic <= 1)%Z)
  /\ ((slide_width - 914400 <= width pic)%Z ->
      left pic = 457200%Z
      /\ (slide_width - 457200 <= left pic + width pic)%Z).
Proof.
  unfold place_picture, available_height, available_width.
  rewrite Inches_half, Inches_title_band, Inches_bottom_margin,
    Inches_side_margins.
  destruct (add_picture img_path 457200%Z 1097280%Z
              (slide_height - 1097280 - 274320)%Z) as [w|]; [|discriminate].
  destruct (w <? slide_width - 914400)%Z eqn:Hw;
    intros H; inversion H; subst pic; clear H; cbn [top height width left].
  - apply Z.ltb_lt in Hw.
    pose proof (py_int_horizontal_center (slide_width - 914400) w Hw) as Hc.
    rewrite Inches_half in Hc. rewrite Hc.
    repeat split; try lia.
    + pose proof (Z.div_pos (slide_width - 914400 - w) 2). lia.
    + pose proof (Z.div_mod (slide_width - 914400 - w) 2).
      pose proof (Z.mod_pos_bound (slide_width - 914400 - w) 2). lia.
    + pose proof (Z.div_mod (slide_width - 914400 - w) 2).
      pose proof (Z.mod_pos_bound (slide_width - 914400 - w) 2). lia.
    + pose proof (Z.div_mod (slide_width - 914400 - w) 2).
      pose proof (Z.mod_pos_bound (slide_width - 914400 - w) 2). lia.
  - apply Z.ltb_ge in Hw. repeat split; lia.
Qed.

Lemma placed_picture_box_witness :
  (0 <= (Inches 13.333 - (3352647 + 5486400)) - 3352647 <= 1)%Z.
Proof.
  refine (proj2 (proj2 (proj1 (proj2 (proj2
            (placed_picture_box (aspect_library 1 1) (Inches 13.333)
               (Inches 7.5) "square.png"
               {| image := "square.png"; left := 3352647; top := 1097280;
                  width := 5486400; height := 5486400 |} _))) _)));
    vm_compute; reflexivity.
Defined.

(** ** The age range of the title slide *)

Lemma ltb_false_iff (a b : float) :
  PrimFloat.is_nan a = false -> PrimFloat.is_nan b = false ->
  ((a <? b)%float = false <-> ~ lex_lt (frank a) (frank b)).
Proof.
  intros Ha Hb. split; [now apply ltb_false_rank|].
  intros Hn. destruct (a <? b)%float eqn:E; [|reflexivity].
  apply (ltb_rank a b Ha Hb) in E. contradiction.
Qed.

(** [a <= b < c] gives [a < c], and [a < b <= c] too. *)
Lemma le_lt_rank (ra rb rc : Z * Z * Z) :
  ~ lex_lt rb ra -> lex_lt rb rc -> lex_lt ra rc.
Proof.
  intros Hn Hl. destruct (lex_lt_total ra rb) as [H|[->|H]];
    [eapply lex_lt_trans; eassumption | exact Hl | contradiction].
Qed.

Lemma lt_le_rank (ra rb rc : Z * Z * Z) :
  lex_lt ra rb -> ~ lex_lt rc rb -> lex_lt ra rc.
Proof.
  intros Hl Hn. destruct (lex_lt_total rb rc) as [H|[<-|H]];
    [eapply lex_lt_trans; eassumption | exact Hl | contradiction].
Qed.

Lemma py_min_least (l : list float) (x : float) :
  PrimFloat.is_nan x = false -> Forall (fun a => PrimFloat.is_nan a = false) l ->
  In (py_min x l) (x :: l)
  /\ ~ lex_lt (frank x) (frank (py_min x l))
  /\ forall y, In y l -> ~ lex_lt (frank y) (frank (py_min x l)).
Proof.
  revert x; induction l as [|y l IH]; intros x Hx Hl.
  - simpl. split; [now left|]. split; [apply lex_lt_irrefl | intros y []].
  - apply Forall_cons_1 in Hl as [Hy Hl]. unfold py_min. cbn [fold_left].
    fold (py_min (if (y <? x)%float then y else x) l).
    destruct (y <? x)%float eqn:E.
    + destruct (IH y Hy Hl) as (Hin & Hle & Hall).
      apply (ltb_rank y x Hy Hx) in E.
      split; [right; exact Hin|]. split.
      * intros Hc. apply Hle. eapply lex_lt_trans; eassumption.
      * intros z [<-|Hz]; [exact Hle | now apply Hall].
    + destruct (IH x Hx Hl) as (Hin & Hle & Hall).
      apply (ltb_false_iff y x Hy Hx) in E.
      split; [destruct Hin as [Hin|Hin]; [now left | right; now right]|].
      split; [exact Hle|].
      intros z [<-|Hz]; [|now apply Hall].
      intros Hc. apply Hle. eapply le_lt_rank; eassumption.
Qed.

Lemma py_max_greatest (l : list float) (x : float) :
  PrimFloat.is_nan x = false -> Forall (fun a => PrimFloat.is_nan a = false) l ->
  In (py_max x l) (x :: l)
  /\ ~ lex_lt (frank (py_max x l)) (frank x)
  /\ forall y, In y l -> ~ lex_lt (frank (py_max x l)) (frank y).
Proof.
  revert x; induction l as [|y l IH]; intros x Hx Hl.
  - simpl. split; [now left|]. split; [apply lex_lt_irrefl | intros y []].
  - apply Forall_cons_1 in Hl as [Hy Hl]. unfold py_max. cbn [fold_left].
    fold (py_max (if (x <? y)%float then y else x) l).
    destruct (x <? y)%float eqn:E.
    + destruct (IH y Hy Hl) as (Hin & Hle & Hall).
      apply (ltb_rank x y Hx Hy) in E.
      split; [right; exact Hin|]. split.
      * intros Hc. apply Hle. eapply lex_lt_trans; eassumption.
      * intros z [<-|Hz]; [exact Hle | now apply Hall].
    + destruct (IH x Hx Hl) as (Hin & Hle & Hall).
      apply (ltb_false_iff x y Hx Hy) in E.
      split; [destruct Hin as [Hin|Hin]; [now left | right; now right]|].
      split; [exact Hle|].
      intros z [<-|Hz]; [|now apply Hall].
      intros Hc. apply Hle. eapply lt_le_rank; eassumption.
Qed.

Lemma ages_with_data_numbers (image_data : list SlideRecord) :
  Forall age_known image_data -> Forall (fun a => PrimFloat.is_nan a = false) (ages_with_data image_data).
Proof.
  intros H. apply List.Forall_forall. intros a Ha.
  apply omap_member in Ha as (r & Hage & Hr).
  rewrite List.Forall_forall in H. specialize (H r Hr).
  unfold age_known in H. now rewrite Hage in H.
Qed.

(** X12. The title slide counts the records it is given. It shows an
    age range only when the mapping is not empty and some record has an
    age; the two ends are then ages of records, and (no age being NaN) no
    record is younger than the first or older than the second. *)
Theorem title_slide_age_range (title : string)
    (age_mapping : gmap string float) (image_data : list SlideRecord) :
  Forall age_known image_data ->
  participants (make_title_slide title age_mapping image_data)
  = length image_data
  /\ match age_range (make_title_slide title age_mapping image_data) with
     | Some (youngest, oldest) =>
         age_mapping <> ∅
         /\ (exists r, In r image_data /\ age r = Some youngest)
         /\ (exists r, In r image_data /\ age r = Some oldest)
         /\ forall r a, In r image_data -> age r = Some a ->
                        (a <? youngest)%float = false
                        /\ (oldest <? a)%float = false
     | None =>
         age_mapping = ∅ \/ Forall (fun r => age r = None) image_data
     end.
Proof.
  intros Hk. split; [reflexivity|]. unfold make_title_slide. cbn [age_range].
  destruct (decide (age_mapping = ∅)) as [He|Hne]; [now left|].
  pose proof (ages_with_data_numbers image_data Hk) as Hnum.
  destruct (ages_with_data image_data) as [|a l] eqn:E.
  - right. apply List.Forall_forall. intros r Hr.
    destruct (age r) as [x|] eqn:Ex; [|reflexivity].
    assert (Hin : In x (ages_with_data image_data))
      by (apply omap_member; eauto).
    rewrite E in Hin. destruct Hin.
  - apply Forall_cons_1 in Hnum as [Ha Hl].
    destruct (py_min_least l a Ha Hl) as (Hmin_in & Hmin_a & Hmin_l).
    destruct (py_max_greatest l a Ha Hl) as (Hmax_in & Hmax_a & Hmax_l).
    assert (Hmem : forall x, In x (a :: l) ->
                     exists r, In r image_data /\ age r = Some x).
    { intros x Hx. rewrite <- E in Hx.
      apply omap_member in Hx as (r & Hage & Hr). eauto. }
    assert (Hnum' : forall x, In x (a :: l) -> PrimFloat.is_nan x = false).
    { intros x [<-|Hx]; [exact Ha|].
      rewrite List.Forall_forall in Hl. now apply Hl. }
    split; [exact Hne|]. split; [now apply Hmem|]. split; [now apply Hmem|].
    intros r x Hr Hx.
    assert (Hin : In x (a :: l))
      by (rewrite <- E; apply omap_member; eauto).
    split.
    + apply ltb_false_iff; [now apply Hnum' | now apply Hnum'|].
      destruct Hin as [<-|Hin]; [exact Hmin_a | now apply Hmin_l].
    + apply ltb_false_iff; [now apply Hnum' | now apply Hnum'|].
      destruct Hin as [<-|Hin]; [exact Hmax_a | now apply Hmax_l].
Qed.

Lemma title_slide_age_range_witness :
  participants
    (make_title_slide "Motor Learning" three_ages
       (present (posix (disk_of three_paths)) three_ages three_paths))
  = 3.
Proof.
  refine (proj1 (title_slide_age_range "Motor Learning" three_ages
                   (present (posix (disk_of three_paths)) three_ages
                            three_paths) _)).
  repeat constructor; vm_compute; reflexivity.
Defined.

(** ** How a run ends *)

Lemma sort_catalog_nil (l : list SlideRecord) :
  sort_catalog l = [] <-> l = [].
Proof.
  split; [|intros ->; reflexivity].
  intros H. pose proof (py_sort_perm sort_key key_lt l) as Hp.
  fold (sort_catalog l) in Hp. rewrite H in Hp.
  now apply Permutation_sym, Permutation_nil in Hp.
Qed.

(** X13. A run ends in one of three ways. With no valid image it
    returns the empty string, saves nothing and says that no valid image
    was found; an empty list of paths is such a case. With valid images
    but a failing save it returns the empty string too, without a
    document. Otherwise it returns the output filename and the document:
    16:9 canvas, the given title, as many image slides as the title slide
    counts and as the catalog has records. *)
Theorem run_outcome (os : Platform) (py : Metadata.Builtins)
    (read_csv : string -> read_result Metadata.DataFrame) (lib : Library)
    (image_paths : list string) (output_filename : string)
    (metadata_path : option string) (title : string) :
  let run := create_powerpoint_from_images os py read_csv lib image_paths
               output_filename metadata_path title in
  let catalog := present os (fst (load_ages os py read_csv metadata_path))
                   image_paths in
  (catalog = [] ->
   returned run = "" /\ document run = None
   /\ In NoValidImagesFound (printed run))
  /\ (image_paths = [] -> catalog = [])
  /\ (catalog <> [] -> save lib output_filename = false ->
      returned run = "" /\ document run = None
      /\ In ErrorSavingPowerPoint (printed run))
  /\ (catalog <> [] -> save lib output_filename = true ->
      returned run = output_filename
      /\ exists prs,
           document run = Some prs
           /\ slide_width prs = 12191695%Z /\ slide_height prs = 6858000%Z
           /\ title_text (title_slide prs) = title
           /\ participants (title_slide prs) = length catalog
           /\ length (image_slides prs) = length catalog).
Proof.
  intros run catalog. unfold run, catalog, create_powerpoint_from_images.
  clear run catalog.
  destruct (load_ages os py read_csv metadata_path) as [m log0].
  cbn [fst]. unfold present.
  split; [|split; [|split]].
  - intros Hnil. apply (proj1 (sort_catalog_nil _)) in Hnil. rewrite Hnil.
    cbn [returned document printed]. repeat split.
    apply in_or_app. right. now left.
  - intros ->. reflexivity.
  - intros Hne Hsave.
    destruct (image_data (build_catalog os m image_paths)) as [|r l] eqn:Ed;
      [now destruct Hne|].
    destruct (add_image_slides lib (Inches 13.333) (Inches 7.5)
                (sort_catalog (r :: l))) as [sl lg].
    rewrite Hsave. cbn [returned document printed]. repeat split.
    rewrite !List.app_assoc. apply in_or_app. right. now left.
  - intros Hne Hsave.
    destruct (image_data (build_catalog os m image_paths)) as [|r l] eqn:Ed;
      [now destruct Hne|].
    destruct (add_image_slides lib (Inches 13.333) (Inches 7.5)
                (sort_catalog (r :: l))) as [sl lg] eqn:Es.
    rewrite Hsave. cbn [returned document printed].
    split; [reflexivity|]. eexists. split; [reflexivity|].
    cbn [slide_width slide_height title_slide image_slides].
    repeat split; try (vm_compute; reflexivity).
    change sl with (fst (sl, lg)). rewrite <- Es.
    rewrite add_image_slides_map, length_map. apply length_numbered.
Qed.

Lemma run_outcome_witness :
  returned (create_powerpoint_from_images (posix (disk_of [])) Metadata.no_text
              no_csv (failing_on "") three_paths "out.pptx" None "Title")
  = ""
  /\ document (create_powerpoint_from_images (posix (disk_of []))
                 Metadata.no_text no_csv (failing_on "") three_paths
                 "out.pptx" None "Title")
     = None
  /\ In NoValidImagesFound
        (printed (create_powerpoint_from_images (posix (disk_of []))
                    Metadata.no_text no_csv (failing_on "") three_paths
                    "out.pptx" None "Title")).
Proof.
  refine (proj1 (run_outcome (posix (disk_of [])) Metadata.no_text no_csv
                   (failing_on "") three_paths "out.pptx" None "Title") _).
  vm_compute. reflexivity.
Defined.

(** ** The entry point *)

Section EntryPoint.
Variable os : Platform.
Variable py : Metadata.Builtins.
Variable read_csv : string -> read_result Metadata.DataFrame.
Variable lib : Library.

Lemma main_from_paths (files : Files) :
  fst (main os py read_csv files lib)
  = match fst (main_image_paths os files) with
    | [] => None
    | image_paths =>
        Some (create_powerpoint_from_images os py read_csv lib image_paths
                output_file (Some metadata_file) presentation_title)
    end.
Proof.
  unfold main. destruct (main_image_paths os files) as [[|p l] log];
    reflexivity.
Qed.

Lemma main_paths_from_file (files : Files) :
  path_exists os image_paths_file = true ->
  fst (main_image_paths os files)
  = fst (Paths.parse_image_paths_from_file image_paths_file
           (read_text files image_paths_file)).
Proof.
  intros He. unfold main_image_paths. rewrite He.
  destruct (Paths.parse_image_paths_from_file image_paths_file
              (read_text files image_paths_file)); reflexivity.
Qed.

Lemma main_paths_from_scan (files : Files) :
  path_exists os image_paths_file = false ->
  fst (main_image_paths os files)
  = fst (find_images_in_directory os files "." default_pattern).
Proof.
  intros He. unfold main_image_paths. rewrite He.
  destruct (find_images_in_directory os files "." default_pattern);
    reflexivity.
Qed.

Lemma no_kept_line (lines : list string) :
  (forall line, In line lines ->
                Paths.is_png_path (Paths.clean_line line) = false) ->
  Paths.kept_lines lines = [].
Proof.
  unfold Paths.kept_lines. induction lines as [|line lines IH]; intros H;
    [reflexivity|]. simpl.
  rewrite (H line (or_introl eq_refl)). apply IH.
  intros l Hl. apply H. now right.
Qed.

(** X14. The entry point reads its image paths from one source only.
    When the path file exists the directory is never scanned, so a path
    file without any usable line ends the run without a document even
    if the directory holds images, and so does a path file that cannot
    be read; when it does not exist the file is
    never read, and a missing directory or a failing scan ends the run
    without a document. A document is attempted exactly when the chosen
    source gives at least one path. *)
Theorem main_one_source (files : Files) :
  (path_exists os image_paths_file = true ->
   (forall scan,
       fst (main os py read_csv
              {| read_text := read_text files; rglob := scan |} lib)
       = fst (main os py read_csv files lib))
   /\ (forall content,
         read_text files image_paths_file = ReadOk content ->
         (forall line, In line (PyStr.split Paths.newline content) ->
                       Paths.is_png_path (Paths.clean_line line) = false) ->
         fst (main os py read_csv files lib) = None)
   /\ ((forall content, read_text files image_paths_file <> ReadOk content) ->
       fst (main os py read_csv files lib) = None))
  /\ (path_exists os image_paths_file = false ->
      (forall reader,
          fst (main os py read_csv
                 {| read_text := reader; rglob := rglob files |} lib)
          = fst (main os py read_csv files lib))
      /\ (path_exists os "." = false
          \/ rglob files "." default_pattern = None
          \/ rglob files "." default_pattern = Some [] ->
          fst (main os py read_csv files lib) = None))
  /\ (fst (main os py read_csv files lib) = None
      <-> fst (main_image_paths os files) = []).
Proof.
  split; [|split].
  - intros He. split; [|split].
    + intros scan. rewrite !main_from_paths, !main_paths_from_file by exact He.
      reflexivity.
    + intros content Hread Hnone.
      rewrite main_from_paths, main_paths_from_file by exact He.
      rewrite Hread. unfold Paths.parse_image_paths_from_file. cbn [fst].
      rewrite PathsFacts.loop_is_kept, PathsFacts.kept_strip.
      now rewrite (no_kept_line _ Hnone).
    + intros Hno. rewrite main_from_paths, main_paths_from_file by exact He.
      destruct (read_text files image_paths_file) as [content| |];
        [destruct (Hno content eq_refl) | reflexivity | reflexivity].
  - intros He. split.
    + intros reader.
      rewrite !main_from_paths, !main_paths_from_scan by exact He.
      reflexivity.
    + intros Hbad. rewrite main_from_paths, main_paths_from_scan by exact He.
      unfold find_images_in_directory.
      destruct (path_exists os "."); [|reflexivity].
      destruct Hbad as [Hd|[Hs|Hs]]; [discriminate Hd | |];
        rewrite Hs; reflexivity.
  - rewrite main_from_paths.
    destruct (fst (main_image_paths os files)); split; intros H;
      try reflexivity; discriminate H.
Qed.

End EntryPoint.

Lemma main_one_source_witness :
  fst (main (posix (disk_of (image_paths_file :: three_paths)))
            Metadata.no_text no_csv
            {| read_text := read_text paste_three;
               rglob := fun _ _ => Some three_paths |}
            (failing_on ""))
  = fst (main (posix (disk_of (image_paths_file :: three_paths)))
              Metadata.no_text no_csv paste_three (failing_on "")).
Proof.
  refine (proj1 (proj1 (main_one_source
            (posix (disk_of (image_paths_file :: three_paths)))
            Metadata.no_text no_csv (failing_on "") paste_three) _)
            (fun _ _ => Some three_paths)).
  vm_compute. reflexivity.
Defined.

End DocumentExtras.
